(** * Remoulade: the RabbitMQ broker adapter

    A shallow embedding of [remoulade/brokers/rabbitmq.py] and of the parts
    of the message model it relies on.  Python methods become functions in
    a small state-and-exception monad over the attributes of the broker
    object; every call into the AMQP client library (amqpstorm) and into
    the clock is an explicit [call], answered by an arbitrary environment
    and recorded, with its outcome, in a trace.  Readings of the monotonic
    clock, deadlines and sleeps are binary64 floats, computed with the
    Standard Library's specification of IEEE 754 arithmetic. *)

From stdpp Require Import gmap strings list fin_maps.
From Stdlib Require Import ZArith SpecFloat Lia.

#[local] Set Warnings "-register-all".
#[local] Open Scope string_scope.
#[local] Open Scope Z_scope.
#[local] Open Scope list_scope.

(** ** Python values *)

(** The values that travel in a message: [None], booleans, integers,
    strings, lists and dictionaries keyed by strings.  Dictionaries are
    finite maps, so two dictionaries are equal exactly when they hold the
    same keys with the same values, as [==] on Python dicts. *)
Inductive value : Type :=
| VNone
| VBool (b : bool)
| VInt (z : Z)
| VStr (s : string)
| VList (l : list value)
| VDict (d : gmap string value).

(** ** The wire form *)

(** A wire body is a sequence of self-describing items: every item says
    what it is, and a container says how many members follow it. *)
Inductive token : Type :=
| TNone
| TBool (b : bool)
| TInt (z : Z)
| TStr (s : string)
| TList (n : nat)
| TDict (n : nat).

Definition wire : Type := list token.

Fixpoint dumps (v : value) : wire :=
  match v with
  | VNone => [TNone]
  | VBool b => [TBool b]
  | VInt z => [TInt z]
  | VStr s => [TStr s]
  | VList l => TList (length l) :: foldr (fun x acc => dumps x ++ acc) [] l
  | VDict d => TDict (size d) :: map_fold (fun k x acc => TStr k :: dumps x ++ acc) [] d
  end.

(** The entries of a dictionary written in a chosen order. *)
Definition dump_entries (es : list (string * value)) : wire :=
  foldr (fun e acc => TStr e.1 :: dumps e.2 ++ acc) [] es.

(** [n] consecutive values read by [p]. *)
Fixpoint loads_seq (p : wire -> option (value * wire)) (n : nat) (ts : wire)
  : option (list value * wire) :=
  match n with
  | O => Some ([], ts)
  | S n' =>
      match p ts with
      | Some (v, ts') =>
          match loads_seq p n' ts' with
          | Some (vs, ts'') => Some (v :: vs, ts'')
          | None => None
          end
      | None => None
      end
  end.

(** [n] consecutive key/value entries, the values read by [p]. *)
Fixpoint loads_entries (p : wire -> option (value * wire)) (n : nat) (ts : wire)
  : option (list (string * value) * wire) :=
  match n with
  | O => Some ([], ts)
  | S n' =>
      match ts with
      | TStr k :: ts1 =>
          match p ts1 with
          | Some (v, ts2) =>
              match loads_entries p n' ts2 with
              | Some (es, ts3) => Some ((k, v) :: es, ts3)
              | None => None
              end
          | None => None
          end
      | _ => None
      end
  end.

(** One value read off the front of a wire body; [fuel] bounds the nesting
    depth. *)
Fixpoint loads_value (fuel : nat) (ts : wire) : option (value * wire) :=
  match fuel with
  | O => None
  | S fuel' =>
      match ts with
      | [] => None
      | TNone :: r => Some (VNone, r)
      | TBool b :: r => Some (VBool b, r)
      | TInt z :: r => Some (VInt z, r)
      | TStr s :: r => Some (VStr s, r)
      | TList n :: r =>
          match loads_seq (loads_value fuel') n r with
          | Some (vs, r') => Some (VList vs, r')
          | None => None
          end
      | TDict n :: r =>
          match loads_entries (loads_value fuel') n r with
          | Some (es, r') => Some (VDict (list_to_map es), r')
          | None => None
          end
      end
  end.

(** A whole body: exactly one value and nothing after it.  No value nests
    deeper than the body is long. *)
Definition loads (ts : wire) : option value :=
  match loads_value (length ts) ts with
  | Some (v, []) => Some v
  | _ => None
  end.

(** A wire body that encodes a value, the entries of every dictionary
    written in any order. *)
Inductive encodes : value -> wire -> Prop :=
| encodes_none : encodes VNone [TNone]
| encodes_bool b : encodes (VBool b) [TBool b]
| encodes_int z : encodes (VInt z) [TInt z]
| encodes_str s : encodes (VStr s) [TStr s]
| encodes_list l ws :
    Forall2 encodes l ws ->
    encodes (VList l) (TList (length l) :: concat ws)
| encodes_dict d es ws :
    es ≡ₚ map_to_list d ->
    Forall2 encodes es.*2 ws ->
    encodes (VDict d) (TDict (length es) :: concat (zip_with (fun k w => TStr k :: w) es.*1 ws)).


(** ** Messages *)

Module Message.

(** Modelled from the spec: the [Message] value of [remoulade/message.py],
    which is not among the sources.  Spec, section 3: an immutable value
    with [message_id], [actor_name], [queue_name], positional and keyword
    [args], and an open [options] mapping. *)
Record t : Type := Message {
  queue_name : string;
  actor_name : string;
  args : list value;
  kwargs : gmap string value;
  options : gmap string value;
  message_id : string;
}.

(** Modelled from the spec: [Message.asdict], the structure
    [{message_id, actor_name, queue_name, args, kwargs, options}] that is
    put on the wire (spec, section 6). *)
Definition asdict (m : t) : gmap string value :=
  <["queue_name" := VStr (queue_name m)]>
  (<["actor_name" := VStr (actor_name m)]>
  (<["args" := VList (args m)]>
  (<["kwargs" := VDict (kwargs m)]>
  (<["options" := VDict (options m)]>
  (<["message_id" := VStr (message_id m)]> ∅))))).

(** Modelled from the spec: [Message.encode], a self-describing
    structured encoding of the six fields. *)
Definition encode (m : t) : wire := dumps (VDict (asdict m)).

(** Modelled from the spec: [Message.decode], the inverse of [encode]; a
    body that is not the encoding of a message is refused. *)
Definition decode (body : wire) : option t :=
  match loads body with
  | Some (VDict d) =>
      match d !! "queue_name", d !! "actor_name", d !! "args",
            d !! "kwargs", d !! "options", d !! "message_id" with
      | Some (VStr q), Some (VStr a), Some (VList xs),
        Some (VDict kw), Some (VDict o), Some (VStr i) =>
          if decide (size d = 6%nat) then Some (Message q a xs kw o i) else None
      | _, _, _, _, _, _ => None
      end
  | _ => None
  end.

(** Modelled from the spec: [Message.copy], the copy-with-overrides of
    section 9: the named attributes are replaced and the given options
    are laid over the options of the original. *)
Definition copy (m : t) (new_queue_name : option string)
    (new_options : gmap string value) : t :=
  {| queue_name := default (queue_name m) new_queue_name;
     actor_name := actor_name m;
     args := args m;
     kwargs := kwargs m;
     options := new_options ∪ options m;
     message_id := message_id m |}.

End Message.

(** ** Actors *)

(** Modelled from the spec: the registered actor of [remoulade/actor.py]
    (spec, section 3), of which the broker reads the name, the queue and
    the declared options. *)
Record Actor : Type := {
  actor_actor_name : string;
  actor_queue_name : string;
  actor_options : gmap string value;
}.

(** ** Exceptions *)

(** The exception classes the adapter raises, catches or lets through.
    [AMQPConnectionError] and [AMQPChannelError] are subclasses of
    [AMQPError]; [AMQPError] alone stands for its other subclasses;
    [OtherException] stands for any other subclass of [Exception]. *)
Inductive exn : Type :=
| AMQPError
| AMQPConnectionError
| AMQPChannelError
| ConnectionClosed (cause : exn)
| QueueJoinTimeout (queue_name : string)
| ActorNotFound (actor_name : string)
| ValueError (msg : string)
| AttributeError
| DecodeError
| OtherException (name : string).

Definition isinstance_AMQPError (e : exn) : bool :=
  match e with
  | AMQPError | AMQPConnectionError | AMQPChannelError => true
  | _ => false
  end.

Definition isinstance_AMQPConnectionError (e : exn) : bool :=
  match e with AMQPConnectionError => true | _ => false end.

Definition isinstance_AMQPChannelError (e : exn) : bool :=
  match e with AMQPChannelError => true | _ => false end.

Definition isinstance_AttributeError (e : exn) : bool :=
  match e with AttributeError => true | _ => false end.

(** [except (AMQPConnectionError, AMQPChannelError)]. *)
Definition transport_error (e : exn) : bool :=
  isinstance_AMQPConnectionError e || isinstance_AMQPChannelError e.

Inductive result (A : Type) : Type :=
| Ok (a : A)
| Raise (e : exn).
Arguments Ok {A} a.
Arguments Raise {A} e.

(** ** Numbers *)

(** A Python [float] is an IEEE 754 binary64 number: a sign, a mantissa
    of at most 53 bits and an exponent below 1024, or a zero, an infinity
    or a NaN.  Sums and quotients are rounded to the nearest such number,
    ties to even. *)
Definition float : Type := spec_float.

(** [x + y] on floats. *)
Definition float_add (x y : float) : float := SFadd 53 1024 x y.

(** [x < y] and [x >= y] on floats: both are false when one of the two is
    a NaN. *)
Definition float_lt (x y : float) : bool := SFltb x y.
Definition float_ge (x y : float) : bool := SFleb y x.

(** [bool(x)] on a float: every float but the two zeros is true. *)
Definition float_bool (x : float) : bool := negb (SFeqb x (S754_zero false)).

(** An [int] before any rounding: its sign and its magnitude, at
    exponent 0. *)
Definition unrounded (n : Z) : spec_float :=
  match n with
  | Z0 => S754_zero false
  | Zpos p => S754_finite false p 0
  | Zneg p => S754_finite true p 0
  end.

(** [n / d] on two [int]s, true division: the float nearest to the
    quotient of the two integers.  It raises [ZeroDivisionError] on a zero
    divisor and [OverflowError] when the quotient is too large for a
    float. *)
Definition truediv (n d : Z) : result float :=
  if d =? 0 then Raise (OtherException "ZeroDivisionError")
  else
    match SFdiv 53 1024 (unrounded n) (unrounded d) with
    | S754_infinity _ => Raise (OtherException "OverflowError")
    | q => Ok q
    end.

(** [float(n)] for an [int] that a float can hold. *)
Definition float_of_int (n : Z) : float := binary_normalize 53 1024 n 0 false.

(** The literal [0.1]: the float nearest to a tenth. *)
Definition tenth : float := S754_finite false 7205759403792794 (-56).

(** A number: an [int] or a [float]. *)
Inductive number : Type :=
| Int (z : Z)
| Float (x : float).

(** [x >= z] for a float and an [int]: the two are compared by value,
    the integer is not rounded. *)
Definition float_ge_int (x : float) (z : Z) : bool :=
  match x with
  | S754_nan => false
  | S754_infinity s => negb s
  | S754_zero _ => z <=? 0
  | S754_finite s m e =>
      let v := if s then Zneg m else Zpos m in
      if 0 <=? e then z <=? v * 2 ^ e else z * 2 ^ (- e) <=? v
  end.

(** [x >= y] for a float and a number. *)
Definition float_ge_number (x : float) (y : number) : bool :=
  match y with
  | Int z => float_ge_int x z
  | Float y => float_ge x y
  end.

(** ** The client library and the clock *)

(** Connections, channels and delivered messages are opaque handles. *)
Definition conn : Type := nat.
Definition chan : Type := nat.
Definition delivery_tag : Type := nat.

(** The calls the adapter makes outside itself, indexed by the type of
    what they return: [queue.declare] returns the [message_count] of its
    reply, the clocks return their reading. *)
Inductive call : Type -> Type :=
| UriConnection (url : string) : call conn
| connection_is_closed (c : conn) : call bool
| connection_close (c : conn) : call unit
| connection_channel (c : conn) : call chan
| channel_is_closed (ch : chan) : call bool
| channel_close (ch : chan) : call unit
| channel_confirm_deliveries (ch : chan) : call unit
| channel_queue_declare (ch : chan) (queue : string) (durable : bool)
    (arguments : gmap string value) : call Z
| channel_queue_purge (ch : chan) (queue : string) : call unit
| channel_basic_publish (ch : chan) (exchange routing_key : string)
    (body : wire) (properties : gmap string value) : call unit
| channel_basic_qos (ch : chan) (prefetch_count : Z) : call unit
| channel_basic_consume (ch : chan) (queue : string) (no_ack : bool) : call unit
| message_ack (t : delivery_tag) : call unit
| message_nack (t : delivery_tag) (requeue : bool) : call unit
| time_monotonic : call float
| time_sleep (seconds : float) : call unit
| current_millis : call Z.

(** A call together with what it returned or raised. *)
Inductive event : Type :=
| Ev {T : Type} (c : call T) (r : result T).

(** The environment: what a call answers, given everything that happened
    before. *)
Definition oracle : Type := forall T : Type, list event -> call T -> result T.

(** ** Middleware hooks and log records *)

(** Modelled from the spec: the middleware chain of [remoulade/broker.py],
    "a fixed ordered list of named lifecycle callbacks" (spec, section 1);
    emitting a signal is recorded as the hook it reaches. *)
Inductive hook : Type :=
| before_declare_queue (queue_name : string)
| after_declare_queue (queue_name : string)
| after_declare_delay_queue (queue_name : string)
| before_enqueue (message : Message.t) (delay : option Z)
| after_enqueue (message : Message.t) (delay : option Z).

Inductive log_record : Type :=
| log_debug (msg : string)
| log_warning (msg : string).

(** ** The broker object *)

(** The attributes of a [RabbitmqBroker], those it inherits from [Broker]
    ([actors], [delay_queues]; modelled from the spec, as [broker.py] is not
    among the sources) and, next to them, what the broker has done so far
    that is visible outside: the trace of calls, the hooks emitted and the
    records logged.  [state_channel] is the [channel] attribute of the
    thread-local [state] for the running thread, [None] when the attribute
    is not set. *)
Record RabbitmqBroker : Type := {
  url : string;
  confirm_delivery : bool;
  max_priority : option Z;
  _connection : option conn;
  queues : gset string;
  state_channel : option chan;
  queues_declared : bool;
  actors : gmap string Actor;
  delay_queues : gset string;
  trace : list event;
  emitted : list hook;
  logged : list log_record;
}.

Definition set__connection (c : option conn) (b : RabbitmqBroker) : RabbitmqBroker :=
  {| url := url b; confirm_delivery := confirm_delivery b; max_priority := max_priority b;
     _connection := c; queues := queues b; state_channel := state_channel b;
     queues_declared := queues_declared b; actors := actors b;
     delay_queues := delay_queues b; trace := trace b; emitted := emitted b;
     logged := logged b |}.

Definition set_state_channel (ch : option chan) (b : RabbitmqBroker) : RabbitmqBroker :=
  {| url := url b; confirm_delivery := confirm_delivery b; max_priority := max_priority b;
     _connection := _connection b; queues := queues b; state_channel := ch;
     queues_declared := queues_declared b; actors := actors b;
     delay_queues := delay_queues b; trace := trace b; emitted := emitted b;
     logged := logged b |}.

Definition set_queues (qs : gset string) (b : RabbitmqBroker) : RabbitmqBroker :=
  {| url := url b; confirm_delivery := confirm_delivery b; max_priority := max_priority b;
     _connection := _connection b; queues := qs; state_channel := state_channel b;
     queues_declared := queues_declared b; actors := actors b;
     delay_queues := delay_queues b; trace := trace b; emitted := emitted b;
     logged := logged b |}.

Definition set_delay_queues (qs : gset string) (b : RabbitmqBroker) : RabbitmqBroker :=
  {| url := url b; confirm_delivery := confirm_delivery b; max_priority := max_priority b;
     _connection := _connection b; queues := queues b; state_channel := state_channel b;
     queues_declared := queues_declared b; actors := actors b;
     delay_queues := qs; trace := trace b; emitted := emitted b;
     logged := logged b |}.

Definition set_queues_declared (d : bool) (b : RabbitmqBroker) : RabbitmqBroker :=
  {| url := url b; confirm_delivery := confirm_delivery b; max_priority := max_priority b;
     _connection := _connection b; queues := queues b; state_channel := state_channel b;
     queues_declared := d; actors := actors b;
     delay_queues := delay_queues b; trace := trace b; emitted := emitted b;
     logged := logged b |}.

Definition set_trace (t : list event) (b : RabbitmqBroker) : RabbitmqBroker :=
  {| url := url b; confirm_delivery := confirm_delivery b; max_priority := max_priority b;
     _connection := _connection b; queues := queues b; state_channel := state_channel b;
     queues_declared := queues_declared b; actors := actors b;
     delay_queues := delay_queues b; trace := t; emitted := emitted b;
     logged := logged b |}.

Definition set_emitted (h : list hook) (b : RabbitmqBroker) : RabbitmqBroker :=
  {| url := url b; confirm_delivery := confirm_delivery b; max_priority := max_priority b;
     _connection := _connection b; queues := queues b; state_channel := state_channel b;
     queues_declared := queues_declared b; actors := actors b;
     delay_queues := delay_queues b; trace := trace b; emitted := h;
     logged := logged b |}.

Definition set_logged (l : list log_record) (b : RabbitmqBroker) : RabbitmqBroker :=
  {| url := url b; confirm_delivery := confirm_delivery b; max_priority := max_priority b;
     _connection := _connection b; queues := queues b; state_channel := state_channel b;
     queues_declared := queues_declared b; actors := actors b;
     delay_queues := delay_queues b; trace := trace b; emitted := emitted b;
     logged := l |}.

(** ** The monad of methods *)

(** A method runs on the broker and returns or raises, leaving the broker
    as it is at that point. *)
Definition M (A : Type) : Type := RabbitmqBroker -> result A * RabbitmqBroker.

Definition ret {A : Type} (a : A) : M A := fun b => (Ok a, b).

Definition raise {A : Type} (e : exn) : M A := fun b => (Raise e, b).

Definition bind {A B : Type} (m : M A) (k : A -> M B) : M B :=
  fun b =>
    match m b with
    | (Ok a, b') => k a b'
    | (Raise e, b') => (Raise e, b')
    end.

(** [try: m  except: h], where [h] re-raises what it does not handle. *)
Definition try_except {A : Type} (m : M A) (h : exn -> M A) : M A :=
  fun b =>
    match m b with
    | (Ok a, b') => (Ok a, b')
    | (Raise e, b') => h e b'
    end.

Definition gets {A : Type} (f : RabbitmqBroker -> A) : M A := fun b => (Ok (f b), b).

Definition modify (f : RabbitmqBroker -> RabbitmqBroker) : M unit := fun b => (Ok tt, f b).

(** An expression that was computed without the broker: its value is
    returned, or what it raised is raised. *)
Definition computed {A : Type} (r : result A) : M A := fun b => (r, b).

Declare Scope py_scope.
Delimit Scope py_scope with py.
Notation "x <- m ;; k" := (bind m (fun x => k))
  (at level 100, m at next level, right associativity) : py_scope.
Notation "m ;; k" := (bind m (fun _ => k))
  (at level 100, right associativity) : py_scope.
#[local] Open Scope py_scope.

(** ** Constants *)

(** The maximum amount of time a message can be in the dead queue. *)
Definition DEAD_MESSAGE_TTL : Z := 86400000 * 7.

(** The max number of times to attempt an enqueue operation in case of a
    connection error. *)
Definition MAX_ENQUEUE_ATTEMPTS : Z := 6.

(** ** Truth values and arithmetic of Python *)

(** [bool(x)] for an optional integer: [None] and [0] are false. *)
Definition truthy_int (x : option Z) : bool :=
  match x with
  | Some z => negb (z =? 0)
  | None => false
  end.

(** [bool(x)] for an optional number: [None] and zero are false. *)
Definition truthy_num (x : option number) : bool :=
  match x with
  | Some (Int z) => negb (z =? 0)
  | Some (Float x) => float_bool x
  | None => false
  end.

(** [n / 1000] on an [int]. *)
Definition div1000 (n : Z) : result float := truediv n 1000.

(** ** Construction *)

(** [RabbitmqBroker.__init__].  The [middleware] argument only feeds the
    middleware chain and is left out. *)
Definition RabbitmqBroker__init__ (confirm_delivery : bool) (url : option string)
    (max_priority : option Z) : result RabbitmqBroker :=
  if match max_priority with
     | Some p => negb ((0 <? p) && (p <=? 255))
     | None => false
     end
  then Raise (ValueError "max_priority must be a value between 0 and 255")
  else Ok {| url := match url with Some u => u | None => "" end;
             confirm_delivery := confirm_delivery;
             max_priority := max_priority;
             _connection := None;
             queues := ∅;
             state_channel := None;
             queues_declared := false;
             actors := ∅;
             delay_queues := ∅;
             trace := [];
             emitted := [];
             logged := [] |}.

(** Modelled from the spec: [Broker.declare_actor] of [broker.py]
    registers the actor under its name (spec, section 3). *)
Definition register_actor (a : Actor) (b : RabbitmqBroker) : RabbitmqBroker :=
  {| url := url b; confirm_delivery := confirm_delivery b; max_priority := max_priority b;
     _connection := _connection b; queues := queues b; state_channel := state_channel b;
     queues_declared := queues_declared b;
     actors := <[actor_actor_name a := a]> (actors b);
     delay_queues := delay_queues b; trace := trace b; emitted := emitted b;
     logged := logged b |}.

(** ** Messages delivered by the library *)

(** What amqpstorm hands to a consumer: the body and the tag under which
    the delivery is acknowledged. *)
Record amqp_message : Type := {
  body : wire;
  tag : delivery_tag;
}.

Record _RabbitmqMessage : Type := {
  _message : Message.t;
  _rabbitmq_message : amqp_message;
}.

(** [_RabbitmqMessage.__init__]: the proxy wraps the decoded body. *)
Definition _RabbitmqMessage__init__ (rabbitmq_message : amqp_message)
  : result _RabbitmqMessage :=
  match Message.decode (body rabbitmq_message) with
  | Some m => Ok {| _message := m; _rabbitmq_message := rabbitmq_message |}
  | None => Raise DecodeError
  end.

(** Anything a caller may pass to [Consumer.ack] and [Consumer.nack]: an
    object is what calling its [ack] and its [nack] does.  An object
    without the method raises [AttributeError] there. *)
Record py_object : Type := {
  obj_ack : M unit;
  obj_nack : bool -> M unit;
}.

Record _RabbitmqConsumer : Type := {
  consumer_channel : chan;
  consumer_timeout : Z;
}.

(** ** The methods of the broker *)

Section Broker.

(** The client library and the clocks answer as they please. *)
Variable respond : oracle.

(** [dq_name] and [xq_name] of [remoulade/common.py], which is not among
    the sources: the names of the delay queue and of the dead-letter
    queue of a queue. *)
Variable dq_name : string -> string.
Variable xq_name : string -> string.

(** A call is answered by the environment and recorded. *)
Definition perform {T : Type} (c : call T) : M T :=
  fun b =>
    let r := respond T (trace b) c in
    (r, set_trace (trace b ++ [Ev c r]) b).

(** Modelled from the spec: [Broker.emit_before] and [Broker.emit_after]
    of [broker.py] run the middleware chain; here the hook is recorded. *)
Definition emit (h : hook) : M unit :=
  modify (fun b => set_emitted (emitted b ++ [h]) b).

Definition logger (r : log_record) : M unit :=
  modify (fun b => set_logged (logged b ++ [r]) b).

(** Modelled from the spec: [Broker.get_actor] of [broker.py]; a name
    that is not registered raises [ActorNotFound] (spec, section 7). *)
Definition get_actor (actor_name : string) : M Actor :=
  registered <- gets actors;;
  match registered !! actor_name with
  | Some a => ret a
  | None => raise (ActorNotFound actor_name)
  end.

(** The [connection] property. *)
Definition open_connection : M conn :=
  u <- gets url;;
  c <- perform (UriConnection u);;
  modify (set__connection (Some c));;
  ret c.

Definition connection : M conn :=
  current <- gets _connection;;
  match current with
  | None => open_connection
  | Some c =>
      closed <- perform (connection_is_closed c);;
      if (closed : bool) then open_connection else ret c
  end.

(** [del self.connection]. *)
Definition del_connection : M unit :=
  current <- gets _connection;;
  match current with
  | Some c =>
      try_except (perform (connection_close c))
        (fun e => if isinstance_AMQPError e then ret tt else raise e)
  | None => ret tt
  end;;
  modify (set__connection None).

(** The [channel] property. *)
Definition open_channel : M chan :=
  c <- connection;;
  ch <- perform (connection_channel c);;
  confirm <- gets confirm_delivery;;
  (if (confirm : bool) then perform (channel_confirm_deliveries ch) else ret tt);;
  modify (set_state_channel (Some ch));;
  ret ch.

Definition channel : M chan :=
  current <- gets state_channel;;
  match current with
  | None => open_channel
  | Some ch =>
      closed <- perform (channel_is_closed ch);;
      if (closed : bool) then open_channel else ret ch
  end.

(** [del self.channel]. *)
Definition del_channel : M unit :=
  try_except
    (current <- gets state_channel;;
     match current with
     | None => raise AttributeError
     | Some ch =>
         try_except (perform (channel_close ch))
           (fun e => if isinstance_AMQPError e then ret tt else raise e);;
         modify (set_state_channel None)
     end)
    (fun e => if isinstance_AttributeError e then ret tt else raise e).

Definition close : M unit :=
  logger (log_debug "Closing channels and connection...");;
  try_except del_connection
    (fun _ => logger (log_debug "Encountered an error while connection."));;
  modify (set__connection None);;
  logger (log_debug "Channels and connections closed.").

Definition _build_queue_arguments (queue_name : string) : M (gmap string value) :=
  mp <- gets max_priority;;
  let arguments : gmap string value :=
    <["x-dead-letter-routing-key" := VStr (xq_name queue_name)]>
      {["x-dead-letter-exchange" := VStr ""]} in
  ret (if truthy_int mp
       then match mp with
            | Some p => <["x-max-priority" := VInt p]> arguments
            | None => arguments
            end
       else arguments).

Definition _declare_queue (queue_name : string) : M Z :=
  arguments <- _build_queue_arguments queue_name;;
  ch <- channel;;
  perform (channel_queue_declare ch queue_name true arguments).

Definition _declare_dq_queue (queue_name : string) : M Z :=
  arguments <- _build_queue_arguments queue_name;;
  ch <- channel;;
  perform (channel_queue_declare ch (dq_name queue_name) true arguments).

Definition _declare_xq_queue (queue_name : string) : M Z :=
  ch <- channel;;
  perform (channel_queue_declare ch (xq_name queue_name) true
             {["x-message-ttl" := VInt DEAD_MESSAGE_TTL]}).

(** [for x in xs: body(x)]. *)
Fixpoint for_each {A : Type} (xs : list A) (body : A -> M unit) : M unit :=
  match xs with
  | [] => ret tt
  | x :: xs' => body x;; for_each xs' body
  end.

(** The queues are visited in the order in which the set yields them. *)
Definition _declare_rabbitmq_queues : M unit :=
  qs <- gets queues;;
  for_each (elements qs) (fun queue_name =>
    _declare_queue queue_name;;
    _declare_dq_queue queue_name;;
    _declare_xq_queue queue_name;;
    ret tt).

Definition declare_queue (queue_name : string) : M unit :=
  qs <- gets queues;;
  if decide (queue_name ∈ qs) then ret tt
  else
    emit (before_declare_queue queue_name);;
    modify (fun b => set_queues ({[queue_name]} ∪ queues b) b);;
    emit (after_declare_queue queue_name);;
    let delayed_name := dq_name queue_name in
    modify (fun b => set_delay_queues ({[delayed_name]} ∪ delay_queues b) b);;
    emit (after_declare_delay_queue delayed_name).

Definition get_declared_queues : M (gset string) := gets queues.

(** [_RabbitmqConsumer.__init__]. *)
Definition _RabbitmqConsumer__init__ (c : conn) (queue_name : string)
    (prefetch timeout : Z) : M _RabbitmqConsumer :=
  try_except
    (ch <- perform (connection_channel c);;
     perform (channel_basic_qos ch prefetch);;
     perform (channel_basic_consume ch queue_name false);;
     ret {| consumer_channel := ch; consumer_timeout := timeout |})
    (fun e => if transport_error e then raise (ConnectionClosed e) else raise e).

Definition consume (queue_name : string) (prefetch timeout : Z) : M _RabbitmqConsumer :=
  try_except _declare_rabbitmq_queues
    (fun e =>
       if transport_error e then
         (if isinstance_AMQPConnectionError e then del_connection else del_channel);;
         raise (ConnectionClosed e)
       else raise e);;
  c <- connection;;
  _RabbitmqConsumer__init__ c queue_name prefetch timeout.

(** The body of the [try] in [enqueue]: one attempt. *)
Definition enqueue_attempt (message : Message.t) (queue_name : string)
    (properties : gmap string value) (delay : option Z) : M Message.t :=
  declared <- gets queues_declared;;
  (if (declared : bool) then ret tt
   else _declare_rabbitmq_queues;; modify (set_queues_declared true));;
  logger (log_debug "Enqueueing message on queue.");;
  emit (before_enqueue message delay);;
  ch <- channel;;
  perform (channel_basic_publish ch "" queue_name (Message.encode message) properties);;
  emit (after_enqueue message delay);;
  ret message.

(** The [except] clause of [enqueue], up to the count of attempts:
    what is thrown away after a failed attempt. *)
Definition enqueue_discard (e : exn) : M unit :=
  if isinstance_AMQPConnectionError e then del_connection else del_channel.

(** [while True: try: ... except ...] of [enqueue]; an exhausted [fuel]
    yields [None]. *)
Fixpoint enqueue_loop (fuel : nat) (attempts : Z) (message : Message.t)
    (queue_name : string) (properties : gmap string value) (delay : option Z)
    (b : RabbitmqBroker) : option (result Message.t * RabbitmqBroker) :=
  match fuel with
  | O => None
  | S fuel' =>
      match enqueue_attempt message queue_name properties delay b with
      | (Ok m, b1) => Some (Ok m, b1)
      | (Raise e, b1) =>
          if transport_error e then
            match enqueue_discard e b1 with
            | (Raise e', b2) => Some (Raise e', b2)
            | (Ok _, b2) =>
                let attempts := attempts + 1 in
                if attempts >? MAX_ENQUEUE_ATTEMPTS
                then Some (Raise (ConnectionClosed e), b2)
                else
                  match logger (log_debug "Retrying enqueue due to closed connection.") b2 with
                  | (_, b3) => enqueue_loop fuel' attempts message queue_name properties delay b3
                  end
            end
          else Some (Raise e, b1)
      end
  end.

(** What [enqueue] does before it enters its loop. *)
Definition enqueue_prepare (message : Message.t) (delay : option Z)
  : M (Message.t * string * gmap string value) :=
  let queue_name := Message.queue_name message in
  actor <- get_actor (Message.actor_name message);;
  let properties : gmap string value :=
    <["priority" := default (default VNone (actor_options actor !! "priority"))
                            (Message.options message !! "priority")]>
      {["delivery_mode" := VInt 2]} in
  match delay with
  | Some d =>
      let queue_name := dq_name queue_name in
      now <- perform current_millis;;
      let message_eta := now + d in
      ret (Message.copy message (Some queue_name) {["eta" := VInt message_eta]},
           queue_name, properties)
  | None => ret (message, queue_name, properties)
  end.

Definition enqueue (message : Message.t) (delay : option Z)
    (b : RabbitmqBroker) : option (result Message.t * RabbitmqBroker) :=
  match enqueue_prepare message delay b with
  | (Ok (message', queue_name, properties), b') =>
      enqueue_loop (Z.to_nat MAX_ENQUEUE_ATTEMPTS) 1 message' queue_name properties delay b'
  | (Raise e, b') => Some (Raise e, b')
  end.

Definition get_queue_message_counts (queue_name : string) : M (Z * Z * Z) :=
  queue_response <- _declare_queue queue_name;;
  dq_queue_response <- _declare_dq_queue queue_name;;
  xq_queue_response <- _declare_xq_queue queue_name;;
  ret (queue_response, dq_queue_response, xq_queue_response).

Definition flush (queue_name : string) : M unit :=
  for_each [queue_name; dq_name queue_name; xq_name queue_name] (fun name =>
    ch <- channel;;
    perform (channel_queue_purge ch name)).

Definition flush_all : M unit :=
  qs <- gets queues;;
  for_each (elements qs) flush.

(** One turn of the loop of [join]: the deadline is checked, the queues
    are sampled, the count of consecutive empty samples is brought up to
    date, and the thread sleeps. *)
Definition join_step (queue_name : string) (idle_time : Z) (deadline : option number)
    (successes : Z) : M Z :=
  (if truthy_num deadline then
     now <- perform time_monotonic;;
     match deadline with
     | Some d =>
         if float_ge_number now d then raise (QueueJoinTimeout queue_name) else ret tt
     | None => ret tt
     end
   else ret tt);;
  counts <- get_queue_message_counts queue_name;;
  let total_messages := counts.1.1 + counts.1.2 in
  let successes := if total_messages =? 0 then successes + 1 else 0 in
  seconds <- computed (div1000 idle_time);;
  perform (time_sleep seconds);;
  ret successes.

(** [while successes < min_successes: ...]; an exhausted [fuel] yields
    [None]. *)
Fixpoint join_loop (fuel : nat) (queue_name : string) (min_successes idle_time : Z)
    (deadline : option number) (successes : Z) (b : RabbitmqBroker)
  : option (result unit * RabbitmqBroker) :=
  if successes <? min_successes then
    match fuel with
    | O => None
    | S fuel' =>
        match join_step queue_name idle_time deadline successes b with
        | (Ok successes', b') =>
            join_loop fuel' queue_name min_successes idle_time deadline successes' b'
        | (Raise e, b') => Some (Raise e, b')
        end
    end
  else Some (Ok tt, b).

(** [deadline = timeout and time.monotonic() + timeout / 1000]: a
    [timeout] that is [None] or 0 is itself the deadline; otherwise the
    clock is read, then the timeout is divided, then the two are added. *)
Definition join_deadline (timeout : option Z) : M (option number) :=
  if truthy_int timeout then
    now <- perform time_monotonic;;
    seconds <- computed (div1000 (default 0 timeout));;
    ret (Some (Float (float_add now seconds)))
  else
    ret (Int <$> timeout).

Definition join (fuel : nat) (queue_name : string) (min_successes idle_time : Z)
    (timeout : option Z) (b : RabbitmqBroker) : option (result unit * RabbitmqBroker) :=
  match join_deadline timeout b with
  | (Ok deadline, b') => join_loop fuel queue_name min_successes idle_time deadline 0 b'
  | (Raise e, b') => Some (Raise e, b')
  end.

(** *** The consumer *)

(** [_RabbitmqMessage.ack] and [_RabbitmqMessage.nack]. *)
Definition _RabbitmqMessage_ack (self : _RabbitmqMessage) : M unit :=
  perform (message_ack (tag (_rabbitmq_message self))).

Definition _RabbitmqMessage_nack (self : _RabbitmqMessage) (requeue : bool) : M unit :=
  perform (message_nack (tag (_rabbitmq_message self)) requeue).

(** A consumed message seen as an object. *)
Definition as_object (m : _RabbitmqMessage) : py_object :=
  {| obj_ack := _RabbitmqMessage_ack m; obj_nack := _RabbitmqMessage_nack m |}.

Definition ack (self : _RabbitmqConsumer) (message : py_object) : M unit :=
  try_except (obj_ack message)
    (fun e =>
       if transport_error e then raise (ConnectionClosed e)
       else logger (log_warning "Failed to ack message.")).

Definition nack (self : _RabbitmqConsumer) (message : py_object) : M unit :=
  try_except (obj_nack message false)
    (fun e =>
       if transport_error e then raise (ConnectionClosed e)
       else logger (log_warning "Failed to nack message.")).

End Broker.

(** ** Reading a trace *)

(** The calls that only look after the connection and the channels. *)
Definition housekeeping (ev : event) : bool :=
  match ev with
  | Ev c _ =>
      match c with
      | UriConnection _ | connection_is_closed _ | connection_close _
      | connection_channel _ | channel_is_closed _ | channel_close _
      | channel_confirm_deliveries _ => true
      | _ => false
      end
  end.

Record queue_declaration : Type := {
  decl_queue : string;
  decl_durable : bool;
  decl_arguments : gmap string value;
}.

Record publication : Type := {
  pub_exchange : string;
  pub_routing_key : string;
  pub_body : wire;
  pub_properties : gmap string value;
}.

(** The queue a [queue.declare] asks for, answered or not. *)
Definition declaration_of (ev : event) : option queue_declaration :=
  match ev with
  | Ev c _ =>
      match c with
      | channel_queue_declare _ q d a =>
          Some {| decl_queue := q; decl_durable := d; decl_arguments := a |}
      | _ => None
      end
  end.

(** What a [basic.publish] hands over, accepted or not. *)
Definition publication_of (ev : event) : option publication :=
  match ev with
  | Ev c _ =>
      match c with
      | channel_basic_publish _ x k body p =>
          Some {| pub_exchange := x; pub_routing_key := k; pub_body := body;
                  pub_properties := p |}
      | _ => None
      end
  end.

(** The [message_count] a [queue.declare] was answered with. *)
Definition count_of (ev : event) : option Z :=
  match ev with
  | Ev c r =>
      match c in call T return result T -> option Z with
      | channel_queue_declare _ _ _ _ =>
          fun r => match r with Ok n => Some n | Raise _ => None end
      | _ => fun _ => None
      end r
  end.

(** What the monotonic clock read. *)
Definition reading_of (ev : event) : option float :=
  match ev with
  | Ev c r =>
      match c in call T return result T -> option float with
      | time_monotonic =>
          fun r => match r with Ok t => Some t | Raise _ => None end
      | _ => fun _ => None
      end r
  end.

(** How long a [time.sleep] was asked to last. *)
Definition sleep_of (ev : event) : option float :=
  match ev with
  | Ev c _ =>
      match c with
      | time_sleep s => Some s
      | _ => None
      end
  end.

Definition declarations (evs : list event) : list queue_declaration := omap declaration_of evs.
Definition publications (evs : list event) : list publication := omap publication_of evs.
Definition counts (evs : list event) : list Z := omap count_of evs.
Definition readings (evs : list event) : list float := omap reading_of evs.
Definition sleeps (evs : list event) : list float := omap sleep_of evs.

(** The samples of [join] in a list of message counts: the counts come in
    threes, main queue, delay queue, dead-letter queue, and a sample is the
    sum of the first two. *)
Fixpoint samples (ns : list Z) : list Z :=
  match ns with
  | a :: b :: _ :: ns' => (a + b) :: samples ns'
  | _ => []
  end.

(** ** The priority of a publication, in the words of the specification *)

(** The message's own priority option if present, otherwise the actor's,
    otherwise [None]. *)
Definition published_priority (message : Message.t) (actor : Actor) : value :=
  match Message.options message !! "priority" with
  | Some v => v
  | None =>
      match actor_options actor !! "priority" with
      | Some v => v
      | None => VNone
      end
  end.

(** [delivery_mode] 2, persistent, and the priority. *)
Definition publish_properties (message : Message.t) (actor : Actor) : gmap string value :=
  <["priority" := published_priority message actor]> {["delivery_mode" := VInt 2]}.

(** ** The topology of a queue, in the words of the specification *)

(** A [max_priority] the constructor accepts. *)
Definition valid_max_priority (mp : option Z) : Prop :=
  match mp with
  | Some p => 0 < p <= 255
  | None => True
  end.

(** The arguments of a main or delay queue: rejected messages are routed
    through the default exchange to the dead-letter queue, and
    [x-max-priority] is there exactly when [max_priority] is set. *)
Definition queue_arguments (mp : option Z) (dead_letter_queue : string) : gmap string value :=
  let arguments : gmap string value :=
    <["x-dead-letter-routing-key" := VStr dead_letter_queue]>
      {["x-dead-letter-exchange" := VStr ""]} in
  match mp with
  | Some p => <["x-max-priority" := VInt p]> arguments
  | None => arguments
  end.

(** The three durable queues of a queue name. *)
Definition topology (dq_name xq_name : string -> string) (mp : option Z)
    (queue_name : string) : list queue_declaration :=
  [ {| decl_queue := queue_name; decl_durable := true;
       decl_arguments := queue_arguments mp (xq_name queue_name) |};
    {| decl_queue := dq_name queue_name; decl_durable := true;
       decl_arguments := queue_arguments mp (xq_name queue_name) |};
    {| decl_queue := xq_name queue_name; decl_durable := true;
       decl_arguments := {["x-message-ttl" := VInt 604800000]} |} ].

(** ** What a run leaves alone *)

(** What a method leaves alone.  Between [b] and [b'] the configuration
    of the broker, its recorded queues and its actors are the same, and
    the trace has grown by events that all satisfy [P]. *)
Record frame (P : event -> Prop) (b b' : RabbitmqBroker) : Prop := {
  frame_url : url b' = url b;
  frame_confirm_delivery : confirm_delivery b' = confirm_delivery b;
  frame_max_priority : max_priority b' = max_priority b;
  frame_queues : queues b' = queues b;
  frame_actors : actors b' = actors b;
  frame_delay_queues : delay_queues b' = delay_queues b;
  frame_queues_declared : queues_declared b = true -> queues_declared b' = true;
  frame_trace : exists evs, trace b' = trace b ++ evs /\ Forall P evs;
}.

(** A method all of whose runs are related by [R]. *)
Definition respects {A : Type} (R : relation RabbitmqBroker) (m : M A) : Prop :=
  forall b, R b (m b).2.

(** A method all of whose runs are framed by [P]. *)
Definition framed {A : Type} (P : event -> Prop) (m : M A) : Prop :=
  respects (frame P) m.

(** The flag [queues_declared] is as it was. *)
Definition same_flag (b b' : RabbitmqBroker) : Prop :=
  queues_declared b' = queues_declared b.

Section Observations.

Variable respond : oracle.
Variable dq_name : string -> string.
Variable xq_name : string -> string.

Definition declare_event (d : queue_declaration) (ev : event) : Prop :=
  housekeeping ev \/ declaration_of ev = Some d.


(** The channel is fetched and one [queue.declare] is sent on it. *)
Definition declare_as (d : queue_declaration) : M Z :=
  ch <- channel respond;;
  perform respond (channel_queue_declare ch (decl_queue d) (decl_durable d)
                     (decl_arguments d)).

(** The events of declaring the topology of one queue. *)
Definition topology_event (mp : option Z) (queue_name : string) (ev : event) : Prop :=
  housekeeping ev \/
  exists d, d ∈ topology dq_name xq_name mp queue_name /\ declaration_of ev = Some d.

(** The events of declaring the topologies of several queues. *)
Definition topologies_event (mp : option Z) (qs : list string) (ev : event) : Prop :=
  housekeeping ev \/
  exists q d, q ∈ qs /\ d ∈ topology dq_name xq_name mp q /\ declaration_of ev = Some d.

(** What [enqueue] hands to [basic.publish]: the default exchange, the
    queue as routing key, the encoded message and the properties. *)
Definition enqueue_publication (message : Message.t) (queue_name : string)
    (properties : gmap string value) : publication :=
  {| pub_exchange := ""; pub_routing_key := queue_name;
     pub_body := Message.encode message; pub_properties := properties |}.

(** The queue a message is published to. *)
Definition routing_key (message : Message.t) (delay : option Z) : string :=
  match delay with
  | Some _ => dq_name (Message.queue_name message)
  | None => Message.queue_name message
  end.

(** The events of publishing. *)
Definition publish_event (p : publication) (ev : event) : Prop :=
  housekeeping ev \/ publication_of ev = Some p.

(** The end of an attempt, once the queues are declared: the hooks
    around the one [basic.publish]. *)
Definition publish_step (message : Message.t) (queue_name : string)
    (properties : gmap string value) (delay : option Z) : M Message.t :=
  logger (log_debug "Enqueueing message on queue.");;
  emit (before_enqueue message delay);;
  ch <- channel respond;;
  perform respond
    (channel_basic_publish ch "" queue_name (Message.encode message) properties);;
  emit (after_enqueue message delay);;
  ret message.

(** The events of an attempt to enqueue. *)
Definition enqueue_event (mp : option Z) (qs : list string) (p : publication)
    (ev : event) : Prop :=
  topologies_event mp qs ev \/ publication_of ev = Some p.

(** The broker once a retry has been logged. *)
Definition retry_logged (b : RabbitmqBroker) : RabbitmqBroker :=
  set_logged (logged b ++ [log_debug "Retrying enqueue due to closed connection."]) b.

(** An attempt that fails with a connection-level or channel-level
    error, after which the discarding completes: the error and the
    broker it leaves. *)
Definition failed_attempt (message : Message.t) (queue_name : string)
    (properties : gmap string value) (delay : option Z) (b : RabbitmqBroker)
  : option (exn * RabbitmqBroker) :=
  match enqueue_attempt respond dq_name xq_name message queue_name properties delay b with
  | (Raise e, b1) =>
      if transport_error e then
        match enqueue_discard respond e b1 with
        | (Ok _, b2) => Some (e, b2)
        | (Raise _, _) => None
        end
      else None
  | (Ok _, _) => None
  end.

(** [n] attempts in a row, starting on [b], that each fail that way, a
    retry being logged between two of them: the error of the last and the
    broker it leaves; [None] if one of them does not fail that way. *)
Fixpoint failures (message : Message.t) (queue_name : string)
    (properties : gmap string value) (delay : option Z) (n : nat) (b : RabbitmqBroker)
  : option (exn * RabbitmqBroker) :=
  match n with
  | O => None
  | S n' =>
      match failed_attempt message queue_name properties delay b with
      | Some (e, b1) =>
          match n' with
          | O => Some (e, b1)
          | S _ => failures message queue_name properties delay n' (retry_logged b1)
          end
      | None => None
      end
  end.

(** The check of the deadline at the head of a turn of [join]. *)
Definition check_deadline (queue_name : string) (deadline : option number) : M unit :=
  if truthy_num deadline then
    now <- perform respond time_monotonic;;
    match deadline with
    | Some d =>
        if float_ge_number now d then raise (QueueJoinTimeout queue_name) else ret tt
    | None => ret tt
    end
  else ret tt.

(** The events of a turn of [join]. *)
Definition join_event (mp : option Z) (queue_name : string) (ev : event) : Prop :=
  topology_event mp queue_name ev \/
  (exists r, ev = Ev time_monotonic r) \/
  (exists s r, ev = Ev (time_sleep s) r).

(** A library that answers every call. *)
Definition cooperative : Prop :=
  forall (T : Type) (h : list event) (c : call T), exists a, respond T h c = Ok a.

End Observations.

(** What the samples of a [join] that returned look like, [successes]
    being the count it started from: nothing was sampled if the count was
    already reached; otherwise the samples end after exactly as many zeros
    in a row as were still missing, or, if some sample was not zero, after
    [min_successes] zeros that follow the last such sample. *)
Definition settled (successes min_successes : Z) (zs : list Z) : Prop :=
  (min_successes <= successes /\ zs = []) \/
  (successes < min_successes /\
   exists pre k,
     zs = pre ++ replicate k 0 /\
     ((pre = [] /\ successes + Z.of_nat k = min_successes) \/
      ((exists pre' z, pre = pre' ++ [z] /\ z <> 0) /\ Z.of_nat k = min_successes))).

(** A method none of whose runs raises. *)
Definition never_raises {A : Type} (m : M A) : Prop :=
  forall b, exists a, (m b).1 = Ok a.

(** ** Worked environments *)

(** Modelled from the spec: the queue naming convention of section 6,
    "delay queue name = <queue>.DQ; dead-letter queue name = <queue>.XQ". *)
Definition spec_dq_name (queue_name : string) : string := queue_name +:+ ".DQ".
Definition spec_xq_name (queue_name : string) : string := queue_name +:+ ".XQ".

(** Whether an event closes the connection [c], or the channel [ch]. *)
Definition closes_connection (c : conn) (ev : event) : bool :=
  match ev with
  | Ev call _ =>
      match call with
      | connection_close c' => Nat.eqb c c'
      | _ => false
      end
  end.

Definition closes_channel (ch : chan) (ev : event) : bool :=
  match ev with
  | Ev call _ =>
      match call with
      | channel_close ch' => Nat.eqb ch ch'
      | _ => false
      end
  end.

(** The connection a channel was opened on: handles are positions in the
    history, so the event at the position of a channel is its opening. *)
Definition connection_of (h : list event) (ch : chan) : option conn :=
  match h !! ch with
  | Some (Ev call _) =>
      match call with
      | connection_channel c => Some c
      | _ => None
      end
  | None => None
  end.

(** A library in the manner of amqpstorm: a handle is fresh, a connection
    is closed once it has been closed, a channel is closed once it or its
    connection has been closed.  What publishing and declaring answer, and
    what the monotonic clock reads, is left to the three arguments. *)
Definition amqp_like (publish : list event -> result unit)
    (declare : list event -> result Z) (clock : list event -> float) : oracle :=
  fun T h c =>
    match c in call T return result T with
    | UriConnection _ => Ok (length h)
    | connection_is_closed c => Ok (existsb (closes_connection c) h)
    | connection_close _ => Ok tt
    | connection_channel _ => Ok (length h)
    | channel_is_closed ch =>
        Ok (existsb (closes_channel ch) h
            || match connection_of h ch with
               | Some c => existsb (closes_connection c) h
               | None => false
               end)
    | channel_close _ => Ok tt
    | channel_confirm_deliveries _ => Ok tt
    | channel_queue_declare _ _ _ _ => declare h
    | channel_queue_purge _ _ => Ok tt
    | channel_basic_publish _ _ _ _ _ => publish h
    | channel_basic_qos _ _ => Ok tt
    | channel_basic_consume _ _ _ => Ok tt
    | message_ack _ => Ok tt
    | message_nack _ _ => Ok tt
    | time_monotonic => Ok (clock h)
    | time_sleep _ => Ok tt
    | current_millis => Ok 1000
    end.

(** A clock that advances by one second with every call made. *)
Definition ticking (h : list event) : float := float_of_int (Z.of_nat (length h)).

(** Every call is answered; the queues are empty. *)
Definition calm : oracle := amqp_like (fun _ => Ok tt) (fun _ => Ok 0) ticking.

(** Every publish fails with a connection-level error. *)
Definition publish_refused : oracle :=
  amqp_like (fun _ => Raise AMQPConnectionError) (fun _ => Ok 0) ticking.

(** Every publish fails with a channel-level error. *)
Definition publish_rejected : oracle :=
  amqp_like (fun _ => Raise AMQPChannelError) (fun _ => Ok 0) ticking.

(** The queues hold a message each while the first sample is taken and
    are empty from then on. *)
Definition draining : oracle :=
  amqp_like (fun _ => Ok tt)
    (fun h => Ok (if (length (declarations h) <? 3)%nat then 1 else 0)) ticking.

(** The queues never empty. *)
Definition busy : oracle := amqp_like (fun _ => Ok tt) (fun _ => Ok 1) ticking.

(** A broker built with [max_priority=10]. *)
Definition example_new : RabbitmqBroker :=
  {| url := ""; confirm_delivery := false; max_priority := Some 10;
     _connection := None; queues := ∅; state_channel := None;
     queues_declared := false; actors := ∅; delay_queues := ∅;
     trace := []; emitted := []; logged := [] |}.

Definition example_actor : Actor :=
  {| actor_actor_name := "add"; actor_queue_name := "default";
     actor_options := {["priority" := VInt 5]} |}.

(** The broker once the actor is registered and its queue declared. *)
Definition example_broker : RabbitmqBroker :=
  (declare_queue spec_dq_name "default" (register_actor example_actor example_new)).2.

Definition example_message : Message.t :=
  Message.Message "default" "add" [VInt 1; VInt 2] ∅ {["max_retries" := VInt 3]} "id-1".

(** An object that answers [ack] and [nack] without complaint, as a mock,
    and an object that has neither method. *)
Definition mock_object : py_object :=
  {| obj_ack := ret tt; obj_nack := fun _ => ret tt |}.

Definition bare_object : py_object :=
  {| obj_ack := raise AttributeError; obj_nack := fun _ => raise AttributeError |}.

Definition example_consumer : _RabbitmqConsumer :=
  {| consumer_channel := 0%nat; consumer_timeout := 5000 |}.

#[local] Set Warnings "-clear-no-such-hyp".

(** ** More readings of a trace *)

(** The URL a connection was asked for. *)
Definition opening_of (ev : event) : option string :=
  match ev with
  | Ev c _ =>
      match c with
      | UriConnection u => Some u
      | _ => None
      end
  end.

(** The channel put in confirm mode. *)
Definition confirmation_of (ev : event) : option chan :=
  match ev with
  | Ev c _ =>
      match c with
      | channel_confirm_deliveries ch => Some ch
      | _ => None
      end
  end.

(** The queue a [queue.purge] empties. *)
Definition purge_of (ev : event) : option string :=
  match ev with
  | Ev c _ =>
      match c with
      | channel_queue_purge _ q => Some q
      | _ => None
      end
  end.

(** The channel a [basic.publish] went through. *)
Definition publishing_channel_of (ev : event) : option chan :=
  match ev with
  | Ev c _ =>
      match c with
      | channel_basic_publish ch _ _ _ _ => Some ch
      | _ => None
      end
  end.


(** What a call raised, if it raised. *)
Definition raised_of (ev : event) : option exn :=
  match ev with
  | Ev _ (Raise e) => Some e
  | Ev _ (Ok _) => None
  end.

(** Whether the event is a reading of the wall clock. *)
Definition reads_millis (ev : event) : bool :=
  match ev with
  | Ev c _ =>
      match c with
      | current_millis => true
      | _ => false
      end
  end.

Definition openings (evs : list event) : list string := omap opening_of evs.
Definition confirmations (evs : list event) : list chan := omap confirmation_of evs.
Definition purges (evs : list event) : list string := omap purge_of evs.

(** What the last call of a trace raised. *)
Definition last_raised (evs : list event) : option exn := last evs ≫= raised_of.

(** Between [b] and [b'] no hook was emitted and nothing was published. *)
Definition silent (b b' : RabbitmqBroker) : Prop :=
  emitted b' = emitted b /\ publications (trace b') = publications (trace b).

(** What an attempt adds: the hooks and the publications of [j] tries to
    publish, [j] being 0 or 1, and [after_enqueue] if it returns. *)
Definition attempted (message : Message.t) (delay : option Z) (j : nat)
    (r : result Message.t) (b b' : RabbitmqBroker) : Prop :=
  emitted b' = emitted b ++ replicate j (before_enqueue message delay)
               ++ match r with Ok m => [after_enqueue m delay] | Raise _ => [] end /\
  (exists ps, publications (trace b') = publications (trace b) ++ ps /\
              (length ps <= j)%nat) /\
  (forall m, r = Ok m -> m = message /\ (1 <= j)%nat).

(** A method whose calls all satisfy [P], and which raises nothing of its
    own: what it raises is what its last call raised. *)
Definition observed {A : Type} (P : event -> Prop) (m : M A) : Prop :=
  forall b, exists evs,
    trace (m b).2 = trace b ++ evs /\
    Forall P evs /\
    forall e, (m b).1 = Raise e -> last_raised evs = Some e.

(** The queues [flush] empties, in the order in which it does. *)
Definition flushed (dq_name xq_name : string -> string) (queue_name : string) : list string :=
  [queue_name; dq_name queue_name; xq_name queue_name].

(** A method that makes the calls [expected], read through [f], in that
    order, stopping at the first that fails; its other calls all satisfy
    [P], and what it raises is what its last call raised. *)
Definition yields {B : Type} (f : event -> option B) (P : event -> Prop)
    (expected : list B) (m : M unit) : Prop :=
  forall b, exists evs,
    trace (m b).2 = trace b ++ evs /\
    Forall P evs /\
    omap f evs `prefix_of` expected /\
    ((m b).1 = Ok tt -> omap f evs = expected) /\
    (forall e, (m b).1 = Raise e -> last_raised evs = Some e).

(** An event that neither declares a queue nor publishes. *)
Definition harmless (ev : event) : Prop :=
  declaration_of ev = None /\ publication_of ev = None.

(** ** The consumer at work *)

(** What a consumer asks for while it waits: the calls of the library and
    of the clock, and the next inbound message of its channel,
    [next(channel.build_inbound_messages(...))], which answers [None] when
    the generator is exhausted at once ([StopIteration]). *)
Inductive consumer_call : Type -> Type :=
| library {T : Type} (c : call T) : consumer_call T
| channel_build_inbound_messages (ch : chan) (auto_decode break_on_empty : bool)
  : consumer_call (option amqp_message).

Inductive consumer_event : Type :=
| CEv {T : Type} (c : consumer_call T) (r : result T).

Definition consumer_oracle : Type :=
  forall T : Type, list consumer_event -> consumer_call T -> result T.

(** [except (AMQPConnectionError, AMQPChannelError) as e: raise
    ConnectionClosed(e) from None]: what the caller sees of [e]. *)
Definition closed_or_raised (e : exn) : exn :=
  if transport_error e then ConnectionClosed e else e.

Section Consumer.

Variable respond : consumer_oracle.

(** A call of the consumer is answered and recorded. *)
Definition ask {T : Type} (c : consumer_call T) (h : list consumer_event)
  : result T * list consumer_event :=
  let r := respond T h c in (r, h ++ [CEv c r]).

(** [while message is None and time.monotonic() < deadline: ...] of
    [__next__]: the clock is read at the head of every turn; a turn that
    finds no message sleeps [0.1] seconds; a message ends the loop
    without another look at the clock.  An exhausted [fuel] yields
    [None]. *)
Fixpoint next_loop (fuel : nat) (self : _RabbitmqConsumer) (deadline : float)
    (h : list consumer_event)
  : option (result (option amqp_message) * list consumer_event) :=
  match fuel with
  | O => None
  | S fuel' =>
      match ask (library time_monotonic) h with
      | (Raise e, h1) => Some (Raise e, h1)
      | (Ok now, h1) =>
          if float_lt now deadline then
            match ask (channel_build_inbound_messages (consumer_channel self) false true) h1
            with
            | (Raise e, h2) => Some (Raise e, h2)
            | (Ok (Some message), h2) => Some (Ok (Some message), h2)
            | (Ok None, h2) =>
                match ask (library (time_sleep tenth)) h2 with
                | (Raise e, h3) => Some (Raise e, h3)
                | (Ok _, h3) => next_loop fuel' self deadline h3
                end
            end
          else Some (Ok None, h1)
      end
  end.

(** [_RabbitmqConsumer.__next__].  The deadline is the reading of the
    clock plus [self.timeout / 1000], the quotient being computed after
    the clock was read.  A delivered message is an object, and true as
    such: [_RabbitmqMessage(message) if message else None] wraps every
    message the loop found. *)
Definition __next__ (fuel : nat) (self : _RabbitmqConsumer) (h : list consumer_event)
  : option (result (option _RabbitmqMessage) * list consumer_event) :=
  match ask (library time_monotonic) h with
  | (Raise e, h0) => Some (Raise (closed_or_raised e), h0)
  | (Ok now, h0) =>
      match div1000 (consumer_timeout self) with
      | Raise e => Some (Raise (closed_or_raised e), h0)
      | Ok seconds =>
          let deadline := float_add now seconds in
          match next_loop fuel self deadline h0 with
          | None => None
          | Some (Raise e, h1) => Some (Raise (closed_or_raised e), h1)
          | Some (Ok None, h1) => Some (Ok None, h1)
          | Some (Ok (Some message), h1) =>
              match _RabbitmqMessage__init__ message with
              | Ok proxy => Some (Ok (Some proxy), h1)
              | Raise e => Some (Raise (closed_or_raised e), h1)
              end
          end
      end
  end.

(** [_RabbitmqConsumer.close]. *)
Definition consumer_close (self : _RabbitmqConsumer) (h : list consumer_event)
  : result unit * list consumer_event :=
  match ask (library (channel_close (consumer_channel self))) h with
  | (Raise e, h1) => (Raise (closed_or_raised e), h1)
  | (Ok _, h1) => (Ok tt, h1)
  end.

(** [_RabbitmqConsumer.requeue]: RabbitMQ re-enqueues unacked messages
    itself, so this does nothing. *)
Definition requeue (self : _RabbitmqConsumer) (messages : list _RabbitmqMessage)
    (h : list consumer_event) : result unit * list consumer_event :=
  (Ok tt, h).

End Consumer.

(** A turn of [__next__] that finds no message: the clock read [t], the
    channel had nothing, the thread slept. *)
Definition idle_turn (self : _RabbitmqConsumer) (t : float) : list consumer_event :=
  [CEv (library time_monotonic) (Ok t);
   CEv (channel_build_inbound_messages (consumer_channel self) false true) (Ok None);
   CEv (library (time_sleep tenth)) (Ok tt)].

(** What the last call of a consumer raised. *)
Definition consumer_raised_of (ev : consumer_event) : option exn :=
  match ev with
  | CEv _ (Raise e) => Some e
  | CEv _ (Ok _) => None
  end.

(** The message the event delivered. *)
Definition delivery_of (ev : consumer_event) : option amqp_message :=
  match ev with
  | CEv c r =>
      match c in consumer_call T return result T -> option amqp_message with
      | channel_build_inbound_messages _ _ _ =>
          fun r => match r with Ok (Some m) => Some m | _ => None end
      | _ => fun _ => None
      end r
  end.

(** Whether the event asks the channel for a message. *)
Definition polls (ev : consumer_event) : bool :=
  match ev with
  | CEv c _ =>
      match c with
      | channel_build_inbound_messages _ _ _ => true
      | _ => false
      end
  end.

(** ** More worked environments *)

(** The server cannot be reached: opening a connection fails. *)
Definition unreachable : oracle :=
  fun T h c =>
    match c in call T return result T with
    | UriConnection _ => Raise AMQPConnectionError
    | c' => calm _ h c'
    end.

(** Every declaration fails with a channel-level error. *)
Definition declare_rejected : oracle :=
  amqp_like (fun _ => Ok tt) (fun _ => Raise AMQPChannelError) ticking.

(** A channel that holds one message, delivered at the second look; the
    clock reads the number of calls made so far, divided by 100. *)
Definition second_look (m : amqp_message) : consumer_oracle :=
  fun T h c =>
    match c in consumer_call T return result T with
    | library c' =>
        match c' in call T return result T with
        | time_monotonic => truediv (Z.of_nat (length h)) 100
        | c'' => calm _ [] c''
        end
    | channel_build_inbound_messages _ _ _ =>
        Ok (if existsb polls h then Some m else None)
    end.

(** The delivery of the encoded example message. *)
Definition example_delivery : amqp_message :=
  {| body := Message.encode example_message; tag := 7%nat |}.

(** The example broker once the example message has gone out. *)
Definition example_sent : RabbitmqBroker :=
  match enqueue calm spec_dq_name spec_xq_name example_message None example_broker with
  | Some (_, b') => b'
  | None => example_broker
  end.


(** The queues never empty and the clock stands at one second. *)
Definition busy_at_one : oracle :=
  amqp_like (fun _ => Ok tt) (fun _ => Ok 1) (fun _ => float_of_int 1).

(** The float [0.3], the one nearest to three tenths. *)
Definition three_tenths : float := S754_finite false 5404319552844595 (-54).

(** The queues never empty; the clock reads [0.0] the first time it is
    asked and [0.3] from then on. *)
Definition busy_three_tenths_later : oracle :=
  amqp_like (fun _ => Ok tt) (fun _ => Ok 1)
    (fun h => match readings h with [] => S754_zero false | _ => three_tenths end).

(** A channel that holds one message; the clock reads [0.0] the first
    time it is asked and [0.3] from then on. *)
Definition waiting_three_tenths_later (m : amqp_message) : consumer_oracle :=
  fun T h c =>
    match c in consumer_call T return result T with
    | library c' =>
        match c' in call T return result T with
        | time_monotonic => Ok (match h with [] => S754_zero false | _ => three_tenths end)
        | c'' => calm _ [] c''
        end
    | channel_build_inbound_messages _ _ _ => Ok (Some m)
    end.

(** A message that asks for priority 9, for the example actor, whose own
    priority is 5. *)
Definition urgent_message : Message.t :=
  Message.Message "default" "add" [VInt 1; VInt 2] ∅ {["priority" := VInt 9]} "id-2".

(** ** Recording queues *)

(** The names of a list that are not in [known], each where it first
    occurs. *)
Fixpoint first_declared (known : gset string) (qs : list string) : list string :=
  match qs with
  | [] => []
  | q :: qs' =>
      if decide (q ∈ known) then first_declared known qs'
      else q :: first_declared ({[q]} ∪ known) qs'
  end.

(** The hooks [declare_queue] emits for a name that is new. *)
Definition declare_hooks (dq_name : string -> string) (queue_name : string) : list hook :=
  [before_declare_queue queue_name; after_declare_queue queue_name;
   after_declare_delay_queue (dq_name queue_name)].

(** * Properties *)

(** ** The wire form *)

Lemma dumps_dict (d : gmap string value) :
  dumps (VDict d) = TDict (size d) :: dump_entries (map_to_list d).
Proof.
  cbn [dumps]. f_equal. rewrite map_fold_foldr. unfold dump_entries.
  induction (map_to_list d) as [|[k v] es IH]; [done|]. cbn. by rewrite IH.
Qed.

Lemma loads_seq_encodes (p : wire -> option (value * wire)) (l : list value) (ws : list wire) (rest : wire) :
  Forall2 (fun v w => forall r, p (w ++ r) = Some (v, r)) l ws ->
  loads_seq p (length l) (concat ws ++ rest) = Some (l, rest).
Proof.
  induction 1 as [|v w l ws Hp _ IH]; [done|].
  cbn. rewrite <-(assoc_L (++)), Hp, IH. done.
Qed.

Lemma loads_entries_encodes (p : wire -> option (value * wire))
    (es : list (string * value)) (ws : list wire) (rest : wire) :
  Forall2 (fun v w => forall r, p (w ++ r) = Some (v, r)) es.*2 ws ->
  loads_entries p (length es)
    (concat (zip_with (fun k w => TStr k :: w) es.*1 ws) ++ rest) = Some (es, rest).
Proof.
  revert ws. induction es as [|[k v] es IH]; intros ws Hall.
  - by inversion Hall.
  - inversion Hall as [|? w ? ws' Hp Hall']; subst. cbn.
    rewrite <-(assoc_L (++)), Hp, IH by done. done.
Qed.

Lemma Forall2_encodes_length (P : value -> wire -> Prop) (n : nat) (l : list value) (ws : list wire) :
  Forall2 encodes l ws ->
  (length (concat ws) <= n)%nat ->
  (forall v w, encodes v w -> (length w <= n)%nat -> P v w) ->
  Forall2 P l ws.
Proof.
  intros Hall. revert n. induction Hall as [|v w l ws Hv _ IH]; intros n Hn HP; [constructor|].
  cbn in Hn. rewrite length_app in Hn. constructor.
  - apply HP; [done|lia].
  - apply (IH n); [lia|done].
Qed.

Lemma length_concat_zip_keys (ks : list string) (ws : list wire) :
  (length (concat ws) <= length (concat (zip_with (fun k w => TStr k :: w) ks ws)))%nat \/ (length ks < length ws)%nat.
Proof.
  revert ws. induction ks as [|k ks IH]; intros [|w ws]; cbn; try lia.
  rewrite !length_app. destruct (IH ws); lia.
Qed.

(** Reading back what encodes a value gives the value and leaves the
    rest of the body untouched. *)
Lemma loads_value_encodes (fuel : nat) :
  forall v w rest, encodes v w -> (length w <= fuel)%nat ->
    loads_value fuel (w ++ rest) = Some (v, rest).
Proof.
  induction fuel as [|fuel IH]; intros v w rest Henc Hlen.
  - destruct Henc; cbn in Hlen; lia.
  - destruct Henc as [| | | |l ws Hall|d es ws Hperm Hall]; cbn in *; try done.
    + rewrite (loads_seq_encodes _ l ws); [done|].
      apply (Forall2_encodes_length _ fuel); [done|lia|].
      intros v w Hv Hw r. by apply IH.
    + rewrite (loads_entries_encodes _ es ws).
      * do 3 f_equal. symmetry. by apply list_to_map_flip.
      * apply (Forall2_encodes_length _ fuel); [done| |].
        -- pose proof (Forall2_length _ _ _ Hall) as Hl. rewrite length_fmap in Hl.
           destruct (length_concat_zip_keys es.*1 ws) as [?|Hlt]; [lia|].
           rewrite length_fmap in Hlt. lia.
        -- intros v w Hv Hw r. by apply IH.
Qed.

Lemma dumps_list (l : list value) :
  dumps (VList l) = TList (length l) :: concat (dumps <$> l).
Proof.
  cbn [dumps]. f_equal. induction l as [|x l IH]; [done|]. cbn. by rewrite IH.
Qed.

Lemma dump_entries_concat (es : list (string * value)) :
  dump_entries es = concat (zip_with (fun k w => TStr k :: w) es.*1 (dumps <$> es.*2)).
Proof.
  unfold dump_entries. induction es as [|[k v] es IH]; [done|]. cbn. by rewrite IH.
Qed.

Lemma Forall2_encodes_dumps (n : nat) (l : list value) :
  (forall v, (length (dumps v) <= n)%nat -> encodes v (dumps v)) ->
  (length (concat (dumps <$> l)) <= n)%nat ->
  Forall2 encodes l (dumps <$> l).
Proof.
  intros IH. induction l as [|x l IHl]; intros Hlen; cbn in *; [constructor|].
  rewrite length_app in Hlen. constructor; [apply IH; lia|apply IHl; lia].
Qed.

Lemma encodes_dumps_bounded (n : nat) :
  forall v, (length (dumps v) <= n)%nat -> encodes v (dumps v).
Proof.
  induction n as [|n IH]; intros v Hlen.
  - destruct v; cbn in Hlen; lia.
  - destruct v as [| | | |l|d]; try constructor.
    + rewrite dumps_list in *. constructor. cbn in Hlen.
      apply (Forall2_encodes_dumps n); [done|lia].
    + rewrite dumps_dict in *. rewrite dump_entries_concat in *.
      rewrite <-length_map_to_list. constructor; [done|].
      cbn in Hlen. apply (Forall2_encodes_dumps n); [done|].
      destruct (length_concat_zip_keys (map_to_list d).*1 (dumps <$> (map_to_list d).*2)) as [?|Hlt];
        [lia|]. rewrite !length_fmap in Hlt. lia.
Qed.

(** The encoder writes an encoding. *)
Lemma encodes_dumps (v : value) : encodes v (dumps v).
Proof. by apply (encodes_dumps_bounded (length (dumps v))). Qed.

Lemma loads_encodes (v : value) (w : wire) : encodes v w -> loads w = Some v.
Proof.
  intros Henc. unfold loads.
  rewrite <-(app_nil_r w) at 2. by rewrite (loads_value_encodes _ v w []).
Qed.

Lemma asdict_size (m : Message.t) : size (Message.asdict m) = 6%nat.
Proof.
  unfold Message.asdict.
  rewrite !map_size_insert_None; [by rewrite map_size_empty|..]; by simplify_map_eq.
Qed.

Lemma asdict_lookup (m : Message.t) :
  Message.asdict m !! "queue_name" = Some (VStr (Message.queue_name m)) /\
  Message.asdict m !! "actor_name" = Some (VStr (Message.actor_name m)) /\
  Message.asdict m !! "args" = Some (VList (Message.args m)) /\
  Message.asdict m !! "kwargs" = Some (VDict (Message.kwargs m)) /\
  Message.asdict m !! "options" = Some (VDict (Message.options m)) /\
  Message.asdict m !! "message_id" = Some (VStr (Message.message_id m)).
Proof. unfold Message.asdict. repeat split; by simplify_map_eq. Qed.

Lemma decode_encodes (m : Message.t) (w : wire) :
  encodes (VDict (Message.asdict m)) w -> Message.decode w = Some m.
Proof.
  intros Henc. unfold Message.decode. rewrite (loads_encodes _ _ Henc).
  destruct (asdict_lookup m) as (-> & -> & -> & -> & -> & ->).
  rewrite decide_True by apply asdict_size. by destruct m.
Qed.

Lemma decode_encode (m : Message.t) : Message.decode (Message.encode m) = Some m.
Proof. apply decode_encodes, encodes_dumps. Qed.

(** ** Runs of methods *)

Lemma bind_inv {A B : Type} (m : M A) (k : A -> M B) b r b' :
  bind m k b = (r, b') ->
  (exists a b1, m b = (Ok a, b1) /\ k a b1 = (r, b')) \/
  (exists e, m b = (Raise e, b') /\ r = Raise e).
Proof.
  unfold bind. destruct (m b) as [[a|e] b1]; intros H.
  - left. eauto.
  - right. inversion H; subst. eauto.
Qed.

Lemma bind_ok {A B : Type} (m : M A) (k : A -> M B) b a b1 :
  m b = (Ok a, b1) -> bind m k b = k a b1.
Proof. unfold bind. by intros ->. Qed.

Lemma bind_raise {A B : Type} (m : M A) (k : A -> M B) b e b1 :
  m b = (Raise e, b1) -> bind m k b = (Raise e, b1).
Proof. unfold bind. by intros ->. Qed.

Lemma frame_refl P b : frame P b b.
Proof. split; try done. exists []. by rewrite app_nil_r. Qed.

Lemma frame_trans P b1 b2 b3 : frame P b1 b2 -> frame P b2 b3 -> frame P b1 b3.
Proof.
  intros [? ? ? ? ? ? ? (e1 & He1 & H1)] [? ? ? ? ? ? ? (e2 & He2 & H2)].
  split; try congruence; [auto|].
  exists (e1 ++ e2). split; [by rewrite He2, He1, (assoc_L (++))|by apply Forall_app].
Qed.

#[local] Instance frame_preorder P : PreOrder (frame P).
Proof. split; [intros b; apply frame_refl|intros b1 b2 b3; apply frame_trans]. Qed.

#[local] Instance same_flag_preorder : PreOrder same_flag.
Proof. split; [done|]. unfold same_flag. intros b1 b2 b3. congruence. Qed.

Lemma frame_weaken (P P' : event -> Prop) b b' :
  (forall ev, P ev -> P' ev) -> frame P b b' -> frame P' b b'.
Proof.
  intros HP [? ? ? ? ? ? ? (evs & He & H)]. split; try done.
  exists evs. split; [done|]. by eapply Forall_impl.
Qed.

Lemma framed_weaken {A : Type} (P P' : event -> Prop) (m : M A) :
  (forall ev, P ev -> P' ev) -> framed P m -> framed P' m.
Proof. intros HP Hm b. eapply frame_weaken; [exact HP|apply Hm]. Qed.

(** How [respects] follows the structure of a method, for a relation
    that is reflexive and transitive. *)
Section Respects.

Context (R : relation RabbitmqBroker) `{!PreOrder R}.

Lemma respects_ret {A : Type} (a : A) : respects R (ret a).
Proof. intros b. reflexivity. Qed.

Lemma respects_raise {A : Type} (e : exn) : respects R (@raise A e).
Proof. intros b. reflexivity. Qed.

Lemma respects_gets {A : Type} (f : RabbitmqBroker -> A) : respects R (gets f).
Proof. intros b. reflexivity. Qed.

Lemma respects_bind {A B : Type} (m : M A) (k : A -> M B) :
  respects R m -> (forall a, respects R (k a)) -> respects R (bind m k).
Proof.
  intros Hm Hk b. specialize (Hm b). unfold bind.
  destruct (m b) as [[a|e] b1]; cbn in *; [|done].
  etrans; [exact Hm|apply Hk].
Qed.

Lemma respects_try_except {A : Type} (m : M A) (h : exn -> M A) :
  respects R m -> (forall e, respects R (h e)) -> respects R (try_except m h).
Proof.
  intros Hm Hh b. specialize (Hm b). unfold try_except.
  destruct (m b) as [[a|e] b1]; cbn in *; [done|].
  etrans; [exact Hm|apply Hh].
Qed.

Lemma respects_modify (f : RabbitmqBroker -> RabbitmqBroker) :
  (forall b, R b (f b)) -> respects R (modify f).
Proof. intros Hf b. apply Hf. Qed.

Lemma respects_for_each {A : Type} (xs : list A) (body : A -> M unit) :
  (forall x, respects R (body x)) -> respects R (for_each xs body).
Proof.
  intros Hbody. induction xs as [|x xs IH]; [apply respects_ret|].
  apply respects_bind; [apply Hbody|done].
Qed.

End Respects.

Lemma frame_set__connection P c b : frame P b (set__connection c b).
Proof. split; try done. exists []. by rewrite app_nil_r. Qed.

Lemma frame_set_state_channel P c b : frame P b (set_state_channel c b).
Proof. split; try done. exists []. by rewrite app_nil_r. Qed.

Lemma frame_set_queues_declared P b : frame P b (set_queues_declared true b).
Proof. split; try done. exists []. by rewrite app_nil_r. Qed.

Lemma frame_set_emitted P h b : frame P b (set_emitted h b).
Proof. split; try done. exists []. by rewrite app_nil_r. Qed.

Lemma frame_set_logged P l b : frame P b (set_logged l b).
Proof. split; try done. exists []. by rewrite app_nil_r. Qed.

Lemma frame_set_trace P ev b : P ev -> frame P b (set_trace (trace b ++ [ev]) b).
Proof. intros HP. split; try done. cbn. eexists. split; [done|]. by constructor. Qed.

Create HintDb respects.
#[local] Hint Resolve frame_set__connection frame_set_state_channel
  frame_set_queues_declared frame_set_emitted frame_set_logged : respects.
#[local] Hint Extern 0 (same_flag _ _) => reflexivity : respects.

(** Splits a goal [respects R m] along the structure of [m]; what is left
    are the calls, and the methods it does not know. *)
Ltac respects_step :=
  first
    [ apply respects_ret; solve [tc_solve]
    | apply respects_raise; solve [tc_solve]
    | apply respects_gets; solve [tc_solve]
    | apply respects_modify; solve [auto with respects]
    | apply respects_bind; [tc_solve| |intros]
    | apply respects_try_except; [tc_solve| |intros]
    | apply respects_for_each; [tc_solve|intros]
    | match goal with
      | |- respects _ (match ?x with _ => _ end) => destruct x
      | |- respects _ (if ?x then _ else _) => destruct x
      end ].

Section Runs.

Variable respond : oracle.
Variable dq_name : string -> string.
Variable xq_name : string -> string.

Lemma framed_perform {T : Type} (P : event -> Prop) (c : call T) :
  (forall r, P (Ev c r)) -> framed P (perform respond c).
Proof. intros HP b. by apply frame_set_trace. Qed.

Lemma same_flag_perform {T : Type} (c : call T) : respects same_flag (perform respond c).
Proof. by intros b. Qed.

Lemma framed_emit P h : framed P (emit h).
Proof. apply respects_modify. auto with respects. Qed.

Lemma framed_logger P r : framed P (logger r).
Proof. apply respects_modify. auto with respects. Qed.

Lemma same_flag_emit h : respects same_flag (emit h).
Proof. by intros b. Qed.

Lemma same_flag_logger r : respects same_flag (logger r).
Proof. by intros b. Qed.

Ltac runs_step :=
  first
    [ apply framed_emit | apply framed_logger
    | apply same_flag_emit | apply same_flag_logger
    | apply same_flag_perform
    | apply framed_perform; intros; solve [cbn; auto]
    | respects_step ].

Lemma framed_connection : framed housekeeping (connection respond).
Proof. unfold framed, connection, open_connection. repeat runs_step. Qed.

Lemma framed_del_connection : framed housekeeping (del_connection respond).
Proof. unfold framed, del_connection. repeat runs_step. Qed.

Lemma framed_channel : framed housekeeping (channel respond).
Proof.
  unfold framed, channel, open_channel.
  repeat first [apply framed_connection | runs_step].
Qed.

Lemma framed_del_channel : framed housekeeping (del_channel respond).
Proof. unfold framed, del_channel. repeat runs_step. Qed.

Lemma same_flag_connection : respects same_flag (connection respond).
Proof. unfold connection, open_connection. repeat runs_step. Qed.

Lemma same_flag_channel : respects same_flag (channel respond).
Proof.
  unfold channel, open_channel.
  repeat first [apply same_flag_connection | runs_step].
Qed.

Lemma same_flag_del_connection : respects same_flag (del_connection respond).
Proof. unfold del_connection. repeat runs_step. Qed.

Lemma same_flag_del_channel : respects same_flag (del_channel respond).
Proof. unfold del_channel. repeat runs_step. Qed.

End Runs.

Lemma omap_Forall_None {B : Type} (f : event -> option B) (P : event -> Prop) evs :
  (forall ev, P ev -> f ev = None) -> Forall P evs -> omap f evs = [].
Proof.
  intros HP Hall. induction Hall as [|ev evs Hev _ IH]; [done|].
  change (omap f (ev :: evs)) with (match f ev with Some y => y :: omap f evs | None => omap f evs end).
  by rewrite (HP _ Hev).
Qed.

Lemma frame_omap {B : Type} (f : event -> option B) (P : event -> Prop) b b' :
  (forall ev, P ev -> f ev = None) -> frame P b b' -> omap f (trace b') = omap f (trace b).
Proof.
  intros HP [_ _ _ _ _ _ _ (evs & -> & Hall)].
  rewrite omap_app, (omap_Forall_None f P evs HP Hall). apply app_nil_r.
Qed.

Lemma housekeeping_declaration ev : housekeeping ev -> declaration_of ev = None.
Proof. by destruct ev as [T [] r]. Qed.

Lemma housekeeping_publication ev : housekeeping ev -> publication_of ev = None.
Proof. by destruct ev as [T [] r]. Qed.

Lemma housekeeping_count ev : housekeeping ev -> count_of ev = None.
Proof. by destruct ev as [T [] r]. Qed.

Lemma housekeeping_reading ev : housekeeping ev -> reading_of ev = None.
Proof. by destruct ev as [T [] r]. Qed.

Lemma housekeeping_sleep ev : housekeeping ev -> sleep_of ev = None.
Proof. by destruct ev as [T [] r]. Qed.

Lemma valid_truthy (mp : option Z) :
  valid_max_priority mp -> truthy_int mp = match mp with Some _ => true | None => false end.
Proof.
  destruct mp as [p|]; cbn; intros Hp; [|done]. apply negb_true_iff, Z.eqb_neq. lia.
Qed.

Section Declarations.

Variable respond : oracle.
Variable dq_name : string -> string.
Variable xq_name : string -> string.

Lemma _build_queue_arguments_valid (queue_name : string) b :
  valid_max_priority (max_priority b) ->
  _build_queue_arguments xq_name queue_name b
  = (Ok (queue_arguments (max_priority b) (xq_name queue_name)), b).
Proof.
  intros Hv. unfold _build_queue_arguments, queue_arguments. cbn.
  rewrite (valid_truthy _ Hv). by destruct (max_priority b).
Qed.


Lemma declare_as_frame (d : queue_declaration) b :
  frame (declare_event d) b (declare_as respond d b).2.
Proof.
  revert b. apply (respects_bind (frame (declare_event d))).
  - eapply framed_weaken; [|apply framed_channel]. by left.
  - intros ch. apply framed_perform. intros r. right. by destruct d.
Qed.

Lemma declare_as_ok (d : queue_declaration) b n b' :
  declare_as respond d b = (Ok n, b') ->
  declarations (trace b') = declarations (trace b) ++ [d] /\
  counts (trace b') = counts (trace b) ++ [n].
Proof.
  unfold declare_as, bind. pose proof (framed_channel respond b) as Hch.
  destruct (channel respond b) as [[ch|e] b1]; cbn in Hch |- *; [|done].
  destruct Hch as [_ _ _ _ _ _ _ (evs & Htr & Hall)].
  intros [= Hn <-]. cbn. rewrite Hn, Htr.
  unfold declarations, counts. rewrite !omap_app.
  rewrite (omap_Forall_None _ _ evs housekeeping_declaration Hall).
  rewrite (omap_Forall_None _ _ evs housekeeping_count Hall).
  rewrite !app_nil_r. by destruct d.
Qed.

Lemma declare_topology_event (mp : option Z) (queue_name : string) d :
  d ∈ topology dq_name xq_name mp queue_name ->
  forall ev, declare_event d ev -> topology_event dq_name xq_name mp queue_name ev.
Proof. intros Hd ev [?|?]; [by left|right; eauto]. Qed.

Lemma _declare_queue_eq (queue_name : string) b :
  valid_max_priority (max_priority b) ->
  _declare_queue respond xq_name queue_name b
  = declare_as respond {| decl_queue := queue_name; decl_durable := true;
                  decl_arguments := queue_arguments (max_priority b) (xq_name queue_name) |} b.
Proof.
  intros Hv. unfold _declare_queue.
  by rewrite (bind_ok _ _ _ _ _ (_build_queue_arguments_valid queue_name b Hv)).
Qed.

Lemma _declare_dq_queue_eq (queue_name : string) b :
  valid_max_priority (max_priority b) ->
  _declare_dq_queue respond dq_name xq_name queue_name b
  = declare_as respond {| decl_queue := dq_name queue_name; decl_durable := true;
                  decl_arguments := queue_arguments (max_priority b) (xq_name queue_name) |} b.
Proof.
  intros Hv. unfold _declare_dq_queue.
  by rewrite (bind_ok _ _ _ _ _ (_build_queue_arguments_valid queue_name b Hv)).
Qed.

Lemma _declare_xq_queue_eq (queue_name : string) b :
  _declare_xq_queue respond xq_name queue_name b
  = declare_as respond {| decl_queue := xq_name queue_name; decl_durable := true;
                  decl_arguments := {["x-message-ttl" := VInt 604800000]} |} b.
Proof. done. Qed.

Lemma declare_as_run (d : queue_declaration) b r b' :
  declare_as respond d b = (r, b') ->
  frame (declare_event d) b b' /\
  forall n, r = Ok n ->
    declarations (trace b') = declarations (trace b) ++ [d] /\
    counts (trace b') = counts (trace b) ++ [n].
Proof.
  intros H. split.
  - pose proof (declare_as_frame d b) as F. by rewrite H in F.
  - intros n ->. by eapply declare_as_ok.
Qed.

(** Sampling a queue declares its topology, in order, and returns the
    three message counts it was answered with. *)
Lemma get_queue_message_counts_run (queue_name : string) b r b' :
  valid_max_priority (max_priority b) ->
  get_queue_message_counts respond dq_name xq_name queue_name b = (r, b') ->
  frame (topology_event dq_name xq_name (max_priority b) queue_name) b b' /\
  forall ns, r = Ok ns ->
    declarations (trace b')
    = declarations (trace b) ++ topology dq_name xq_name (max_priority b) queue_name /\
    counts (trace b') = counts (trace b) ++ [ns.1.1; ns.1.2; ns.2].
Proof.
  intros Hv H. unfold get_queue_message_counts in H.
  set (mp := max_priority b) in *.
  assert (Hin := declare_topology_event mp queue_name). unfold topology in Hin.
  apply bind_inv in H as [(n1 & b1 & H1 & H)|(e & H1 & ->)];
    rewrite (_declare_queue_eq queue_name b Hv) in H1; fold mp in H1;
    apply declare_as_run in H1 as [F1 O1];
    (eapply frame_weaken in F1; [|apply Hin; repeat constructor]); [|done].
  assert (Hv1 : max_priority b1 = mp) by apply F1.
  apply bind_inv in H as [(n2 & b2 & H2 & H)|(e & H2 & ->)];
    rewrite (_declare_dq_queue_eq queue_name b1) in H2 by (by rewrite Hv1);
    rewrite Hv1 in H2; apply declare_as_run in H2 as [F2 O2];
    (eapply frame_weaken in F2; [|apply Hin; repeat constructor]);
    [|split; [exact (frame_trans _ _ _ _ F1 F2)|done]].
  apply bind_inv in H as [(n3 & b3 & H3 & H)|(e & H3 & ->)];
    rewrite (_declare_xq_queue_eq queue_name b2) in H3;
    apply declare_as_run in H3 as [F3 O3];
    (eapply frame_weaken in F3; [|apply Hin; repeat constructor]);
    [injection H as <- <-|];
    (split; [exact (frame_trans _ _ _ _ (frame_trans _ _ _ _ F1 F2) F3)|]); [|done].
  intros ns [= <-]. cbn [fst snd].
  destruct (O1 _ eq_refl) as [D1 C1]. destruct (O2 _ eq_refl) as [D2 C2].
  destruct (O3 _ eq_refl) as [D3 C3].
  rewrite D3, D2, D1, C3, C2, C1. unfold topology.
  by rewrite <-!(assoc_L (++)).
Qed.

Lemma topologies_event_declaration (mp : option Z) (qs : list string) ev :
  topologies_event dq_name xq_name mp qs ev ->
  publication_of ev = None /\ reading_of ev = None /\ sleep_of ev = None.
Proof.
  intros [Hk|(q & d & _ & _ & Hd)].
  - by destruct ev as [T [] r].
  - by destruct ev as [T [] r].
Qed.

(** The body of the loop of [_declare_rabbitmq_queues] is a sampling
    whose counts are dropped. *)
Lemma declare_body_eq (queue_name : string) b :
  (_declare_queue respond xq_name queue_name;;
   _declare_dq_queue respond dq_name xq_name queue_name;;
   _declare_xq_queue respond xq_name queue_name;;
   ret tt) b
  = (get_queue_message_counts respond dq_name xq_name queue_name;; ret tt) b.
Proof.
  unfold get_queue_message_counts, bind.
  destruct (_declare_queue _ _ _ b) as [[n1|e1] b1]; [|done].
  destruct (_declare_dq_queue _ _ _ _ b1) as [[n2|e2] b2]; [|done].
  by destruct (_declare_xq_queue _ _ _ b2) as [[n3|e3] b3].
Qed.

Lemma declare_topologies_run (qs : list string) b r b' :
  valid_max_priority (max_priority b) ->
  for_each qs (fun queue_name =>
    _declare_queue respond xq_name queue_name;;
    _declare_dq_queue respond dq_name xq_name queue_name;;
    _declare_xq_queue respond xq_name queue_name;;
    ret tt) b = (r, b') ->
  frame (topologies_event dq_name xq_name (max_priority b) qs) b b' /\
  (r = Ok tt ->
   declarations (trace b')
   = declarations (trace b) ++ concat (topology dq_name xq_name (max_priority b) <$> qs)).
Proof.
  revert b. induction qs as [|q qs IH]; intros b Hv H.
  - injection H as <- <-. split; [apply frame_refl|]. intros _. cbn. by rewrite app_nil_r.
  - cbn [for_each] in H.
    apply bind_inv in H as [([] & b1 & H1 & H)|(e & H1 & ->)];
      rewrite declare_body_eq in H1;
      apply bind_inv in H1 as [(ns & b1' & H1 & Hret)|(e' & H1 & Hret)];
      try discriminate Hret;
      apply get_queue_message_counts_run in H1 as [F1 O1]; try done;
      (eapply (frame_weaken _ (topologies_event dq_name xq_name (max_priority b) (q :: qs))) in F1;
       [|intros ev [?|(d & ? & ?)]; [by left|right; exists q, d; split; [by left|done]]]).
    + injection Hret as ->.
      assert (Hmp : max_priority b1 = max_priority b) by apply F1.
      apply IH in H as [F2 O2]; [|by rewrite Hmp]. rewrite Hmp in F2, O2.
      split.
      * eapply frame_trans; [exact F1|]. eapply frame_weaken; [|exact F2].
        intros ev [?|(q' & d & ? & ? & ?)]; [by left|right; exists q', d; split; [by right|done]].
      * intros ->. destruct (O1 _ eq_refl) as [D1 _].
        rewrite (O2 eq_refl), D1. cbn. by rewrite <-!(assoc_L (++)).
    + by split.
Qed.

Lemma _declare_rabbitmq_queues_run b r b' :
  valid_max_priority (max_priority b) ->
  _declare_rabbitmq_queues respond dq_name xq_name b = (r, b') ->
  frame (topologies_event dq_name xq_name (max_priority b) (elements (queues b))) b b' /\
  (r = Ok tt ->
   declarations (trace b')
   = declarations (trace b)
     ++ concat (topology dq_name xq_name (max_priority b) <$> elements (queues b))).
Proof. intros Hv H. by apply declare_topologies_run. Qed.

End Declarations.

(** ** Enqueueing *)

Section Enqueue.

Variable respond : oracle.
Variable dq_name : string -> string.
Variable xq_name : string -> string.

(** *** What is thrown away after a failed attempt *)

Lemma del_connection_run b r b' :
  del_connection respond b = (r, b') ->
  state_channel b' = state_channel b /\
  queues_declared b' = queues_declared b /\
  (r = Ok tt -> _connection b' = None).
Proof.
  unfold del_connection, bind, try_except, gets, modify, perform.
  destruct (_connection b) as [c|]; cbn.
  - destruct (respond unit (trace b) (connection_close c)) as [[]|e]; cbn.
    + by intros [= <- <-].
    + destruct (isinstance_AMQPError e); cbn; by intros [= <- <-].
  - by intros [= <- <-].
Qed.

Lemma del_channel_run b r b' :
  del_channel respond b = (r, b') ->
  _connection b' = _connection b /\
  queues_declared b' = queues_declared b /\
  (r = Ok tt ->
   (forall ch, respond unit (trace b) (channel_close ch) <> Raise AttributeError) ->
   state_channel b' = None).
Proof.
  unfold del_channel, bind, try_except, gets, modify, perform.
  destruct (state_channel b) as [ch|] eqn:Hch; cbn.
  - destruct (respond unit (trace b) (channel_close ch)) as [[]|e] eqn:He; cbn.
    + by intros [= <- <-].
    + destruct e; cbn; intros [= <- <-]; cbn; repeat split; try done.
      intros _ Hne. by destruct (Hne ch).
  - by intros [= <- <-].
Qed.

(** *** One attempt *)

Lemma enqueue_attempt_eq message queue_name properties delay b :
  enqueue_attempt respond dq_name xq_name message queue_name properties delay b
  = if queues_declared b
    then publish_step respond message queue_name properties delay b
    else ((_declare_rabbitmq_queues respond dq_name xq_name;;
           modify (set_queues_declared true));;
          publish_step respond message queue_name properties delay) b.
Proof. unfold enqueue_attempt. cbn. by destruct (queues_declared b). Qed.

Lemma publish_step_framed message queue_name properties delay :
  framed (publish_event (enqueue_publication message queue_name properties))
    (publish_step respond message queue_name properties delay).
Proof.
  unfold framed, publish_step.
  repeat first
    [ apply framed_emit | apply framed_logger
    | eapply framed_weaken; [|apply framed_channel]; by left
    | apply framed_perform; intros; by right
    | respects_step ].
Qed.

Lemma publish_step_same_flag message queue_name properties delay :
  respects same_flag (publish_step respond message queue_name properties delay).
Proof.
  unfold publish_step.
  repeat first
    [ apply same_flag_emit | apply same_flag_logger | apply same_flag_channel
    | apply same_flag_perform | respects_step ].
Qed.

(** An attempt that returns has just had its [basic.publish] accepted. *)
Lemma publish_step_ok message queue_name properties delay b m b' :
  publish_step respond message queue_name properties delay b = (Ok m, b') ->
  m = message /\
  exists evs ch,
    trace b' = trace b ++ evs ++
      [Ev (channel_basic_publish ch "" queue_name (Message.encode message) properties)
          (Ok tt)]
    /\ Forall housekeeping evs.
Proof.
  unfold publish_step. intros H.
  apply bind_inv in H as [([] & b1 & H1 & H)|(e & _ & [=])]. injection H1 as <-.
  apply bind_inv in H as [([] & b2 & H2 & H)|(e & _ & [=])]. injection H2 as <-.
  apply bind_inv in H as [(ch & b3 & H3 & H)|(e & _ & [=])].
  apply bind_inv in H as [([] & b4 & H4 & H)|(e & _ & [=])].
  injection H as <- <-. split; [done|].
  match type of H3 with
  | channel respond ?b0 = _ => pose proof (framed_channel respond b0) as F
  end.
  rewrite H3 in F. destruct F as [_ _ _ _ _ _ _ (evs & Htr & Hall)]. cbn in Htr.
  injection H4 as Hr <-. exists evs, ch. cbn [trace set_emitted set_trace]. rewrite Hr, Htr.
  by rewrite (assoc_L (++)).
Qed.

Lemma same_flag__declare_rabbitmq_queues :
  respects same_flag (_declare_rabbitmq_queues respond dq_name xq_name).
Proof.
  unfold _declare_rabbitmq_queues, _declare_queue, _declare_dq_queue,
    _declare_xq_queue, _build_queue_arguments.
  repeat first [ apply same_flag_channel | apply same_flag_perform | respects_step ].
Qed.

Lemma publish_event_enqueue_event mp qs p ev :
  publish_event p ev -> enqueue_event dq_name xq_name mp qs p ev.
Proof. intros [?|?]; [left; by left|by right]. Qed.

Lemma publish_event_declaration p ev : publish_event p ev -> declaration_of ev = None.
Proof. intros [?|?]; [by apply housekeeping_declaration|by destruct ev as [T [] r]]. Qed.

Lemma enqueue_attempt_run message queue_name properties delay b r b' :
  valid_max_priority (max_priority b) ->
  enqueue_attempt respond dq_name xq_name message queue_name properties delay b = (r, b') ->
  frame (enqueue_event dq_name xq_name (max_priority b) (elements (queues b))
           (enqueue_publication message queue_name properties)) b b' /\
  (queues_declared b = true -> declarations (trace b') = declarations (trace b)) /\
  (queues_declared b = false -> queues_declared b' = true ->
   declarations (trace b')
   = declarations (trace b)
     ++ concat (topology dq_name xq_name (max_priority b) <$> elements (queues b))) /\
  (forall m, r = Ok m ->
     m = message /\ queues_declared b' = true /\
     exists evs ch,
       trace b' = trace b ++ evs ++
         [Ev (channel_basic_publish ch "" queue_name (Message.encode message) properties)
             (Ok tt)]).
Proof.
  intros Hv H. rewrite enqueue_attempt_eq in H.
  set (p := enqueue_publication message queue_name properties).
  destruct (queues_declared b) eqn:Hflag.
  - pose proof (publish_step_framed message queue_name properties delay b) as F.
    pose proof (publish_step_same_flag message queue_name properties delay b) as G.
    rewrite H in F, G. cbn in F, G. unfold same_flag in G.
    split; [|split; [|split]]; try done.
    + eapply frame_weaken; [apply publish_event_enqueue_event|exact F].
    + intros _. eapply frame_omap; [apply publish_event_declaration|exact F].
    + intros m ->. apply publish_step_ok in H as [-> (evs & ch & Htr & _)].
      split; [done|]. split; [congruence|]. eauto.
  - apply bind_inv in H as [([] & b1 & H1 & H)|(e & H1 & ->)].
    + apply bind_inv in H1 as [([] & b0 & H0 & H1)|(e & _ & [=])].
      injection H1 as <-.
      apply _declare_rabbitmq_queues_run in H0 as [F0 D0]; [|done].
      specialize (D0 eq_refl).
      pose proof (publish_step_framed message queue_name properties delay
                    (set_queues_declared true b0)) as F.
      pose proof (publish_step_same_flag message queue_name properties delay
                    (set_queues_declared true b0)) as G.
      rewrite H in F, G. cbn [snd] in F, G. unfold same_flag in G. cbn in G.
      assert (F1 : frame (enqueue_event dq_name xq_name (max_priority b)
                            (elements (queues b)) p) b (set_queues_declared true b0)).
      { eapply frame_trans; [|apply frame_set_queues_declared].
        eapply frame_weaken; [|exact F0]. by left. }
      split; [|split; [|split]]; try done.
      * eapply frame_trans; [exact F1|].
        eapply frame_weaken; [apply publish_event_enqueue_event|exact F].
      * intros _ _. rewrite <-D0.
        change (trace b0) with (trace (set_queues_declared true b0)).
        eapply (frame_omap declaration_of); [apply publish_event_declaration|exact F].
      * intros m ->. apply publish_step_ok in H as [-> (evs & ch & Htr & _)].
        split; [done|]. split; [done|].
        destruct F0 as [_ _ _ _ _ _ _ (evs0 & Htr0 & _)]. cbn in Htr.
        exists (evs0 ++ evs), ch. by rewrite Htr, Htr0, <-!(assoc_L (++)).
    + apply bind_inv in H1 as [([] & b0 & H0 & [=])|(e' & H0 & [= ->])].
      pose proof (same_flag__declare_rabbitmq_queues b) as G.
      rewrite H0 in G. cbn in G. unfold same_flag in G.
      apply _declare_rabbitmq_queues_run in H0 as [F0 _]; [|done].
      split; [|split; [|split]]; try done.
      * eapply frame_weaken; [|exact F0]. by left.
      * congruence.
Qed.

(** *** The loop *)

Lemma enqueue_discard_framed e : framed housekeeping (enqueue_discard respond e).
Proof.
  unfold enqueue_discard. destruct (isinstance_AMQPConnectionError e);
    [apply framed_del_connection|apply framed_del_channel].
Qed.

Lemma enqueue_discard_same_flag e : respects same_flag (enqueue_discard respond e).
Proof.
  unfold enqueue_discard. destruct (isinstance_AMQPConnectionError e);
    [apply same_flag_del_connection|apply same_flag_del_channel].
Qed.

Lemma housekeeping_enqueue_event mp qs p ev :
  housekeeping ev -> enqueue_event dq_name xq_name mp qs p ev.
Proof. intros ?. left. by left. Qed.

(** The loop of [enqueue] gives up after [MAX_ENQUEUE_ATTEMPTS] attempts
    at the latest. *)
Lemma enqueue_loop_terminates fuel attempts message queue_name properties delay b :
  (0 < fuel)%nat ->
  MAX_ENQUEUE_ATTEMPTS - attempts < Z.of_nat fuel ->
  is_Some (enqueue_loop respond dq_name xq_name fuel attempts message queue_name
             properties delay b).
Proof.
  revert attempts b. induction fuel as [|fuel IH]; intros attempts b Hpos Hfuel; [lia|].
  cbn [enqueue_loop].
  destruct (enqueue_attempt _ _ _ _ _ _ _ b) as [[m|e] b1]; [by eexists|].
  destruct (transport_error e); [|by eexists].
  destruct (enqueue_discard respond e b1) as [[[]|e'] b2]; [|by eexists].
  destruct (attempts + 1 >? MAX_ENQUEUE_ATTEMPTS) eqn:Hmax; [by eexists|].
  cbn. apply IH; lia.
Qed.

Lemma enqueue_loop_run fuel attempts message queue_name properties delay b r b' :
  valid_max_priority (max_priority b) ->
  enqueue_loop respond dq_name xq_name fuel attempts message queue_name properties delay b
  = Some (r, b') ->
  frame (enqueue_event dq_name xq_name (max_priority b) (elements (queues b))
           (enqueue_publication message queue_name properties)) b b' /\
  (queues_declared b = true -> declarations (trace b') = declarations (trace b)) /\
  (forall m, r = Ok m ->
     m = message /\ queues_declared b' = true /\
     (exists evs ch,
        trace b' = trace b ++ evs ++
          [Ev (channel_basic_publish ch "" queue_name (Message.encode message) properties)
              (Ok tt)]) /\
     (queues_declared b = false ->
      exists pre,
        declarations (trace b')
        = declarations (trace b) ++ pre
          ++ concat (topology dq_name xq_name (max_priority b) <$> elements (queues b)))).
Proof.
  revert attempts b. induction fuel as [|fuel IH]; intros attempts b Hv H; [done|].
  cbn [enqueue_loop] in H.
  destruct (enqueue_attempt _ _ _ _ _ _ _ b) as [[m|e] b1] eqn:H1;
    apply enqueue_attempt_run in H1 as (F1 & D1 & D1' & O1); try done.
  { injection H as <- <-. split; [done|]. split; [done|].
    intros m' [= <-]. destruct (O1 _ eq_refl) as (-> & Hflag & Htr).
    repeat split; try done. intros Hb. exists []. by apply D1'. }
  destruct (transport_error e);
    [|injection H as <- <-; split; [exact F1|split; [exact D1|done]]].
  pose proof (enqueue_discard_framed e b1) as F2.
  pose proof (enqueue_discard_same_flag e b1) as G2. unfold same_flag in G2.
  destruct (enqueue_discard respond e b1) as [[[]|e'] b2]; cbn [snd] in F2, G2.
  2:{ injection H as <- <-. split; [|split; [|done]].
      - eapply frame_trans; [exact F1|].
        eapply frame_weaken; [apply housekeeping_enqueue_event|exact F2].
      - intros Hb. rewrite <-(D1 Hb).
        eapply frame_omap; [apply housekeeping_declaration|exact F2]. }
  assert (F12 : frame (enqueue_event dq_name xq_name (max_priority b)
                         (elements (queues b))
                         (enqueue_publication message queue_name properties)) b b2).
  { eapply frame_trans; [exact F1|].
    eapply frame_weaken; [apply housekeeping_enqueue_event|exact F2]. }
  assert (D2 : declarations (trace b2) = declarations (trace b1)).
  { eapply frame_omap; [apply housekeeping_declaration|exact F2]. }
  destruct (attempts + 1 >? MAX_ENQUEUE_ATTEMPTS).
  { injection H as <- <-. split; [done|]. split; [|done].
    intros Hb. by rewrite D2, D1. }
  cbn in H. fold (retry_logged b2) in H.
  assert (Hmp : max_priority (retry_logged b2) = max_priority b) by apply F12.
  assert (Hqs : queues (retry_logged b2) = queues b) by apply F12.
  apply IH in H as (F3 & D3 & O3); [|by rewrite Hmp]. rewrite Hmp, Hqs in F3, O3.
  cbn [retry_logged set_logged trace queues_declared] in D3, O3.
  split; [|split].
  - eapply frame_trans; [exact F12|].
    eapply frame_trans; [apply frame_set_logged|exact F3].
  - intros Hb. rewrite D3, D2, D1; try done. rewrite G2. by apply F1.
  - intros m ->. destruct (O3 _ eq_refl) as (-> & Hflag & (evs & ch & Htr) & Hpre).
    split; [done|]. split; [done|]. split.
    + destruct F12 as [_ _ _ _ _ _ _ (evs0 & Htr0 & _)].
      exists (evs0 ++ evs), ch. by rewrite Htr, Htr0, <-!(assoc_L (++)).
    + intros Hb. destruct (queues_declared b1) eqn:Hb1.
      * exists []. cbn. rewrite D3, D2 by congruence. by apply D1'.
      * destruct Hpre as [pre Hpre]; [congruence|].
        destruct F1 as [_ _ _ _ _ _ _ (evs1 & Htr1 & _)].
        exists (declarations evs1 ++ pre).
        rewrite Hpre, D2, Htr1. unfold declarations.
        by rewrite omap_app, <-!(assoc_L (++)).
Qed.

(** *** Attempts that fail in a row *)

Lemma enqueue_loop_failed fuel attempts message queue_name properties delay b e b1 :
  failed_attempt respond dq_name xq_name message queue_name properties delay b
  = Some (e, b1) ->
  enqueue_loop respond dq_name xq_name (S fuel) attempts message queue_name properties
    delay b
  = if attempts + 1 >? MAX_ENQUEUE_ATTEMPTS
    then Some (Raise (ConnectionClosed e), b1)
    else enqueue_loop respond dq_name xq_name fuel (attempts + 1) message queue_name
           properties delay (retry_logged b1).
Proof.
  unfold failed_attempt. cbn [enqueue_loop].
  destruct (enqueue_attempt _ _ _ _ _ _ _ b) as [[m|e0] b0]; [done|].
  destruct (transport_error e0); [|done].
  destruct (enqueue_discard respond e0 b0) as [[[]|e'] b2]; [|done].
  by intros [= -> ->].
Qed.

(** After [n] failed attempts the loop either has used up its attempts
    and raises [ConnectionClosed] with the last error, or makes the whole
    attempt again. *)
Lemma enqueue_loop_failures message queue_name properties delay n :
  forall b e b1 fuel attempts,
    failures respond dq_name xq_name message queue_name properties delay n b = Some (e, b1) ->
    (n <= fuel)%nat ->
    (attempts + Z.of_nat n <= MAX_ENQUEUE_ATTEMPTS ->
     enqueue_loop respond dq_name xq_name fuel attempts message queue_name properties
       delay b
     = enqueue_loop respond dq_name xq_name (fuel - n) (attempts + Z.of_nat n) message
         queue_name properties delay (retry_logged b1)) /\
    (attempts + Z.of_nat n = MAX_ENQUEUE_ATTEMPTS + 1 ->
     enqueue_loop respond dq_name xq_name fuel attempts message queue_name properties
       delay b
     = Some (Raise (ConnectionClosed e), b1)).
Proof.
  induction n as [|n IH]; intros b e b1 fuel attempts Hfail Hfuel; [done|].
  cbn [failures] in Hfail.
  destruct (failed_attempt _ _ _ _ _ _ _ b) as [[e0 b0]|] eqn:H0; [|done].
  destruct fuel as [|fuel]; [lia|].
  rewrite (enqueue_loop_failed _ _ _ _ _ _ _ _ _ H0).
  destruct n as [|n].
  - injection Hfail as <- <-. split; intros Hn.
    + destruct (Z.gtb_spec (attempts + 1) MAX_ENQUEUE_ATTEMPTS); [lia|].
      by replace (S fuel - 1)%nat with fuel by lia.
    + destruct (Z.gtb_spec (attempts + 1) MAX_ENQUEUE_ATTEMPTS); [done|lia].
  - destruct (IH _ _ _ fuel (attempts + 1) Hfail) as [IH1 IH2]; [lia|].
    split; intros Hn;
      (destruct (Z.gtb_spec (attempts + 1) MAX_ENQUEUE_ATTEMPTS); [lia|]).
    + rewrite IH1 by lia. f_equal; lia.
    + apply IH2. lia.
Qed.

(** *** Before the loop *)

Lemma enqueue_prepare_run message delay b :
  enqueue_prepare respond dq_name message delay b
  = match actors b !! Message.actor_name message with
    | None => (Raise (ActorNotFound (Message.actor_name message)), b)
    | Some actor =>
        match delay with
        | None =>
            (Ok (message, Message.queue_name message, publish_properties message actor), b)
        | Some d =>
            let b' := set_trace (trace b ++ [Ev current_millis
                                                 (respond Z (trace b) current_millis)]) b in
            match respond Z (trace b) current_millis with
            | Ok now =>
                (Ok (Message.copy message (Some (dq_name (Message.queue_name message)))
                       {["eta" := VInt (now + d)]},
                     dq_name (Message.queue_name message),
                     publish_properties message actor), b')
            | Raise e => (Raise e, b')
            end
        end
    end.
Proof.
  unfold enqueue_prepare, get_actor, bind, gets, ret, raise, perform,
    publish_properties, published_priority, default.
  destruct (actors b !! Message.actor_name message) as [actor|]; [|done].
  destruct delay as [d|].
  - destruct (respond Z (trace b) current_millis);
      by destruct (Message.options message !! "priority"),
                  (actor_options actor !! "priority").
  - by destruct (Message.options message !! "priority"),
                (actor_options actor !! "priority").
Qed.

End Enqueue.

(** ** A library that answers every call *)

Lemma never_raises_ret {A : Type} (a : A) : never_raises (ret a).
Proof. intros b. by exists a. Qed.

Lemma never_raises_gets {A : Type} (f : RabbitmqBroker -> A) : never_raises (gets f).
Proof. intros b. by eexists. Qed.

Lemma never_raises_modify (f : RabbitmqBroker -> RabbitmqBroker) : never_raises (modify f).
Proof. intros b. by exists tt. Qed.

Lemma never_raises_bind {A B : Type} (m : M A) (k : A -> M B) :
  never_raises m -> (forall a, never_raises (k a)) -> never_raises (bind m k).
Proof.
  intros Hm Hk b. destruct (Hm b) as [a Ha]. unfold bind.
  destruct (m b) as [[a'|e] b1]; cbn in Ha; [|done]. apply Hk.
Qed.

Lemma never_raises_for_each {A : Type} (xs : list A) (body : A -> M unit) :
  (forall x, never_raises (body x)) -> never_raises (for_each xs body).
Proof.
  intros Hbody. induction xs as [|x xs IH]; [apply never_raises_ret|].
  apply never_raises_bind; [apply Hbody|done].
Qed.

Section Cooperative.

Variable respond : oracle.
Variable dq_name : string -> string.
Variable xq_name : string -> string.
Hypothesis answers : cooperative respond.

Lemma never_raises_perform {T : Type} (c : call T) : never_raises (perform respond c).
Proof. intros b. apply answers. Qed.

Ltac never_raises_step :=
  first
    [ apply never_raises_ret | apply never_raises_gets | apply never_raises_modify
    | apply never_raises_perform
    | apply never_raises_bind; [|intros]
    | apply never_raises_for_each; intros
    | match goal with
      | |- never_raises (match ?x with _ => _ end) => destruct x
      | |- never_raises (if ?x then _ else _) => destruct x
      end ].

Lemma never_raises_channel : never_raises (channel respond).
Proof.
  unfold channel, open_channel, connection, open_connection.
  repeat never_raises_step.
Qed.

Lemma never_raises_get_queue_message_counts queue_name :
  never_raises (get_queue_message_counts respond dq_name xq_name queue_name).
Proof.
  unfold get_queue_message_counts, _declare_queue, _declare_dq_queue,
    _declare_xq_queue, _build_queue_arguments.
  repeat first [apply never_raises_channel | never_raises_step].
Qed.

Lemma never_raises__declare_rabbitmq_queues :
  never_raises (_declare_rabbitmq_queues respond dq_name xq_name).
Proof.
  unfold _declare_rabbitmq_queues, _declare_queue, _declare_dq_queue,
    _declare_xq_queue, _build_queue_arguments.
  repeat first [apply never_raises_channel | never_raises_step].
Qed.

Lemma never_raises_enqueue_attempt message queue_name properties delay :
  never_raises (enqueue_attempt respond dq_name xq_name message queue_name properties delay).
Proof.
  unfold enqueue_attempt, emit, logger.
  repeat first [ apply never_raises__declare_rabbitmq_queues
               | apply never_raises_channel | never_raises_step ].
Qed.

(** With such a library the first attempt of [enqueue] is the last. *)
Lemma enqueue_loop_first fuel attempts message queue_name properties delay b :
  exists b',
    enqueue_attempt respond dq_name xq_name message queue_name properties delay b
    = (Ok message, b') /\
    enqueue_loop respond dq_name xq_name (S fuel) attempts message queue_name
      properties delay b = Some (Ok message, b').
Proof.
  cbn [enqueue_loop].
  destruct (never_raises_enqueue_attempt message queue_name properties delay b) as [m Hm].
  destruct (enqueue_attempt _ _ _ _ _ _ _ b) as [[m'|e] b1] eqn:H1; [|done].
  exists b1. clear Hm.
  assert (m' = message) as ->; [|done].
  rewrite enqueue_attempt_eq in H1.
  destruct (queues_declared b).
  - by apply publish_step_ok in H1 as [-> _].
  - apply bind_inv in H1 as [(? & ? & _ & H1)|(? & _ & [=])].
    by apply publish_step_ok in H1 as [-> _].
Qed.

End Cooperative.

(** ** Joining *)

Lemma samples_cons (a b c : Z) (ns : list Z) :
  samples ([a; b; c] ++ ns) = (a + b) :: samples ns.
Proof. done. Qed.

Lemma settled_step (s min z : Z) (zs : list Z) :
  0 <= s -> s < min ->
  settled (if z =? 0 then s + 1 else 0) min zs ->
  settled s min (z :: zs).
Proof.
  intros Hs Hlt Hset. right. split; [done|].
  destruct (Z.eqb_spec z 0) as [->|Hz].
  - destruct Hset as [[Hmin ->]|(Hlt' & pre & k & -> & Hk)].
    + exists [], 1%nat. split; [done|]. left. split; [done|]. lia.
    + destruct Hk as [[-> Hk]|[(pre' & z' & -> & Hz') Hk]].
      * exists [], (S k). split; [done|]. left. split; [done|]. lia.
      * exists ((0 :: pre') ++ [z']), k. split; [by rewrite <-!(assoc_L (++))|].
        right. split; [|done]. by exists (0 :: pre'), z'.
  - destruct Hset as [[Hmin ->]|(Hlt' & pre & k & -> & Hk)]; [lia|].
    destruct Hk as [[-> Hk]|[(pre' & z' & -> & Hz') Hk]].
    + exists [z], k. split; [done|]. right. split; [|lia]. by exists [], z.
    + exists ((z :: pre') ++ [z']), k. split; [by rewrite <-!(assoc_L (++))|].
      right. split; [|done]. by exists (z :: pre'), z'.
Qed.

Section Join.

Variable respond : oracle.
Variable dq_name : string -> string.
Variable xq_name : string -> string.

Lemma join_step_eq queue_name idle_time deadline successes :
  join_step respond dq_name xq_name queue_name idle_time deadline successes
  = (check_deadline respond queue_name deadline;;
     counts <- get_queue_message_counts respond dq_name xq_name queue_name;;
     seconds <- computed (div1000 idle_time);;
     perform respond (time_sleep seconds);;
     ret (if counts.1.1 + counts.1.2 =? 0 then successes + 1 else 0)).
Proof. done. Qed.

(** The check reads the clock once if there is a deadline, not at all
    otherwise, and passes only before the deadline. *)
Lemma check_deadline_run queue_name deadline b r b' :
  check_deadline respond queue_name deadline b = (r, b') ->
  frame (fun ev => exists r, ev = Ev time_monotonic r) b b' /\
  counts (trace b') = counts (trace b) /\
  sleeps (trace b') = sleeps (trace b) /\
  declarations (trace b') = declarations (trace b) /\
  (r = Ok tt ->
   if truthy_num deadline
   then exists d now, deadline = Some d /\ float_ge_number now d = false /\
                      readings (trace b') = readings (trace b) ++ [now]
   else b' = b).
Proof.
  unfold check_deadline. destruct (truthy_num deadline) eqn:Htruthy.
  - destruct deadline as [d|]; [|done].
    unfold bind, perform.
    destruct (respond float (trace b) time_monotonic) as [now|e] eqn:Hnow.
    + destruct (float_ge_number now d) eqn:Hle; intros [= <- <-]; cbn;
        unfold counts, sleeps, declarations, readings; rewrite !omap_app; cbn;
        rewrite ?app_nil_r; (split; [apply frame_set_trace; eauto|]);
        repeat split; try done.
      intros _. by exists d, now.
    + intros [= <- <-]; cbn;
        unfold counts, sleeps, declarations; rewrite !omap_app; cbn;
        rewrite ?app_nil_r; (split; [apply frame_set_trace; eauto|]); by repeat split.
  - intros [= <- <-]. split; [apply frame_refl|]. by repeat split.
Qed.

Lemma topology_event_quiet mp queue_name ev :
  topology_event dq_name xq_name mp queue_name ev ->
  reading_of ev = None /\ sleep_of ev = None /\ publication_of ev = None.
Proof. intros [Hk|(d & _ & Hd)]; by destruct ev as [T [] r]. Qed.

(** A turn that completes has passed the check, taken one sample and
    slept once, for the float that [idle_time / 1000] is. *)
Lemma join_step_run queue_name idle_time deadline successes b r b' :
  valid_max_priority (max_priority b) ->
  join_step respond dq_name xq_name queue_name idle_time deadline successes b = (r, b') ->
  frame (join_event dq_name xq_name (max_priority b) queue_name) b b' /\
  forall successes', r = Ok successes' ->
    exists (ns : Z * Z * Z) (seconds : float),
      div1000 idle_time = Ok seconds /\
      counts (trace b') = counts (trace b) ++ [ns.1.1; ns.1.2; ns.2] /\
      successes' = (if ns.1.1 + ns.1.2 =? 0 then successes + 1 else 0) /\
      sleeps (trace b') = sleeps (trace b) ++ [seconds] /\
      declarations (trace b')
      = declarations (trace b) ++ topology dq_name xq_name (max_priority b) queue_name /\
      (if truthy_num deadline
       then exists d now, deadline = Some d /\ float_ge_number now d = false /\
                          readings (trace b') = readings (trace b) ++ [now]
       else readings (trace b') = readings (trace b)).
Proof.
  intros Hv H. rewrite join_step_eq in H.
  apply bind_inv in H as [([] & b1 & H1 & H)|(e & H1 & ->)];
    apply check_deadline_run in H1 as (F1 & C1 & S1 & D1 & R1);
    (eapply (frame_weaken _ (join_event dq_name xq_name (max_priority b) queue_name))
       in F1; [|intros ev ?; right; by left]); [|done].
  specialize (R1 eq_refl).
  assert (Hmp : max_priority b1 = max_priority b) by apply F1.
  apply bind_inv in H as [(ns & b2 & H2 & H)|(e & H2 & ->)];
    (apply get_queue_message_counts_run in H2 as [F2 O2]; [|by rewrite Hmp]);
    rewrite Hmp in F2, O2;
    pose proof (frame_omap reading_of _ _ _
                  (fun ev H => proj1 (topology_event_quiet _ _ ev H)) F2) as R2;
    pose proof (frame_omap sleep_of _ _ _
                  (fun ev H => proj1 (proj2 (topology_event_quiet _ _ ev H))) F2) as S2;
    (eapply (frame_weaken _ (join_event dq_name xq_name (max_priority b) queue_name))
       in F2; [|intros ev ?; by left]);
    [|split; [by eapply frame_trans|done]].
  destruct (O2 _ eq_refl) as [D2 C2].
  unfold bind, computed, perform in H.
  destruct (div1000 idle_time) as [seconds|e0] eqn:Hdiv.
  2:{ injection H as <- <-. split; [by eapply frame_trans|done]. }
  destruct (respond unit (trace b2) (time_sleep seconds)) as [[]|e] eqn:Hs;
    injection H as <- <-.
  - split.
    + eapply frame_trans; [by eapply frame_trans|].
      apply frame_set_trace. right. right. eauto.
    + intros s' [= <-]. exists ns, seconds. cbn [trace set_trace].
      unfold counts, sleeps, declarations, readings in *. rewrite !omap_app.
      cbn [omap list_omap count_of sleep_of declaration_of reading_of].
      rewrite !app_nil_r, C2, C1, S2, S1, D2, D1, R2. repeat split; try done.
      destruct (truthy_num deadline); [done|by subst b1].
  - split; [|done].
    eapply frame_trans; [by eapply frame_trans|].
    apply frame_set_trace. right. right. eauto.
Qed.

(** [join] returns only once the samples have settled; it has then slept
    once after every sample, and every reading of the clock it made at the
    head of a turn was before the deadline. *)
Lemma join_loop_ok fuel queue_name min_successes idle_time deadline :
  forall successes b b',
    valid_max_priority (max_priority b) ->
    0 <= successes ->
    join_loop respond dq_name xq_name fuel queue_name min_successes idle_time deadline
      successes b = Some (Ok tt, b') ->
    exists cs ts ss,
      counts (trace b') = counts (trace b) ++ cs /\
      settled successes min_successes (samples cs) /\
      sleeps (trace b') = sleeps (trace b) ++ ss /\
      length ss = length (samples cs) /\
      Forall (fun seconds => div1000 idle_time = Ok seconds) ss /\
      readings (trace b') = readings (trace b) ++ ts /\
      (if truthy_num deadline
       then length ts = length (samples cs) /\
            forall d, deadline = Some d -> Forall (fun t => float_ge_number t d = false) ts
       else ts = []).
Proof.
  induction fuel as [|fuel IH]; intros s b b' Hv Hs H; cbn [join_loop] in H.
  - destruct (s <? min_successes) eqn:Hlt; [done|]. injection H as <-.
    exists [], [], []. rewrite !app_nil_r. repeat split; try done.
    + left. split; [lia|done].
    + by destruct (truthy_num deadline).
  - destruct (Z.ltb_spec s min_successes) as [Hlt|Hge].
    2:{ injection H as <-. exists [], [], []. rewrite !app_nil_r. repeat split; try done.
        - left. split; [lia|done].
        - by destruct (truthy_num deadline). }
    destruct (join_step _ _ _ _ _ _ _ b) as [[s'|e] b1] eqn:H1; [|done].
    apply join_step_run in H1 as [F1 O1]; [|done].
    destruct (O1 _ eq_refl) as (ns & seconds & Hdiv & C1 & -> & S1 & _ & R1).
    apply IH in H as (cs & ts & ss & C2 & Hset & S2 & Hlen & Hss & R2 & Hts).
    2:{ by rewrite (frame_max_priority _ _ _ F1). }
    2:{ destruct (_ =? 0); lia. }
    exists ([ns.1.1; ns.1.2; ns.2] ++ cs). rewrite samples_cons.
    destruct (truthy_num deadline) eqn:Htruthy.
    + destruct R1 as (d & now & -> & Hnow & R1). exists (now :: ts), (seconds :: ss).
      rewrite C2, C1, S2, S1, R2, R1, <-!(assoc_L (++)).
      repeat split; try done.
      * by apply settled_step.
      * cbn. lia.
      * by constructor.
      * cbn. lia.
      * intros d' [= <-]. constructor; [done|]. by apply Hts.
    + exists ts, (seconds :: ss). rewrite C2, C1, S2, S1, R2, R1, <-!(assoc_L (++)).
      repeat split; try done.
      * by apply settled_step.
      * cbn. lia.
      * by constructor.
Qed.

(** At the head of a turn, a clock that has reached the deadline ends
    the call with [QueueJoinTimeout], before anything is sampled. *)
Lemma join_loop_timeout fuel queue_name min_successes idle_time d successes b now :
  successes < min_successes ->
  truthy_num (Some d) = true ->
  respond float (trace b) time_monotonic = Ok now ->
  float_ge_number now d = true ->
  join_loop respond dq_name xq_name (S fuel) queue_name min_successes idle_time
    (Some d) successes b
  = Some (Raise (QueueJoinTimeout queue_name),
          set_trace (trace b ++ [Ev time_monotonic (Ok now)]) b).
Proof.
  intros Hlt Htruthy Hnow Hle. cbn [join_loop].
  destruct (Z.ltb_spec successes min_successes); [|lia].
  unfold join_step. rewrite Htruthy. unfold bind at 1. unfold bind at 1.
  unfold perform. by rewrite Hnow, Hle.
Qed.

Lemma omap_app_singleton {B : Type} (f : event -> option B) (l evs : list event) (x : B) :
  omap f (l ++ evs) = omap f l ++ [x] -> (0 < length evs)%nat.
Proof.
  rewrite omap_app. intros H. apply app_inv_head in H.
  destruct evs; [done|cbn; lia].
Qed.

(** Once the clock is past the deadline for good, the loop ends. *)
Lemma join_loop_terminates (N : nat) queue_name min_successes idle_time d :
  truthy_num (Some d) = true ->
  (forall h, (N <= length h)%nat ->
     exists now, respond float h time_monotonic = Ok now /\ float_ge_number now d = true) ->
  forall fuel successes b,
    valid_max_priority (max_priority b) ->
    (N <= length (trace b) + fuel)%nat ->
    is_Some (join_loop respond dq_name xq_name (S fuel) queue_name min_successes
               idle_time (Some d) successes b).
Proof.
  intros Htruthy Hclock. induction fuel as [|fuel IH]; intros s b Hv Hlen.
  - destruct (Z.ltb_spec s min_successes) as [Hlt|Hge].
    + destruct (Hclock (trace b)) as (now & Hnow & Hle); [lia|].
      rewrite (join_loop_timeout _ _ _ _ _ _ _ now); eauto.
    + cbn [join_loop]. destruct (Z.ltb_spec s min_successes); [lia|]. eauto.
  - destruct (Z.ltb_spec s min_successes) as [Hlt|Hge].
    + cbn [join_loop]. destruct (Z.ltb_spec s min_successes); [|lia].
      destruct (join_step _ _ _ _ _ _ _ b) as [[s'|e] b1] eqn:H1; [|eauto].
      apply join_step_run in H1 as [F1 O1]; [|done].
      destruct (O1 _ eq_refl) as (ns & seconds & _ & _ & _ & S1 & _).
      destruct F1 as [_ _ Hmp _ _ _ _ (evs & Htr & _)].
      rewrite Htr in S1. apply omap_app_singleton in S1.
      apply IH; [by rewrite Hmp|]. rewrite Htr, length_app. lia.
    + cbn [join_loop]. destruct (Z.ltb_spec s min_successes); [lia|]. eauto.
Qed.

(** How [join] enters its loop: with the timeout itself as deadline when
    it is [None] or zero, and otherwise with the float that the reading of
    the clock plus [timeout / 1000] is; the clock is read before the
    quotient is computed. *)
Lemma join_enters fuel queue_name min_successes idle_time timeout b :
  join respond dq_name xq_name fuel queue_name min_successes idle_time timeout b
  = match timeout with
    | None =>
        join_loop respond dq_name xq_name fuel queue_name min_successes idle_time None 0 b
    | Some t =>
        if t =? 0
        then join_loop respond dq_name xq_name fuel queue_name min_successes idle_time
               (Some (Int 0)) 0 b
        else
          match respond float (trace b) time_monotonic with
          | Ok now =>
              let b1 := set_trace (trace b ++ [Ev time_monotonic (Ok now)]) b in
              match div1000 t with
              | Ok seconds =>
                  join_loop respond dq_name xq_name fuel queue_name min_successes idle_time
                    (Some (Float (float_add now seconds))) 0 b1
              | Raise e => Some (Raise e, b1)
              end
          | Raise e =>
              Some (Raise e, set_trace (trace b ++ [Ev time_monotonic (Raise e)]) b)
          end
    end.
Proof.
  unfold join, join_deadline. destruct timeout as [t|]; [|done]. cbn [truthy_int].
  destruct (Z.eqb_spec t 0) as [->|Ht]; [done|]. cbn [negb].
  change (default 0 (Some t)) with t. unfold bind, computed, perform, ret.
  destruct (respond float (trace b) time_monotonic); [|done].
  by destruct (div1000 t).
Qed.

(** A deadline that is not true is no deadline: the turn is the turn
    without one. *)
Lemma join_loop_falsy fuel queue_name min_successes idle_time deadline :
  truthy_num deadline = false ->
  forall successes b,
    join_loop respond dq_name xq_name fuel queue_name min_successes idle_time deadline
      successes b
    = join_loop respond dq_name xq_name fuel queue_name min_successes idle_time None
        successes b.
Proof.
  intros Hfalsy. induction fuel as [|fuel IH]; intros s b; [done|].
  cbn [join_loop]. destruct (s <? min_successes); [|done].
  replace (join_step respond dq_name xq_name queue_name idle_time deadline s b)
    with (join_step respond dq_name xq_name queue_name idle_time None s b)
    by (unfold join_step; by rewrite Hfalsy).
  destruct (join_step _ _ _ _ _ _ _ b) as [[s'|e] b1]; [apply IH|done].
Qed.

End Join.

(** ** What a framed trace holds *)

Lemma elem_of_omap_Forall {B : Type} (f : event -> option B) (P : event -> Prop)
    (Q : B -> Prop) (evs : list event) :
  (forall ev x, P ev -> f ev = Some x -> Q x) ->
  Forall P evs -> Forall Q (omap f evs).
Proof.
  intros HPQ Hall. apply Forall_forall. intros x Hx.
  apply list_elem_of_omap in Hx as (ev & Hev & Hf).
  rewrite Forall_forall in Hall. eauto.
Qed.

Section Support.

Variable respond : oracle.
Variable dq_name : string -> string.
Variable xq_name : string -> string.

Lemma topologies_event_declarations mp qs evs :
  Forall (topologies_event dq_name xq_name mp qs) evs ->
  Forall (fun d => exists q, q ∈ qs /\ d ∈ topology dq_name xq_name mp q) (declarations evs).
Proof.
  apply elem_of_omap_Forall. intros ev d [Hk|(q & d' & Hq & Hd & Hev)] Hdecl.
  - by rewrite (housekeeping_declaration _ Hk) in Hdecl.
  - exists q. split; [done|]. congruence.
Qed.

Lemma enqueue_event_publications mp qs p evs :
  Forall (enqueue_event dq_name xq_name mp qs p) evs ->
  Forall (eq p) (publications evs).
Proof.
  apply elem_of_omap_Forall. intros ev p' [Ht|Hp] Hpub; [|congruence].
  destruct (topologies_event_declaration dq_name xq_name _ _ _ Ht) as [Hnone _]. congruence.
Qed.

Lemma declare_event_declarations d evs :
  Forall (declare_event d) evs -> Forall (eq d) (declarations evs).
Proof.
  apply elem_of_omap_Forall. intros ev d' [Hk|Hd] Hdecl; [|congruence].
  by rewrite (housekeeping_declaration _ Hk) in Hdecl.
Qed.

(** *** A call to [enqueue] *)

Lemma enqueue_run message delay b r b' :
  valid_max_priority (max_priority b) ->
  enqueue respond dq_name xq_name message delay b = Some (r, b') ->
  match actors b !! Message.actor_name message with
  | None => r = Raise (ActorNotFound (Message.actor_name message)) /\ b' = b
  | Some actor =>
      exists evs,
        trace b' = trace b ++ evs /\
        Forall (fun p => pub_exchange p = "" /\
                         pub_routing_key p = routing_key dq_name message delay /\
                         pub_properties p = publish_properties message actor)
          (publications evs) /\
        (forall m, r = Ok m ->
           queues_declared b' = true /\
           (match delay with
            | Some d =>
                exists now, respond Z (trace b) current_millis = Ok now /\
                  m = Message.copy message (Some (dq_name (Message.queue_name message)))
                        {["eta" := VInt (now + d)]}
            | None => m = message
            end) /\
           Forall (fun p => pub_body p = Message.encode m) (publications evs) /\
           exists pre ch,
             evs = pre ++
               [Ev (channel_basic_publish ch "" (routing_key dq_name message delay)
                      (Message.encode m) (publish_properties message actor)) (Ok tt)])
  end.
Proof.
  intros Hv H. unfold enqueue in H. rewrite enqueue_prepare_run in H.
  destruct (actors b !! Message.actor_name message) as [actor|]; [|by injection H as <- <-].
  assert (Hloop : forall m q b0 evs0,
            valid_max_priority (max_priority b0) ->
            trace b0 = trace b ++ evs0 -> publications evs0 = [] ->
            enqueue_loop respond dq_name xq_name (Z.to_nat MAX_ENQUEUE_ATTEMPTS) 1 m q
              (publish_properties message actor) delay b0 = Some (r, b') ->
            exists evs,
              trace b' = trace b ++ evs /\
              Forall (eq (enqueue_publication m q (publish_properties message actor)))
                (publications evs) /\
              (forall m', r = Ok m' ->
                 queues_declared b' = true /\ m' = m /\
                 exists pre ch,
                   evs = pre ++ [Ev (channel_basic_publish ch "" q (Message.encode m)
                                       (publish_properties message actor)) (Ok tt)])).
  { intros m q b0 evs0 Hv0 Htr0 Hpub0 Hrun.
    apply enqueue_loop_run in Hrun as (F & _ & O); [|done].
    destruct F as [_ _ _ _ _ _ _ (evs & Htr & Hall)].
    exists (evs0 ++ evs). split; [by rewrite Htr, Htr0, (assoc_L (++))|].
    split.
    { unfold publications. rewrite omap_app. fold (publications evs0). rewrite Hpub0.
      by eapply enqueue_event_publications. }
    intros m' ->. destruct (O _ eq_refl) as (-> & Hflag & (pre & ch & Htr') & _).
    split; [done|]. split; [done|]. exists (evs0 ++ pre), ch.
    rewrite Htr in Htr'. apply app_inv_head in Htr'. by rewrite Htr', (assoc_L (++)). }
  destruct delay as [d|]; cbn [routing_key].
  - cbn zeta in H. destruct (respond Z (trace b) current_millis) as [now|e] eqn:Hnow.
    + apply (Hloop _ _ _ [Ev current_millis (Ok now)]) in H as (evs & Htr & Hall & O);
        [|done..].
      exists evs. split; [done|]. split.
      * eapply Forall_impl; [exact Hall|]. by intros p <-.
      * intros m ->. destruct (O _ eq_refl) as (Hflag & -> & Hlast).
        split; [done|]. split; [by exists now|]. split; [|done].
        eapply Forall_impl; [exact Hall|]. by intros p <-.
    + injection H as <- <-. eexists. split; [done|]. split; [|done]. by constructor.
  - apply (Hloop _ _ _ []) in H as (evs & Htr & Hall & O);
      [|done|by rewrite app_nil_r|done].
    exists evs. split; [done|]. split.
    + eapply Forall_impl; [exact Hall|]. by intros p <-.
    + intros m ->. destruct (O _ eq_refl) as (Hflag & -> & Hlast).
      split; [done|]. split; [done|]. split; [|done].
      eapply Forall_impl; [exact Hall|]. by intros p <-.
Qed.

(** What [enqueue] declares: nothing once the flag is set; and a call that
    returns on a broker whose flag was not set has declared the topology
    of every recorded queue, after which it declared nothing more. *)
Lemma enqueue_declares message delay b r b' :
  valid_max_priority (max_priority b) ->
  enqueue respond dq_name xq_name message delay b = Some (r, b') ->
  (queues_declared b = true -> declarations (trace b') = declarations (trace b)) /\
  (forall m, r = Ok m ->
     queues_declared b' = true /\
     (queues_declared b = false ->
      exists pre,
        declarations (trace b')
        = declarations (trace b) ++ pre
          ++ concat (topology dq_name xq_name (max_priority b) <$> elements (queues b)))).
Proof.
  intros Hv H. unfold enqueue in H. rewrite enqueue_prepare_run in H.
  destruct (actors b !! Message.actor_name message) as [actor|];
    [|by injection H as <- <-].
  destruct delay as [d|].
  - cbn zeta in H. destruct (respond Z (trace b) current_millis) as [now|e].
    + apply enqueue_loop_run in H as (_ & D & O); [|done].
      cbn [trace set_trace queues_declared max_priority queues] in D, O.
      unfold declarations in D, O. rewrite omap_app in D, O. cbn in D, O.
      rewrite app_nil_r in D, O. fold (declarations (trace b)) in D, O.
      split; [done|]. intros m ->. destruct (O _ eq_refl) as (_ & Hflag & _ & Hpre). done.
    + injection H as <- <-. split; [|done]. intros _. cbn.
      unfold declarations. rewrite omap_app. cbn. by rewrite app_nil_r.
  - apply enqueue_loop_run in H as (_ & D & O); [|done].
    split; [done|]. intros m ->. destruct (O _ eq_refl) as (_ & Hflag & _ & Hpre). done.
Qed.

(** *** Declaring a queue on the broker object *)

Lemma declare_queue_new queue_name b :
  queue_name ∉ queues b ->
  declare_queue dq_name queue_name b
  = (Ok tt,
     set_emitted (emitted b ++ [before_declare_queue queue_name;
                                after_declare_queue queue_name;
                                after_declare_delay_queue (dq_name queue_name)])
       (set_delay_queues ({[dq_name queue_name]} ∪ delay_queues b)
          (set_queues ({[queue_name]} ∪ queues b) b))).
Proof.
  intros Hq. unfold declare_queue, bind, gets, emit, modify.
  rewrite decide_False by done. cbn. by rewrite <-!(assoc_L (++)).
Qed.

Lemma declare_queue_known queue_name b :
  queue_name ∈ queues b -> declare_queue dq_name queue_name b = (Ok tt, b).
Proof.
  intros Hq. unfold declare_queue, bind, gets. cbn. by rewrite decide_True.
Qed.

Lemma declare_queue_quiet queue_name b :
  trace (declare_queue dq_name queue_name b).2 = trace b /\
  _connection (declare_queue dq_name queue_name b).2 = _connection b /\
  state_channel (declare_queue dq_name queue_name b).2 = state_channel b /\
  queues_declared (declare_queue dq_name queue_name b).2 = queues_declared b /\
  queue_name ∈ queues (declare_queue dq_name queue_name b).2.
Proof.
  destruct (decide (queue_name ∈ queues b)) as [Hq|Hq].
  - by rewrite declare_queue_known.
  - rewrite declare_queue_new by done. cbn. repeat split.
    by apply elem_of_union_l, elem_of_singleton.
Qed.

Lemma declare_queues_quiet (qs : list string) b :
  trace (foldl (fun b q => (declare_queue dq_name q b).2) b qs) = trace b /\
  _connection (foldl (fun b q => (declare_queue dq_name q b).2) b qs) = _connection b.
Proof.
  revert b. induction qs as [|q qs IH]; intros b; [done|]. cbn [foldl].
  destruct (IH (declare_queue dq_name q b).2) as [-> ->].
  destruct (declare_queue_quiet q b) as (-> & -> & _). done.
Qed.

(** *** Consuming *)

Lemma consume_run queue_name prefetch timeout b c b' :
  valid_max_priority (max_priority b) ->
  consume respond dq_name xq_name queue_name prefetch timeout b = (Ok c, b') ->
  declarations (trace b')
  = declarations (trace b)
    ++ concat (topology dq_name xq_name (max_priority b) <$> elements (queues b)).
Proof.
  intros Hv H. unfold consume in H.
  apply bind_inv in H as [([] & b1 & H1 & H)|(e & _ & [=])].
  unfold try_except in H1.
  destruct (_declare_rabbitmq_queues respond dq_name xq_name b) as [[[]|e] b0] eqn:H0.
  2:{ destruct (transport_error e); [|done].
      apply bind_inv in H1 as [(? & ? & _ & [=])|(? & _ & [=])]. }
  injection H1 as <-.
  apply _declare_rabbitmq_queues_run in H0 as [_ D0]; [|done]. rewrite <-(D0 eq_refl).
  assert (F : framed (fun ev => declaration_of ev = None)
                (c <- connection respond;;
                 _RabbitmqConsumer__init__ respond c queue_name prefetch timeout)).
  { unfold framed, _RabbitmqConsumer__init__.
    repeat first
      [ eapply framed_weaken; [|apply framed_connection]; apply housekeeping_declaration
      | apply framed_perform; intros; done
      | respects_step ]. }
  specialize (F b0). rewrite H in F.
  by eapply (frame_omap declaration_of); [|exact F].
Qed.

End Support.

(** * The claims *)

(** C8.  Constructing a [RabbitmqBroker] with [max_priority] set to an
    integer outside 1..255 raises [ValueError] in the constructor; with
    [max_priority] in 1..255, or [None], the constructor succeeds.  In
    either case nothing has been asked of the client library: the
    constructor has no access to it, and the broker it makes holds no
    connection, no channel and an empty trace. *)
Theorem max_priority_validated (confirm : bool) (address : option string) (mp : option Z) :
  match mp with
  | Some p =>
      if decide (1 <= p <= 255)
      then exists b, RabbitmqBroker__init__ confirm address (Some p) = Ok b /\
                     max_priority b = Some p /\
                     _connection b = None /\ state_channel b = None /\ trace b = []
      else exists msg, RabbitmqBroker__init__ confirm address (Some p) = Raise (ValueError msg)
  | None =>
      exists b, RabbitmqBroker__init__ confirm address None = Ok b /\
                max_priority b = None /\
                _connection b = None /\ state_channel b = None /\ trace b = []
  end.
Proof.
  destruct mp as [p|]; [|by eexists].
  unfold RabbitmqBroker__init__. case_decide as Hp.
  - destruct (Z.ltb_spec 0 p); [|lia]. destruct (Z.leb_spec p 255); [|lia].
    cbn. by eexists.
  - destruct (Z.ltb_spec 0 p), (Z.leb_spec p 255); cbn; try lia; by eexists.
Qed.

(** What [try: m; except transport: raise ConnectionClosed; except
    Exception: log] comes to, for [ack] as for [nack]. *)
Lemma guarded_run (m : M unit) (warning : string) (b : RabbitmqBroker) :
  let guarded :=
    try_except m (fun e => if transport_error e then raise (ConnectionClosed e)
                           else logger (log_warning warning)) in
  ((forall e, (m b).1 = Raise e -> transport_error e = false) -> (guarded b).1 = Ok tt) /\
  (forall e, (guarded b).1 = Raise e ->
     exists cause, transport_error cause = true /\ (m b).1 = Raise cause /\
                   e = ConnectionClosed cause) /\
  (forall e, (m b).1 = Raise e -> transport_error e = false ->
     (guarded b).2 = set_logged (logged (m b).2 ++ [log_warning warning]) (m b).2).
Proof.
  intros guarded. subst guarded. unfold try_except.
  destruct (m b) as [[[]|e] b1]; cbn [fst snd].
  - by repeat split.
  - split; [|split].
    + intros H. by rewrite (H e eq_refl).
    + intros e'. destruct (transport_error e) eqn:He; [|done].
      intros [= <-]. by exists e.
    + intros e' [= <-] ->. done.
Qed.

(** C9.  [Consumer.ack] and [Consumer.nack] return normally for every
    object whose own [ack] (or [nack]) returns, or raises anything but a
    connection-level or channel-level error; the failure is then logged as
    a warning and nothing else changes.  Such an error is the only thing
    they raise, and they raise it as [ConnectionClosed].  [nack] only ever
    calls the object's [nack] with [requeue=False]. *)
Theorem ack_nack_ignore_unknown (respond : oracle) (self : _RabbitmqConsumer)
    (message : py_object) (b : RabbitmqBroker) :
  let acked := obj_ack message b in
  let nacked := obj_nack message false b in
  (* neither raises unless the object raised a transport error *)
  ((forall e, acked.1 = Raise e -> transport_error e = false) ->
   (ack self message b).1 = Ok tt) /\
  ((forall e, nacked.1 = Raise e -> transport_error e = false) ->
   (nack self message b).1 = Ok tt) /\
  (* what they raise is ConnectionClosed, for a transport error of the object *)
  (forall e, (ack self message b).1 = Raise e ->
     exists cause, transport_error cause = true /\ acked.1 = Raise cause /\
                   e = ConnectionClosed cause) /\
  (forall e, (nack self message b).1 = Raise e ->
     exists cause, transport_error cause = true /\ nacked.1 = Raise cause /\
                   e = ConnectionClosed cause) /\
  (* any other failure of the object is logged, and that is all *)
  (forall e, acked.1 = Raise e -> transport_error e = false ->
     (ack self message b).2
     = set_logged (logged acked.2 ++ [log_warning "Failed to ack message."]) acked.2) /\
  (forall e, nacked.1 = Raise e -> transport_error e = false ->
     (nack self message b).2
     = set_logged (logged nacked.2 ++ [log_warning "Failed to nack message."]) nacked.2) /\
  (* the object's nack is never asked to requeue *)
  (forall other : py_object,
     obj_nack other false = obj_nack message false -> nack self other = nack self message) /\
  (forall m : _RabbitmqMessage,
     exists r, trace (nack self (as_object respond m) b).2
               = trace b ++ [Ev (message_nack (tag (_rabbitmq_message m)) false) r]) /\
  (* the objects of the test: a mock, and an object without the methods *)
  (ack self mock_object b).1 = Ok tt /\ (nack self mock_object b).1 = Ok tt /\
  (ack self bare_object b).1 = Ok tt /\ (nack self bare_object b).1 = Ok tt.
Proof.
  intros acked nacked. subst acked nacked.
  destruct (guarded_run (obj_ack message) "Failed to ack message." b) as (A1 & A2 & A3).
  destruct (guarded_run (obj_nack message false) "Failed to nack message." b)
    as (N1 & N2 & N3).
  repeat match goal with |- _ /\ _ => split end; try done.
  - by intros other; unfold nack; intros ->.
  - intros m. unfold nack, try_except. cbn. unfold _RabbitmqMessage_nack, perform.
    destruct (respond unit (trace b) (message_nack (tag (_rabbitmq_message m)) false))
      as [[]|e']; [by eexists|]. destruct (transport_error e'); by eexists.
Qed.

(** C3.  [enqueue(m, delay=d)] always returns or raises.  When it
    returns, what it returns is the copy of [m] that targets the delay
    queue [dq_name(m.queue_name)] and whose options carry [eta], the
    reading of the clock in milliseconds plus [d], over the options of
    [m]; the [message_id], [actor_name], [args] and [kwargs] of the copy
    are those of [m]; the last call made is the accepted [basic.publish]
    of the encoded copy to the delay queue through the default exchange,
    with [delivery_mode] 2 and the priority of the message or actor; and
    every publish attempted before it was the same.  With a registered
    actor and a library that answers every call, it does return. *)
Theorem enqueue_delayed (respond : oracle) (dq_name xq_name : string -> string)
    (message : Message.t) (d : Z) (b : RabbitmqBroker) :
  valid_max_priority (max_priority b) ->
  is_Some (enqueue respond dq_name xq_name message (Some d) b) /\
  (forall m b',
     enqueue respond dq_name xq_name message (Some d) b = Some (Ok m, b') ->
     exists actor now pre ch,
       actors b !! Message.actor_name message = Some actor /\
       respond Z (trace b) current_millis = Ok now /\
       m = Message.copy message (Some (dq_name (Message.queue_name message)))
             {["eta" := VInt (now + d)]} /\
       trace b' = trace b ++ pre ++
         [Ev (channel_basic_publish ch "" (dq_name (Message.queue_name message))
                (Message.encode m) (publish_properties message actor)) (Ok tt)] /\
       Forall (eq (enqueue_publication m (dq_name (Message.queue_name message))
                     (publish_properties message actor)))
         (publications pre) /\
       publish_properties message actor !! "delivery_mode" = Some (VInt 2) /\
       publish_properties message actor !! "priority"
       = Some (published_priority message actor) /\
       Message.queue_name m = dq_name (Message.queue_name message) /\
       Message.options m !! "eta" = Some (VInt (now + d)) /\
       (forall k, k <> "eta" -> Message.options m !! k = Message.options message !! k) /\
       Message.message_id m = Message.message_id message /\
       Message.actor_name m = Message.actor_name message /\
       Message.args m = Message.args message /\
       Message.kwargs m = Message.kwargs message) /\
  (cooperative respond ->
   is_Some (actors b !! Message.actor_name message) ->
   exists m b', enqueue respond dq_name xq_name message (Some d) b = Some (Ok m, b')).
Proof.
  intros Hv. split; [|split].
  - unfold enqueue.
    destruct (enqueue_prepare _ _ _ _ b) as [[[[m q] p]|e] b0]; [|by eexists].
    change (Z.to_nat MAX_ENQUEUE_ATTEMPTS) with 6%nat.
    apply enqueue_loop_terminates; unfold MAX_ENQUEUE_ATTEMPTS; lia.
  - intros m b' H. apply enqueue_run in H; [|done].
    destruct (actors b !! Message.actor_name message) as [actor|]; [|by destruct H].
    destruct H as (evs & Htr & Hall & O).
    destruct (O _ eq_refl) as (_ & (now & Hnow & ->) & Hbody & pre & ch & ->).
    exists actor, now, pre, ch. cbn [routing_key] in *.
    assert (Hpre : Forall (eq (enqueue_publication
                     (Message.copy message (Some (dq_name (Message.queue_name message)))
                        {["eta" := VInt (now + d)]})
                     (dq_name (Message.queue_name message))
                     (publish_properties message actor))) (publications pre)).
    { unfold publications in *. rewrite omap_app in Hall, Hbody.
      apply Forall_app in Hall as [Hall _]. apply Forall_app in Hbody as [Hbody _].
      apply Forall_forall. intros p Hp.
      rewrite Forall_forall in Hall, Hbody.
      destruct (Hall p Hp) as (Hx & Hk & Hprops). specialize (Hbody p Hp).
      destruct p. cbn [pub_exchange pub_routing_key pub_body pub_properties] in *.
      unfold enqueue_publication. by subst. }
    assert (Hmode : publish_properties message actor !! "delivery_mode" = Some (VInt 2)).
    { unfold publish_properties. by rewrite lookup_insert_ne, lookup_singleton_eq. }
    assert (Hprio : publish_properties message actor !! "priority"
                    = Some (published_priority message actor)).
    { unfold publish_properties. by rewrite lookup_insert_eq. }
    assert (Heta : ({["eta" := VInt (now + d)]} ∪ Message.options message : gmap string value)
                   !! "eta" = Some (VInt (now + d))).
    { apply lookup_union_Some_l, lookup_singleton_eq. }
    assert (Hother : forall k, k <> "eta" ->
              ({["eta" := VInt (now + d)]} ∪ Message.options message : gmap string value)
              !! k = Message.options message !! k).
    { intros k Hk. rewrite lookup_union_r; [done|]. by apply lookup_singleton_ne. }
    repeat match goal with |- _ /\ _ => split end; done.
  - intros Hcoop [actor Hactor]. unfold enqueue. rewrite enqueue_prepare_run, Hactor.
    cbn zeta. destruct (Hcoop Z (trace b) current_millis) as [now ->].
    destruct (enqueue_loop_first respond dq_name xq_name Hcoop 5 1
                (Message.copy message (Some (dq_name (Message.queue_name message)))
                   {["eta" := VInt (now + d)]})
                (dq_name (Message.queue_name message)) (publish_properties message actor)
                (Some d)
                (set_trace (trace b ++ [Ev current_millis (Ok now)]) b)) as (b' & _ & Hb').
    eauto.
Qed.

Lemma calm_cooperative : cooperative calm.
Proof. intros T h c. destruct c; by eexists. Qed.

Lemma enqueue_delayed_witness :
  valid_max_priority (max_priority example_broker) /\
  exists m b',
    enqueue calm spec_dq_name spec_xq_name example_message (Some 500) example_broker
    = Some (Ok m, b') /\
    Message.queue_name m = "default.DQ" /\
    Message.options m !! "eta" = Some (VInt 1500).
Proof.
  assert (Hv : valid_max_priority (max_priority example_broker))
    by (change (max_priority example_broker) with (Some 10); cbn; lia).
  split; [exact Hv|].
  destruct (enqueue_delayed calm spec_dq_name spec_xq_name example_message 500
              example_broker Hv) as (_ & Hok & Hruns).
  destruct (Hruns calm_cooperative) as (m & b' & Hrun); [by eexists; vm_compute|].
  exists m, b'. split; [exact Hrun|].
  destruct (Hok m b' Hrun) as (actor & now & pre & ch & _ & Hnow & _ & _ & _ & _ & _
                               & Hq & Heta & _).
  injection Hnow as <-. split; [exact Hq|exact Heta].
Defined.

(** C1.  Decoding the wire body that encodes a message gives back that
    message: the same [message_id], [actor_name], [queue_name], [args],
    [kwargs] and [options] mapping.  The order of keys plays no part: a
    body that writes the entries of its dictionaries in any order decodes
    to the same message, and so do the encodings of two messages whose
    options were filled in different orders.  The message a consumer wraps
    from a published body is the message [enqueue] returned. *)
Theorem decode_encode_roundtrip :
  (forall m : Message.t, Message.decode (Message.encode m) = Some m) /\
  (forall (m : Message.t) (w : wire),
     encodes (VDict (Message.asdict m)) w -> Message.decode w = Some m) /\
  (forall q a xs kw i (es es' : list (string * value)),
     NoDup es.*1 -> es ≡ₚ es' ->
     Message.decode (Message.encode (Message.Message q a xs kw (list_to_map es) i))
     = Some (Message.Message q a xs kw (list_to_map es') i)) /\
  (forall (m : Message.t) (t : delivery_tag),
     _RabbitmqMessage__init__ {| body := Message.encode m; tag := t |}
     = Ok {| _message := m;
             _rabbitmq_message := {| body := Message.encode m; tag := t |} |}) /\
  (forall (respond : oracle) (dq_name xq_name : string -> string) message delay b m b',
     valid_max_priority (max_priority b) ->
     enqueue respond dq_name xq_name message delay b = Some (Ok m, b') ->
     exists pre ch x k p published,
       trace b' = trace b ++ pre ++ [Ev (channel_basic_publish ch x k published p) (Ok tt)] /\
       forall t, _RabbitmqMessage__init__ {| body := published; tag := t |}
                 = Ok {| _message := m;
                         _rabbitmq_message := {| body := published; tag := t |} |}).
Proof.
  split; [exact decode_encode|]. split; [exact decode_encodes|]. split; [|split].
  - intros q a xs kw i es es' Hnodup Hperm.
    rewrite decode_encode. do 2 f_equal. by apply list_to_map_proper.
  - intros m t. unfold _RabbitmqMessage__init__. cbn [body]. by rewrite decode_encode.
  - intros respond dq_name xq_name message delay b m b' Hv H.
    apply enqueue_run in H; [|done].
    destruct (actors b !! Message.actor_name message) as [actor|]; [|by destruct H].
    destruct H as (evs & Htr & _ & O).
    destruct (O _ eq_refl) as (_ & _ & _ & pre & ch & ->).
    eexists pre, ch, _, _, _, (Message.encode m). split; [exact Htr|].
    intros t. unfold _RabbitmqMessage__init__. cbn [body]. by rewrite decode_encode.
Qed.

(** The same on a message, computed. *)
Example decode_encode_example :
  Message.decode (Message.encode example_message) = Some example_message /\
  Message.decode
    [TDict 6;
     TStr "queue_name"; TStr "default"; TStr "actor_name"; TStr "add";
     TStr "args"; TList 2; TInt 1; TInt 2; TStr "kwargs"; TDict 0;
     TStr "options"; TDict 1; TStr "max_retries"; TInt 3;
     TStr "message_id"; TStr "id-1"]
  = Some example_message.
Proof. split; vm_compute; reflexivity. Qed.

(** C4.  On a broker whose [max_priority] is one the constructor accepts,
    topology declaration declares, for every recorded queue name [Q] and
    in this order, the three durable queues [Q], [dq_name(Q)] and
    [xq_name(Q)], and nothing else; [Q] and [dq_name(Q)] with
    [x-dead-letter-exchange] set to the empty string and
    [x-dead-letter-routing-key] set to [xq_name(Q)], and with
    [x-max-priority] exactly when [max_priority] is set; [xq_name(Q)] with
    [x-message-ttl].  A run that is cut short by an error has declared
    only queues of that list.  With a library that answers every call the
    run completes.  The constructor hands out only such brokers. *)
Theorem topology_declared (respond : oracle) (dq_name xq_name : string -> string)
    (b : RabbitmqBroker) :
  valid_max_priority (max_priority b) ->
  (forall r b',
     _declare_rabbitmq_queues respond dq_name xq_name b = (r, b') ->
     exists evs,
       trace b' = trace b ++ evs /\
       Forall (fun d => exists q, q ∈ queues b /\
                                  d ∈ topology dq_name xq_name (max_priority b) q)
         (declarations evs) /\
       (r = Ok tt ->
        declarations evs
        = concat (topology dq_name xq_name (max_priority b) <$> elements (queues b)))) /\
  NoDup (elements (queues b)) /\
  (forall q, q ∈ elements (queues b) <-> q ∈ queues b) /\
  (cooperative respond ->
   (_declare_rabbitmq_queues respond dq_name xq_name b).1 = Ok tt) /\
  (forall q, exists arguments : gmap string value,
     topology dq_name xq_name (max_priority b) q
     = [ {| decl_queue := q; decl_durable := true; decl_arguments := arguments |};
         {| decl_queue := dq_name q; decl_durable := true; decl_arguments := arguments |};
         {| decl_queue := xq_name q; decl_durable := true;
            decl_arguments := {["x-message-ttl" := VInt DEAD_MESSAGE_TTL]} |} ] /\
     arguments !! "x-dead-letter-exchange" = Some (VStr "") /\
     arguments !! "x-dead-letter-routing-key" = Some (VStr (xq_name q)) /\
     (is_Some (arguments !! "x-max-priority") <-> is_Some (max_priority b)) /\
     (forall p, max_priority b = Some p -> arguments !! "x-max-priority" = Some (VInt p))) /\
  (forall confirm address mp b0,
     RabbitmqBroker__init__ confirm address mp = Ok b0 ->
     max_priority b0 = mp /\ valid_max_priority mp).
Proof.
  intros Hv. repeat match goal with |- _ /\ _ => split end.
  - intros r b' H. apply _declare_rabbitmq_queues_run in H as [F O]; [|done].
    destruct F as [_ _ _ _ _ _ _ (evs & Htr & Hall)]. exists evs.
    split; [done|]. split.
    + apply topologies_event_declarations in Hall.
      eapply Forall_impl; [exact Hall|]. intros d (q & Hq & Hd).
      exists q. split; [by apply elem_of_elements|done].
    + intros Hr. specialize (O Hr). rewrite Htr in O. unfold declarations in *.
      rewrite omap_app in O. by apply app_inv_head in O.
  - apply NoDup_elements.
  - intros q. apply elem_of_elements.
  - intros Hcoop.
    destruct (never_raises__declare_rabbitmq_queues respond dq_name xq_name Hcoop b)
      as [[] H]. exact H.
  - intros q. exists (queue_arguments (max_priority b) (xq_name q)).
    split; [done|]. unfold queue_arguments.
    destruct (max_priority b) as [p|].
    + split; [by simplify_map_eq|]. split; [by simplify_map_eq|].
      split; [split; intros _; by simplify_map_eq|].
      intros p' [= <-]. by simplify_map_eq.
    + split; [by simplify_map_eq|]. split; [by simplify_map_eq|].
      split; [|done]. split; intros [? H]; by simplify_map_eq.
  - intros confirm address mp b0 H. unfold RabbitmqBroker__init__ in H.
    destruct mp as [p|]; [|by injection H as <-].
    destruct (Z.ltb_spec 0 p), (Z.leb_spec p 255); cbn in H; try done.
    injection H as <-. by split.
Qed.

Lemma example_broker_valid : valid_max_priority (max_priority example_broker).
Proof. change (max_priority example_broker) with (Some 10). cbn. lia. Defined.

Lemma topology_declared_witness :
  valid_max_priority (max_priority example_broker) /\
  declarations (trace (_declare_rabbitmq_queues calm spec_dq_name spec_xq_name
                         example_broker).2)
  = topology spec_dq_name spec_xq_name (Some 10) "default".
Proof.
  split; [exact example_broker_valid|].
  destruct (topology_declared calm spec_dq_name spec_xq_name example_broker
              example_broker_valid) as (Hrun & _ & _ & Hcoop & _).
  destruct (_declare_rabbitmq_queues calm spec_dq_name spec_xq_name example_broker)
    as [r b'] eqn:H.
  destruct (Hrun r b' eq_refl) as (evs & Htr & _ & Hok).
  cbn [snd]. rewrite Htr.
  assert (Hr : r = Ok tt) by exact (Hcoop calm_cooperative).
  change (trace example_broker) with (@nil event). cbn [app].
  rewrite (Hok Hr). vm_compute. reflexivity.
Defined.

(** C6.  [declare_queue] only records: on a name that is new it adds the
    name to the queues of the broker (and the name of its delay queue to
    the delay queues) and emits the three declare hooks; on a name that is
    recorded it changes nothing and emits nothing, so a second call is
    without effect; in no case does it call the client library.  A broker
    fresh from the constructor on which any queues were declared has
    therefore made no call and holds no connection.  The queues are
    created by [enqueue] and by [consume]: [enqueue] declares nothing once
    [queues_declared] is set; a call that returns on a broker where it was
    not set has set it and has declared the topology of every recorded
    queue, and after that nothing more; with a library that answers every
    call this is all it declares.  [consume], when it returns, has declared
    the topology of every recorded queue. *)
Theorem declare_queue_lazy (respond : oracle) (dq_name xq_name : string -> string)
    (queue_name : string) (b : RabbitmqBroker) :
  valid_max_priority (max_priority b) ->
  let declared := concat (topology dq_name xq_name (max_priority b) <$> elements (queues b)) in
  (* a first call *)
  (queue_name ∉ queues b ->
   declare_queue dq_name queue_name b
   = (Ok tt,
      set_emitted (emitted b ++ [before_declare_queue queue_name;
                                 after_declare_queue queue_name;
                                 after_declare_delay_queue (dq_name queue_name)])
        (set_delay_queues ({[dq_name queue_name]} ∪ delay_queues b)
           (set_queues ({[queue_name]} ∪ queues b) b)))) /\
  (* a call on a recorded name, and so a second call *)
  (queue_name ∈ queues b -> declare_queue dq_name queue_name b = (Ok tt, b)) /\
  declare_queue dq_name queue_name (declare_queue dq_name queue_name b).2
  = (Ok tt, (declare_queue dq_name queue_name b).2) /\
  (* no work on the side of RabbitMQ *)
  trace (declare_queue dq_name queue_name b).2 = trace b /\
  _connection (declare_queue dq_name queue_name b).2 = _connection b /\
  (forall confirm address mp b0 (qs : list string),
     RabbitmqBroker__init__ confirm address mp = Ok b0 ->
     trace (foldl (fun b q => (declare_queue dq_name q b).2) b0 qs) = [] /\
     _connection (foldl (fun b q => (declare_queue dq_name q b).2) b0 qs) = None) /\
  (* enqueue declares once, under the flag *)
  (forall message delay r b',
     enqueue respond dq_name xq_name message delay b = Some (r, b') ->
     (queues_declared b = true -> declarations (trace b') = declarations (trace b)) /\
     (forall m, r = Ok m ->
        queues_declared b' = true /\
        (queues_declared b = false ->
         exists pre, declarations (trace b') = declarations (trace b) ++ pre ++ declared))) /\
  (forall message delay,
     cooperative respond ->
     is_Some (actors b !! Message.actor_name message) ->
     queues_declared b = false ->
     exists m b',
       enqueue respond dq_name xq_name message delay b = Some (Ok m, b') /\
       queues_declared b' = true /\
       declarations (trace b') = declarations (trace b) ++ declared) /\
  (* consume declares *)
  (forall consumed prefetch timeout c b',
     consume respond dq_name xq_name consumed prefetch timeout b = (Ok c, b') ->
     declarations (trace b') = declarations (trace b) ++ declared).
Proof.
  intros Hv declared. subst declared.
  destruct (declare_queue_quiet dq_name queue_name b) as (Htrace & Hconn & _ & _ & Hin).
  repeat match goal with |- _ /\ _ => split end.
  - apply declare_queue_new.
  - apply declare_queue_known.
  - by apply declare_queue_known.
  - exact Htrace.
  - exact Hconn.
  - intros confirm address mp b0 qs H.
    destruct (declare_queues_quiet dq_name qs b0) as [-> ->].
    unfold RabbitmqBroker__init__ in H.
    destruct (match mp with Some _ => _ | None => _ end); [done|]. by injection H as <-.
  - intros message delay r b' H. by eapply enqueue_declares.
  - intros message delay Hcoop [actor Hactor] Hflag.
    unfold enqueue. rewrite enqueue_prepare_run, Hactor.
    assert (Hfirst : forall m q b0 evs0,
              max_priority b0 = max_priority b -> queues b0 = queues b ->
              queues_declared b0 = false ->
              trace b0 = trace b ++ evs0 -> declarations evs0 = [] ->
              exists b',
                enqueue_loop respond dq_name xq_name (Z.to_nat MAX_ENQUEUE_ATTEMPTS) 1 m q
                  (publish_properties message actor) delay b0 = Some (Ok m, b') /\
                queues_declared b' = true /\
                declarations (trace b')
                = declarations (trace b)
                  ++ concat (topology dq_name xq_name (max_priority b) <$> elements (queues b))).
    { intros m q b0 evs0 Hmp Hqs Hflag0 Htr0 Hdecl0.
      destruct (enqueue_loop_first respond dq_name xq_name Hcoop 5 1 m q
                  (publish_properties message actor) delay b0) as (b' & Hattempt & Hloop).
      exists b'. split; [exact Hloop|].
      apply enqueue_attempt_run in Hattempt as (_ & _ & D & O); [|by rewrite Hmp].
      destruct (O _ eq_refl) as (_ & Hflag' & _). split; [done|].
      rewrite (D Hflag0 Hflag'), Hmp, Hqs, Htr0. unfold declarations in *.
      by rewrite omap_app, Hdecl0, app_nil_r. }
    destruct delay as [d|].
    + cbn zeta. destruct (Hcoop Z (trace b) current_millis) as [now ->].
      edestruct Hfirst as (b' & Hloop & Hflag' & Hdecl); [..|by eauto]; done.
    + edestruct (Hfirst message (Message.queue_name message) b [])
        as (b' & Hloop & Hflag' & Hdecl); [..|by eauto]; try done. by rewrite app_nil_r.
  - intros consumed prefetch timeout c b' H. by eapply consume_run.
Qed.

Lemma declare_queue_lazy_witness :
  valid_max_priority (max_priority example_new) /\
  declare_queue spec_dq_name "default"
    (declare_queue spec_dq_name "default" example_new).2
  = (Ok tt, (declare_queue spec_dq_name "default" example_new).2) /\
  emitted (declare_queue spec_dq_name "default" example_new).2
  = [before_declare_queue "default"; after_declare_queue "default";
     after_declare_delay_queue "default.DQ"].
Proof.
  assert (Hv : valid_max_priority (max_priority example_new)) by (cbn; lia).
  split; [exact Hv|].
  destruct (declare_queue_lazy calm spec_dq_name spec_xq_name "default" example_new Hv)
    as (Hnew & _ & Htwice & _).
  split; [exact Htwice|].
  rewrite Hnew; [reflexivity|]. apply not_elem_of_empty.
Defined.


(** * More of the adapter *)

(** ** The connection and the channel *)

(** X1.  The [connection] property hands out the cached connection, after
    one look at [is_closed], as long as it does not report closed, and
    changes nothing then.  When the cached connection reports closed, or
    when there is none, it opens one connection, to the URL of the broker,
    and caches it: what it returns is what is cached.  When it fails the
    cache is as it was.  It never closes a connection.  The first use of a
    broker fresh from the constructor opens the connection, to the URL it
    was given, or to the empty URL if it was given none.  The channel of
    the thread is left alone. *)
Theorem connection_cached_or_opened (respond : oracle) (b : RabbitmqBroker) :
  let run := connection respond b in
  (forall c,
     _connection b = Some c ->
     respond bool (trace b) (connection_is_closed c) = Ok false ->
     run = (Ok c, set_trace (trace b ++ [Ev (connection_is_closed c) (Ok false)]) b)) /\
  (forall c,
     _connection b = Some c ->
     respond bool (trace b) (connection_is_closed c) = Ok true ->
     let h := trace b ++ [Ev (connection_is_closed c) (Ok true)] in
     trace run.2 = h ++ [Ev (UriConnection (url b)) (respond conn h (UriConnection (url b)))]) /\
  (_connection b = None ->
   trace run.2
   = trace b ++ [Ev (UriConnection (url b)) (respond conn (trace b) (UriConnection (url b)))]) /\
  (forall confirm address mp b0,
     RabbitmqBroker__init__ confirm address mp = Ok b0 ->
     trace (connection respond b0).2
     = [Ev (UriConnection (default "" address))
          (respond conn [] (UriConnection (default "" address)))]) /\
  (forall c, run.1 = Ok c -> _connection run.2 = Some c) /\
  (forall e, run.1 = Raise e -> _connection run.2 = _connection b) /\
  (exists evs,
     trace run.2 = trace b ++ evs /\
     (openings evs = [] \/ openings evs = [url b]) /\
     Forall (fun ev => forall c, closes_connection c ev = false) evs) /\
  state_channel run.2 = state_channel b.
Proof.
  intros run. subst run. split.
  { intros c Hc Hclosed. unfold connection, bind, gets, perform. by rewrite Hc, Hclosed. }
  split.
  { intros c Hc Hclosed. unfold connection, open_connection, bind, gets, modify, perform, ret.
    rewrite Hc, Hclosed. cbn. by destruct (respond conn _ _). }
  split.
  { intros Hc. unfold connection, open_connection, bind, gets, modify, perform, ret.
    rewrite Hc. cbn. by destruct (respond conn _ _). }
  split.
  { intros confirm address mp b0 H. unfold RabbitmqBroker__init__ in H.
    destruct (match mp with Some _ => _ | None => _ end); [done|]. injection H as <-.
    unfold connection, open_connection, bind, gets, modify, perform, ret. cbn.
    by destruct address, (respond conn [] _). }
  unfold connection, open_connection, bind, gets, modify, perform, ret.
  destruct (_connection b) as [c0|] eqn:Hc; cbn;
    [destruct (respond bool (trace b) (connection_is_closed c0)) as [[]|e0]; cbn|];
    try destruct (respond conn _ (UriConnection (url b))) as [c1|e1]; cbn;
    repeat match goal with |- _ /\ _ => split end;
    try done; try (by intros ? [= <-]);
    (eexists; split; [by rewrite <-?app_assoc|]; cbn;
     split; [first [by left | by right]|]; by repeat constructor).
Qed.

(** X2.  [del self.connection] on a broker without a connection does
    nothing.  On a broker with one it calls [close] on it, once; if the
    call returns, or raises an [AMQPError] of any kind, the connection is
    forgotten and nothing is raised; any other exception is raised to the
    caller and the connection stays cached.  The channel of the thread and
    the flag [queues_declared] are left alone. *)
Theorem del_connection_closes_once (respond : oracle) (b : RabbitmqBroker) :
  let run := del_connection respond b in
  (_connection b = None -> run = (Ok tt, b)) /\
  (forall c,
     _connection b = Some c ->
     let r := respond unit (trace b) (connection_close c) in
     trace run.2 = trace b ++ [Ev (connection_close c) r] /\
     match r with
     | Ok _ => run.1 = Ok tt /\ _connection run.2 = None
     | Raise e =>
         if isinstance_AMQPError e
         then run.1 = Ok tt /\ _connection run.2 = None
         else run.1 = Raise e /\ _connection run.2 = Some c
     end) /\
  state_channel run.2 = state_channel b /\
  queues_declared run.2 = queues_declared b.
Proof.
  intros run. subst run. unfold del_connection, bind, try_except, gets, modify, perform.
  destruct b as [u cd mp [c|] qs sc qd acts dqs tr em lg]; cbn.
  - split; [done|]. split; [|by destruct (respond unit tr (connection_close c)) as [[]|[]]].
    intros ? [= <-].
    destruct (respond unit tr (connection_close c)) as [[]|e]; [done|]. by destruct e.
  - done.
Qed.

(** X3.  [del self.channel] on a thread without a channel does nothing:
    the [AttributeError] of the missing attribute is swallowed.  On a
    thread with a channel it calls [close] on it, once; if the call
    returns, or raises an [AMQPError] of any kind, the channel is forgotten
    and nothing is raised.  An [AttributeError] out of [close] is swallowed
    too, by the outer handler, but the channel then stays cached; any other
    exception is raised and the channel stays cached.  The connection and
    the flag [queues_declared] are left alone. *)
Theorem del_channel_closes_once (respond : oracle) (b : RabbitmqBroker) :
  let run := del_channel respond b in
  (state_channel b = None -> run = (Ok tt, b)) /\
  (forall ch,
     state_channel b = Some ch ->
     let r := respond unit (trace b) (channel_close ch) in
     trace run.2 = trace b ++ [Ev (channel_close ch) r] /\
     match r with
     | Ok _ => run.1 = Ok tt /\ state_channel run.2 = None
     | Raise e =>
         if isinstance_AMQPError e
         then run.1 = Ok tt /\ state_channel run.2 = None
         else if isinstance_AttributeError e
              then run.1 = Ok tt /\ state_channel run.2 = Some ch
              else run.1 = Raise e /\ state_channel run.2 = Some ch
     end) /\
  _connection run.2 = _connection b /\
  queues_declared run.2 = queues_declared b.
Proof.
  intros run. subst run. unfold del_channel, bind, try_except, gets, modify, perform.
  destruct b as [u cd mp c qs [ch|] qd acts dqs tr em lg]; cbn.
  - split; [done|]. split; [|by destruct (respond unit tr (channel_close ch)) as [[]|[]]].
    intros ? [= <-].
    destruct (respond unit tr (channel_close ch)) as [[]|e]; [done|]. by destruct e.
  - done.
Qed.

(** X4.  [close] never raises, and the broker holds no connection
    afterwards.  It makes one call at most, [close] on the cached
    connection, and none on a broker without a connection, so that a
    second [close] calls nothing.  It logs its two messages, first and
    last.  The channel of the thread stays cached, and the recorded queues
    and the flag [queues_declared] are as they were. *)
Theorem close_never_raises (respond : oracle) (b : RabbitmqBroker) :
  let run := close respond b in
  run.1 = Ok tt /\
  _connection run.2 = None /\
  trace run.2
  = trace b ++ match _connection b with
               | Some c => [Ev (connection_close c) (respond unit (trace b) (connection_close c))]
               | None => []
               end /\
  state_channel run.2 = state_channel b /\
  queues run.2 = queues b /\
  queues_declared run.2 = queues_declared b /\
  (exists mid,
     logged run.2
     = logged b ++ [log_debug "Closing channels and connection..."] ++ mid
       ++ [log_debug "Channels and connections closed."]) /\
  (close respond run.2).1 = Ok tt /\
  trace (close respond run.2).2 = trace run.2.
Proof.
  intros run. subst run.
  unfold close, del_connection, logger, bind, try_except, gets, modify, perform.
  destruct b as [u cd mp [c|] qs sc qd acts dqs tr em lg]; cbn;
    [destruct (respond unit tr (connection_close c)) as [[]|e]; cbn;
     [|destruct (isinstance_AMQPError e); cbn]|];
    repeat match goal with |- _ /\ _ => split end;
    try done; try (by rewrite app_nil_r);
    first [exists []; by rewrite <-!app_assoc | eexists [_]; by rewrite <-!app_assoc].
Qed.

(** The next answer of the library the goal depends on, by cases. *)
Ltac answer :=
  match goal with
  | |- context [match ?r with Ok _ => _ | Raise _ => _ end] =>
      destruct r as [?|?] eqn:?; cbn
  end.

Ltac opened_after := split; [reflexivity|split; [|reflexivity]; reflexivity].

(** X5.  The [channel] property hands out the channel cached for the
    thread, after one look at [is_closed], as long as it does not report
    closed, and changes nothing then.  Otherwise the channel it returns is
    a new one, opened on the connection the broker caches from then on, and
    with [confirm_delivery] put in confirm mode right after it was opened
    and before it is cached; what it returns is what is cached.  When it
    fails the cache is as it was.  Without [confirm_delivery] no channel is
    ever put in confirm mode. *)
Theorem channel_cached_or_opened (respond : oracle) (b : RabbitmqBroker) :
  let run := channel respond b in
  (forall ch,
     state_channel b = Some ch ->
     respond bool (trace b) (channel_is_closed ch) = Ok false ->
     run = (Ok ch, set_trace (trace b ++ [Ev (channel_is_closed ch) (Ok false)]) b)) /\
  (forall ch, run.1 = Ok ch -> state_channel run.2 = Some ch) /\
  (forall e, run.1 = Raise e -> state_channel run.2 = state_channel b) /\
  (exists evs,
     trace run.2 = trace b ++ evs /\
     (confirm_delivery b = false -> confirmations evs = []) /\
     (forall ch, run.1 = Ok ch ->
        (state_channel b = Some ch /\ evs = [Ev (channel_is_closed ch) (Ok false)]) \/
        (exists pre c,
           _connection run.2 = Some c /\
           confirmations pre = [] /\
           evs = pre ++ Ev (connection_channel c) (Ok ch)
                 :: (if confirm_delivery b
                     then [Ev (channel_confirm_deliveries ch) (Ok tt)] else [])))).
Proof.
  intros run. subst run. split.
  { intros c Hc Hclosed. unfold channel, bind, gets, perform. by rewrite Hc, Hclosed. }
  unfold channel, open_channel, connection, open_connection, bind, gets, modify, perform, ret.
  destruct b as [u cd mp c qs sc qd acts dqs tr em lg]; cbn.
  destruct sc as [ch0|]; cbn; [answer; [match goal with x : bool |- _ => destruct x end|]|];
    cbn.
  all: destruct c as [c0|]; cbn;
    try (answer; [match goal with x : bool |- _ => destruct x end|]); cbn.
  all: repeat answer.
  all: destruct cd; cbn; repeat answer.
  all: repeat match goal with |- _ /\ _ => split end; try done; try (by intros ? [= <-]).
  all: eexists; split; [by rewrite <-?app_assoc|]; cbn; split; [try done|].
  all: try (intros ? [=]; fail).
  all: try (intros ? [= <-]; first [left; done | right]).
  all: repeat match goal with x : unit |- _ => destruct x end.
  all: first [ solve [eexists [], _; opened_after]
             | solve [eexists [_], _; opened_after]
             | solve [eexists [_; _], _; opened_after]
             | solve [eexists [_; _; _], _; opened_after] ].
Qed.

(** ** Errors that pass through *)

Lemma last_raised_app evs1 evs2 e :
  last_raised evs2 = Some e -> last_raised (evs1 ++ evs2) = Some e.
Proof.
  unfold last_raised. rewrite last_app. by destruct (last evs2).
Qed.

Lemma observed_ret {A : Type} P (a : A) : observed P (ret a).
Proof. intros b. exists []. by rewrite app_nil_r. Qed.

Lemma observed_gets {A : Type} P (f : RabbitmqBroker -> A) : observed P (gets f).
Proof. intros b. exists []. by rewrite app_nil_r. Qed.

Lemma observed_modify P (f : RabbitmqBroker -> RabbitmqBroker) :
  (forall b, trace (f b) = trace b) -> observed P (modify f).
Proof. intros Hf b. exists []. cbn. by rewrite Hf, app_nil_r. Qed.

Lemma observed_perform {T : Type} (respond : oracle) (P : event -> Prop) (c : call T) :
  (forall r, P (Ev c r)) -> observed P (perform respond c).
Proof.
  intros HP b. exists [Ev c (respond T (trace b) c)]. cbn.
  split; [done|]. split; [by constructor|]. by intros e ->.
Qed.

Lemma observed_bind {A B : Type} P (m : M A) (k : A -> M B) :
  observed P m -> (forall a, observed P (k a)) -> observed P (bind m k).
Proof.
  intros Hm Hk b. destruct (Hm b) as (evs1 & Htr1 & HP1 & He1). unfold bind.
  destruct (m b) as [[a|e] b1]; cbn [fst snd] in *.
  - destruct (Hk a b1) as (evs2 & Htr2 & HP2 & He2).
    exists (evs1 ++ evs2). rewrite Htr2, Htr1, <-app_assoc.
    split; [done|]. split; [by apply Forall_app|].
    intros e He. by apply last_raised_app, He2.
  - exists evs1. split; [done|]. split; [done|]. intros e' [= <-]. by apply He1.
Qed.

Lemma observed_for_each {A : Type} P (xs : list A) (body : A -> M unit) :
  (forall x, observed P (body x)) -> observed P (for_each xs body).
Proof.
  intros Hbody. induction xs as [|x xs IH]; [apply observed_ret|].
  apply observed_bind; [apply Hbody|done].
Qed.

Lemma observed_weaken {A : Type} (P P' : event -> Prop) (m : M A) :
  (forall ev, P ev -> P' ev) -> observed P m -> observed P' m.
Proof.
  intros HP Hm b. destruct (Hm b) as (evs & Htr & Hall & He).
  exists evs. split; [done|]. split; [|done]. by eapply Forall_impl.
Qed.

Ltac observed_step respond :=
  first
    [ apply observed_ret | apply observed_gets
    | apply observed_modify; intros; reflexivity
    | apply (observed_perform respond); intros; solve [cbn; auto]
    | apply observed_bind; [|intros]
    | apply observed_for_each; intros
    | match goal with
      | |- observed _ (match ?x with _ => _ end) => destruct x
      | |- observed _ (if ?x then _ else _) => destruct x
      end ].

Section Observed.

Variable respond : oracle.
Variable dq_name : string -> string.
Variable xq_name : string -> string.

Lemma observed_connection : observed housekeeping (connection respond).
Proof. unfold connection, open_connection. repeat observed_step respond. Qed.

Lemma observed_channel : observed housekeeping (channel respond).
Proof.
  unfold channel, open_channel.
  repeat first [apply observed_connection | observed_step respond].
Qed.

End Observed.

Lemma yields_for_each {A B : Type} (f : event -> option B) (P : event -> Prop)
    (expected : A -> list B) (body : A -> M unit) (xs : list A) :
  (forall x, yields f P (expected x) (body x)) ->
  yields f P (concat (expected <$> xs)) (for_each xs body).
Proof.
  intros Hbody. induction xs as [|x xs IH]; intros b.
  { exists []. cbn. rewrite app_nil_r. by repeat split. }
  cbn [for_each fmap list_fmap concat]. unfold bind.
  destruct (Hbody x b) as (evs1 & Htr1 & HP1 & Hpre1 & Hok1 & He1).
  destruct (body x b) as [[[]|e] b1]; cbn [fst snd] in *.
  - destruct (IH b1) as (evs2 & Htr2 & HP2 & Hpre2 & Hok2 & He2).
    exists (evs1 ++ evs2). rewrite Htr2, Htr1, <-app_assoc, omap_app, (Hok1 eq_refl).
    split; [done|]. split; [by apply Forall_app|]. split; [by apply prefix_app|].
    split; [by intros ->%Hok2|]. intros e He. by apply last_raised_app, He2.
  - exists evs1. split; [done|]. split; [done|]. split; [by apply prefix_app_r|].
    split; [done|]. intros e' [= <-]. by apply He1.
Qed.

Lemma housekeeping_purge ev : housekeeping ev -> purge_of ev = None.
Proof. by destruct ev as [T [] r]. Qed.

Lemma housekeeping_harmless ev : housekeeping ev -> harmless ev.
Proof. by destruct ev as [T [] r]. Qed.

Lemma harmless_declarations evs : Forall harmless evs -> declarations evs = [].
Proof. apply omap_Forall_None. by intros ev [? ?]. Qed.

Lemma harmless_publications evs : Forall harmless evs -> publications evs = [].
Proof. apply omap_Forall_None. by intros ev [? ?]. Qed.

Section Flush.

Variable respond : oracle.
Variable dq_name : string -> string.
Variable xq_name : string -> string.

Lemma purge_yields (name : string) :
  yields purge_of harmless [name]
    (ch <- channel respond;; perform respond (channel_queue_purge ch name)).
Proof.
  intros b. unfold bind.
  destruct (observed_channel respond b) as (evs1 & Htr1 & HP1 & He1).
  assert (Hnone : omap purge_of evs1 = [])
    by (eapply omap_Forall_None; [apply housekeeping_purge|done]).
  destruct (channel respond b) as [[ch|e] b1]; cbn [fst snd] in *.
  - exists (evs1 ++ [Ev (channel_queue_purge ch name)
                       (respond unit (trace b1) (channel_queue_purge ch name))]).
    cbn. rewrite Htr1, <-app_assoc, omap_app, Hnone. cbn.
    split; [done|]. split.
    { apply Forall_app. split; [|by repeat constructor].
      eapply Forall_impl; [exact HP1|]. apply housekeeping_harmless. }
    split; [done|]. split; [done|].
    intros e He. apply last_raised_app. unfold last_raised. cbn.
    by rewrite He.
  - exists evs1. rewrite Hnone. split; [done|]. split.
    { eapply Forall_impl; [exact HP1|]. apply housekeeping_harmless. }
    split; [apply prefix_nil|]. split; [done|]. intros e' [= <-]. by apply He1.
Qed.

Lemma flush_yields (queue_name : string) :
  yields purge_of harmless (flushed dq_name xq_name queue_name)
    (flush respond dq_name xq_name queue_name).
Proof.
  apply (yields_for_each purge_of harmless (fun name => [name]) _
           [queue_name; dq_name queue_name; xq_name queue_name]).
  apply purge_yields.
Qed.

Lemma framed_flush (queue_name : string) :
  framed (fun _ => True) (flush respond dq_name xq_name queue_name).
Proof.
  unfold framed, flush.
  repeat first
    [ eapply framed_weaken; [|apply framed_channel]; done
    | apply framed_perform; intros; done
    | respects_step ].
Qed.

End Flush.

(** X6.  [flush] asks for the three queues of a name to be purged, the queue,
    its delay queue and its dead-letter queue, in that order, and stops at
    the first call that fails; [flush_all] does so for every recorded
    queue in turn, and on a broker without queues makes no call at all.
    Neither declares a queue nor publishes, neither changes what the
    broker records, and what they raise is what the failing call raised:
    the error is not turned into [ConnectionClosed]. *)
Theorem flush_purges_in_order (respond : oracle) (dq_name xq_name : string -> string)
    (b : RabbitmqBroker) :
  (forall queue_name,
     let run := flush respond dq_name xq_name queue_name b in
     exists evs,
       trace run.2 = trace b ++ evs /\
       purges evs `prefix_of` flushed dq_name xq_name queue_name /\
       (run.1 = Ok tt -> purges evs = flushed dq_name xq_name queue_name) /\
       (forall e, run.1 = Raise e -> last_raised evs = Some e) /\
       declarations evs = [] /\ publications evs = [] /\
       queues run.2 = queues b /\ delay_queues run.2 = delay_queues b) /\
  (let run := flush_all respond dq_name xq_name b in
   exists evs,
     trace run.2 = trace b ++ evs /\
     purges evs `prefix_of` concat (flushed dq_name xq_name <$> elements (queues b)) /\
     (run.1 = Ok tt ->
      purges evs = concat (flushed dq_name xq_name <$> elements (queues b))) /\
     (forall e, run.1 = Raise e -> last_raised evs = Some e) /\
     declarations evs = [] /\ publications evs = [] /\
     queues run.2 = queues b /\ delay_queues run.2 = delay_queues b) /\
  (queues b = ∅ -> flush_all respond dq_name xq_name b = (Ok tt, b)).
Proof.
  split; [|split].
  - intros queue_name run. subst run.
    destruct (flush_yields respond dq_name xq_name queue_name b)
      as (evs & Htr & HP & Hpre & Hok & He).
    destruct (framed_flush respond dq_name xq_name queue_name b)
      as [_ _ _ Hqs _ Hdqs _ _].
    exists evs. repeat match goal with |- _ /\ _ => split end; try done.
    + by apply harmless_declarations.
    + by apply harmless_publications.
  - intros run. subst run. unfold flush_all, bind, gets.
    destruct (yields_for_each purge_of harmless (flushed dq_name xq_name)
                (flush respond dq_name xq_name) (elements (queues b))
                (flush_yields respond dq_name xq_name) b)
      as (evs & Htr & HP & Hpre & Hok & He).
    assert (F : framed (fun _ => True)
                  (for_each (elements (queues b)) (flush respond dq_name xq_name))).
    { apply respects_for_each; [tc_solve|]. apply framed_flush. }
    destruct (F b) as [_ _ _ Hqs _ Hdqs _ _].
    exists evs. repeat match goal with |- _ /\ _ => split end; try done.
    + by apply harmless_declarations.
    + by apply harmless_publications.
  - intros Hqs. unfold flush_all, bind, gets. by rewrite Hqs, elements_empty.
Qed.

Section Counting.

Variable respond : oracle.
Variable dq_name : string -> string.
Variable xq_name : string -> string.

Lemma observed_get_queue_message_counts (queue_name : string) :
  observed (fun _ => True) (get_queue_message_counts respond dq_name xq_name queue_name).
Proof.
  unfold get_queue_message_counts, _declare_queue, _declare_dq_queue, _declare_xq_queue,
    _build_queue_arguments.
  repeat first
    [ eapply observed_weaken; [|apply observed_channel]; done
    | observed_step respond ].
Qed.

Lemma topology_event_purge mp queue_name ev :
  topology_event dq_name xq_name mp queue_name ev ->
  purge_of ev = None /\ publication_of ev = None.
Proof.
  intros [H|(d & _ & H)]; [by destruct ev as [T [] r]|].
  by destruct ev as [T [] r].
Qed.

End Counting.

(** X7.  [get_queue_message_counts] declares the three queues of the name it
    is given, as the topology has them, whether or not the broker records
    that name, and returns the message counts the three declarations were
    answered with, in that order.  It records nothing, publishes and purges
    nothing, and what it raises is what the failing call raised. *)
Theorem get_queue_message_counts_declares (respond : oracle)
    (dq_name xq_name : string -> string) (queue_name : string) (b : RabbitmqBroker) :
  valid_max_priority (max_priority b) ->
  let run := get_queue_message_counts respond dq_name xq_name queue_name b in
  exists evs,
    trace run.2 = trace b ++ evs /\
    Forall (fun d => d ∈ topology dq_name xq_name (max_priority b) queue_name)
      (declarations evs) /\
    (forall n1 n2 n3,
       run.1 = Ok (n1, n2, n3) ->
       declarations evs = topology dq_name xq_name (max_priority b) queue_name /\
       counts evs = [n1; n2; n3]) /\
    (forall e, run.1 = Raise e -> last_raised evs = Some e) /\
    publications evs = [] /\ purges evs = [] /\
    queues run.2 = queues b /\ delay_queues run.2 = delay_queues b.
Proof.
  intros Hv run. subst run.
  destruct (observed_get_queue_message_counts respond dq_name xq_name queue_name b)
    as (evs & Htr & _ & He).
  destruct (get_queue_message_counts respond dq_name xq_name queue_name b) as [r b'] eqn:H.
  apply get_queue_message_counts_run in H as [F O]; [|done].
  destruct F as [_ _ _ Hqs _ Hdqs _ (evs' & Htr' & Hall)].
  cbn [fst snd] in *.
  assert (evs' = evs) as -> by (rewrite Htr in Htr'; by apply app_inv_head in Htr').
  exists evs. repeat match goal with |- _ /\ _ => split end; try done.
  - eapply elem_of_omap_Forall; [|exact Hall].
    intros ev d [Hk|(d' & Hd' & Hev)] Hd; [by rewrite housekeeping_declaration in Hd|].
    congruence.
  - intros n1 n2 n3 Hr. destruct (O _ Hr) as [D C]. rewrite Htr in D, C.
    unfold declarations, counts in *. rewrite omap_app in D. rewrite omap_app in C.
    split; by eapply app_inv_head.
  - eapply omap_Forall_None; [|exact Hall].
    intros ev Hev. by apply (topology_event_purge dq_name xq_name) in Hev as [_ ?].
  - eapply omap_Forall_None; [|exact Hall].
    intros ev Hev. by apply (topology_event_purge dq_name xq_name) in Hev as [? _].
Qed.

Lemma get_queue_message_counts_declares_witness :
  valid_max_priority (max_priority example_broker) /\
  exists evs,
    trace (get_queue_message_counts draining spec_dq_name spec_xq_name "other"
             example_broker).2 = evs /\
    counts evs = [1; 1; 1] /\
    decl_queue <$> declarations evs = ["other"; "other.DQ"; "other.XQ"].
Proof.
  split; [exact example_broker_valid|].
  destruct (get_queue_message_counts_declares draining spec_dq_name spec_xq_name "other"
              example_broker example_broker_valid) as (evs & Htr & _ & Hok & _).
  exists evs. change (trace example_broker) with (@nil event) in Htr.
  split; [exact Htr|].
  destruct (Hok 1 1 1) as [Hd Hc]; [vm_compute; reflexivity|].
  split; [exact Hc|]. rewrite Hd. reflexivity.
Defined.

(** ** Consuming *)

Lemma closed_or_raised_not_transport (cause : exn) :
  transport_error (closed_or_raised cause) = false.
Proof. by destruct cause. Qed.

Section Consuming.

Variable respond : oracle.
Variable dq_name : string -> string.
Variable xq_name : string -> string.

Lemma connection_ok b c b' :
  connection respond b = (Ok c, b') -> _connection b' = Some c.
Proof.
  unfold connection, open_connection, bind, gets, modify, perform, ret.
  destruct (_connection b) as [c0|] eqn:Hc; cbn;
    [destruct (respond bool (trace b) (connection_is_closed c0)) as [[]|e0]; cbn|];
    try destruct (respond conn _ (UriConnection (url b))) as [c1|e1]; cbn;
    by intros [= <- <-].
Qed.

Lemma _RabbitmqConsumer__init___run c queue_name prefetch timeout b r b' :
  _RabbitmqConsumer__init__ respond c queue_name prefetch timeout b = (r, b') ->
  _connection b' = _connection b /\ state_channel b' = state_channel b /\
  queues_declared b' = queues_declared b /\ queues b' = queues b /\
  match r with
  | Ok consumer =>
      consumer_timeout consumer = timeout /\
      trace b' = trace b ++
        [Ev (connection_channel c) (Ok (consumer_channel consumer));
         Ev (channel_basic_qos (consumer_channel consumer) prefetch) (Ok tt);
         Ev (channel_basic_consume (consumer_channel consumer) queue_name false) (Ok tt)]
  | Raise e =>
      exists cause evs,
        e = closed_or_raised cause /\
        trace b' = trace b ++ evs /\ last_raised evs = Some cause
  end.
Proof.
  unfold _RabbitmqConsumer__init__, try_except, bind, perform, ret, raise. cbn.
  destruct (respond chan (trace b) (connection_channel c)) as [ch|e1] eqn:H1; cbn.
  2:{ unfold closed_or_raised.
      destruct (transport_error e1) eqn:Ht; cbn; intros [= <- <-]; cbn;
        (repeat split; try done); exists e1, [Ev (connection_channel c) (Raise e1)];
        by rewrite Ht. }
  destruct (respond unit _ (channel_basic_qos ch prefetch)) as [[]|e2] eqn:H2; cbn.
  2:{ unfold closed_or_raised.
      destruct (transport_error e2) eqn:Ht; cbn; intros [= <- <-]; cbn;
        (repeat split; try done); exists e2; eexists [_; _];
        by rewrite Ht, <-app_assoc. }
  destruct (respond unit _ (channel_basic_consume ch queue_name false)) as [[]|e3] eqn:H3;
    cbn.
  - intros [= <- <-]. cbn. by rewrite <-!app_assoc.
  - unfold closed_or_raised.
    destruct (transport_error e3) eqn:Ht; cbn; intros [= <- <-]; cbn;
      (repeat split; try done); exists e3; eexists [_; _; _];
      by rewrite Ht, <-!app_assoc.
Qed.

Lemma same_flag_consume queue_name prefetch timeout :
  respects same_flag (consume respond dq_name xq_name queue_name prefetch timeout).
Proof.
  unfold consume, _RabbitmqConsumer__init__.
  repeat first
    [ apply same_flag__declare_rabbitmq_queues | apply same_flag_connection
    | apply same_flag_del_connection | apply same_flag_del_channel
    | apply same_flag_perform | respects_step ].
Qed.

Lemma framed_consume queue_name prefetch timeout :
  framed (fun _ => True) (consume respond dq_name xq_name queue_name prefetch timeout).
Proof.
  unfold framed, consume, _RabbitmqConsumer__init__, _declare_rabbitmq_queues,
    _declare_queue, _declare_dq_queue, _declare_xq_queue, _build_queue_arguments.
  repeat first
    [ eapply framed_weaken; [|apply framed_channel]; done
    | eapply framed_weaken; [|apply framed_connection]; done
    | eapply framed_weaken; [|apply framed_del_connection]; done
    | eapply framed_weaken; [|apply framed_del_channel]; done
    | apply framed_perform; intros; done
    | respects_step ].
Qed.

End Consuming.

(** X8.  [consume], when it returns, has declared the topology of every
    recorded queue, made sure of the connection, and opened on it a channel
    of the consumer's own, on which it has set the prefetch count and
    subscribed to the queue with acknowledgements on ([no_ack=False]), in
    that order and as its last three calls.  The connection is the one the
    broker now caches; nothing was published or purged; the set of queues
    is as it was, and so is the flag [queues_declared]: what [consume]
    declares is declared again by the first [enqueue]. *)
Theorem consume_subscribes (respond : oracle) (dq_name xq_name : string -> string)
    (queue_name : string) (prefetch timeout : Z) (b : RabbitmqBroker)
    (consumer : _RabbitmqConsumer) (b' : RabbitmqBroker) :
  valid_max_priority (max_priority b) ->
  consume respond dq_name xq_name queue_name prefetch timeout b = (Ok consumer, b') ->
  exists pre c,
    trace b' = trace b ++ pre ++
      [Ev (connection_channel c) (Ok (consumer_channel consumer));
       Ev (channel_basic_qos (consumer_channel consumer) prefetch) (Ok tt);
       Ev (channel_basic_consume (consumer_channel consumer) queue_name false) (Ok tt)] /\
    _connection b' = Some c /\
    consumer_timeout consumer = timeout /\
    declarations pre
    = concat (topology dq_name xq_name (max_priority b) <$> elements (queues b)) /\
    publications pre = [] /\ purges pre = [] /\
    queues b' = queues b /\ queues_declared b' = queues_declared b.
Proof.
  intros Hv H.
  pose proof (same_flag_consume respond dq_name xq_name queue_name prefetch timeout b) as Hflag.
  pose proof (framed_consume respond dq_name xq_name queue_name prefetch timeout b) as Hframe.
  rewrite H in Hflag, Hframe. cbn [snd] in Hflag, Hframe. unfold same_flag in Hflag.
  unfold consume in H.
  apply bind_inv in H as [([] & b1 & H1 & H)|(e & _ & [=])].
  unfold try_except in H1.
  destruct (_declare_rabbitmq_queues respond dq_name xq_name b) as [[[]|e] b0] eqn:H0.
  2:{ destruct (transport_error e); [|done].
      apply bind_inv in H1 as [(? & ? & _ & [=])|(? & _ & [=])]. }
  injection H1 as <-.
  apply _declare_rabbitmq_queues_run in H0 as [F0 D0]; [|done].
  apply bind_inv in H as [(c & b2 & H2 & H)|(e & _ & [=])].
  pose proof (framed_connection respond b0) as F2. rewrite H2 in F2. cbn [snd] in F2.
  apply connection_ok in H2.
  apply _RabbitmqConsumer__init___run in H as (Hc & _ & _ & _ & Ht & Htr).
  destruct F0 as [_ _ _ _ _ _ _ (evs0 & Htr0 & Hall0)].
  destruct F2 as [_ _ _ _ _ _ _ (evs2 & Htr2 & Hall2)].
  exists (evs0 ++ evs2), c.
  split; [by rewrite Htr, Htr2, Htr0, <-!app_assoc|].
  split; [by rewrite Hc|]. split; [done|].
  assert (Hd2 : declarations evs2 = [])
    by (eapply omap_Forall_None; [apply housekeeping_declaration|done]).
  split.
  { specialize (D0 eq_refl). rewrite Htr0 in D0. unfold declarations in *.
    rewrite omap_app in D0. apply app_inv_head in D0.
    by rewrite omap_app, D0, Hd2, app_nil_r. }
  split.
  { unfold publications. rewrite omap_app.
    rewrite (omap_Forall_None publication_of _ evs0
               (fun ev H => proj1 (topologies_event_declaration dq_name xq_name _ _ ev H))
               Hall0).
    by rewrite (omap_Forall_None publication_of _ evs2 housekeeping_publication Hall2). }
  split.
  { unfold purges. rewrite omap_app.
    erewrite (omap_Forall_None purge_of _ evs0); [|clear; intros ev Hev|exact Hall0].
    - by rewrite (omap_Forall_None purge_of _ evs2 housekeeping_purge Hall2).
    - destruct Hev as [?|(q & d & _ & _ & Hev)]; by destruct ev as [T [] r]. }
  split; [apply Hframe|done].
Qed.

Lemma consume_subscribes_witness :
  valid_max_priority (max_priority example_broker) /\
  exists consumer b' pre c,
    consume calm spec_dq_name spec_xq_name "default" 1 5000 example_broker
    = (Ok consumer, b') /\
    trace b' = pre ++
      [Ev (connection_channel c) (Ok (consumer_channel consumer));
       Ev (channel_basic_qos (consumer_channel consumer) 1) (Ok tt);
       Ev (channel_basic_consume (consumer_channel consumer) "default" false) (Ok tt)] /\
    decl_queue <$> declarations pre = ["default"; "default.DQ"; "default.XQ"] /\
    queues_declared b' = false.
Proof.
  split; [exact example_broker_valid|].
  destruct (consume calm spec_dq_name spec_xq_name "default" 1 5000 example_broker)
    as [[consumer|e] b'] eqn:Hrun; [|by vm_compute in Hrun].
  destruct (consume_subscribes calm spec_dq_name spec_xq_name "default" 1 5000 example_broker
              consumer b' example_broker_valid Hrun)
    as (pre & c & Htr & _ & _ & Hd & _ & _ & _ & Hflag).
  exists consumer, b', pre, c. split; [reflexivity|]. split; [exact Htr|].
  split; [rewrite Hd; vm_compute; reflexivity|exact Hflag].
Defined.

(** X9.  The errors of [consume].  A connection-level or channel-level error
    of the declarations makes it drop the connection, or the channel, as
    [enqueue] does, and raise [ConnectionClosed] without a retry: no
    channel is opened for a consumer and nothing is subscribed to.  Any
    other error of the declarations is raised as it is.  An error of the
    [connection] property on the way to the consumer is raised as it is
    too, even a connection-level one: it is not turned into
    [ConnectionClosed].  An error while the consumer is set up is turned
    into [ConnectionClosed] if it is connection-level or channel-level. *)
Theorem consume_errors (respond : oracle) (dq_name xq_name : string -> string)
    (queue_name : string) (prefetch timeout : Z) (b : RabbitmqBroker) :
  let run := consume respond dq_name xq_name queue_name prefetch timeout b in
  (forall e b1,
     _declare_rabbitmq_queues respond dq_name xq_name b = (Raise e, b1) ->
     if transport_error e then
       let discarded := enqueue_discard respond e b1 in
       run.2 = discarded.2 /\
       run.1 = match discarded.1 with
               | Ok _ => Raise (ConnectionClosed e)
               | Raise e' => Raise e'
               end /\
       (exists evs, trace run.2 = trace b1 ++ evs /\ Forall housekeeping evs) /\
       (if isinstance_AMQPConnectionError e
        then state_channel run.2 = state_channel b1 /\
             (discarded.1 = Ok tt -> _connection run.2 = None)
        else _connection run.2 = _connection b1 /\
             (discarded.1 = Ok tt ->
              (forall ch, respond unit (trace b1) (channel_close ch) <> Raise AttributeError) ->
              state_channel run.2 = None))
     else run = (Raise e, b1)) /\
  (forall b1 e b2,
     _declare_rabbitmq_queues respond dq_name xq_name b = (Ok tt, b1) ->
     connection respond b1 = (Raise e, b2) ->
     run = (Raise e, b2)) /\
  (forall b1 c b2 cause,
     _declare_rabbitmq_queues respond dq_name xq_name b = (Ok tt, b1) ->
     connection respond b1 = (Ok c, b2) ->
     (_RabbitmqConsumer__init__ respond c queue_name prefetch timeout b2).1 = Raise cause ->
     run.1 = Raise cause /\ transport_error cause = false /\
     exists last_call, cause = closed_or_raised last_call).
Proof.
  intros run. subst run. split; [|split].
  - intros e b1 H0. unfold consume, bind, try_except. rewrite H0.
    destruct (transport_error e) eqn:Ht; [|done]. unfold raise.
    fold (enqueue_discard respond e). cbn zeta.
    destruct (enqueue_discard_framed respond e b1) as [_ _ _ _ _ _ _ Hevs].
    unfold enqueue_discard in *.
    destruct (isinstance_AMQPConnectionError e) eqn:Hconn.
    + destruct (del_connection respond b1) as [[[]|e'] b2] eqn:Hd;
        apply del_connection_run in Hd as (Hch & _ & Hnone); cbn [fst snd] in *;
        by repeat split.
    + destruct (del_channel respond b1) as [[[]|e'] b2] eqn:Hd;
        apply del_channel_run in Hd as (Hc & _ & Hnone); cbn [fst snd] in *;
        by repeat split.
  - intros b1 e b2 H0 H1. unfold consume, bind, try_except. by rewrite H0, H1.
  - intros b1 c b2 cause H0 H1 H2. unfold consume, bind, try_except. rewrite H0, H1.
    split; [done|].
    destruct (_RabbitmqConsumer__init__ respond c queue_name prefetch timeout b2)
      as [r b3] eqn:H3.
    apply _RabbitmqConsumer__init___run in H3 as (_ & _ & _ & _ & H3). cbn in H2. subst r.
    destruct H3 as (cause0 & evs & -> & _). split; [apply closed_or_raised_not_transport|].
    by exists cause0.
Qed.

(** An unreachable server makes [consume] raise the connection-level
    error as it is; a declaration that is rejected makes it raise
    [ConnectionClosed] and drop the channel. *)
Lemma consume_errors_witness :
  (consume unreachable spec_dq_name spec_xq_name "default" 1 5000 example_new).1
  = Raise AMQPConnectionError /\
  (consume declare_rejected spec_dq_name spec_xq_name "default" 1 5000 example_broker).1
  = Raise (ConnectionClosed AMQPChannelError) /\
  state_channel
    (consume declare_rejected spec_dq_name spec_xq_name "default" 1 5000 example_broker).2
  = None.
Proof.
  destruct (consume_errors unreachable spec_dq_name spec_xq_name "default" 1 5000 example_new)
    as (_ & Hraw & _).
  destruct (consume_errors declare_rejected spec_dq_name spec_xq_name "default" 1 5000
              example_broker) as (Hwrapped & _ & _).
  split; [|split].
  - by erewrite Hraw; [|vm_compute; reflexivity|vm_compute; reflexivity].
  - specialize (Hwrapped AMQPChannelError
                  (_declare_rabbitmq_queues declare_rejected spec_dq_name spec_xq_name
                     example_broker).2).
    destruct Hwrapped as (_ & -> & _); [vm_compute; reflexivity|].
    vm_compute. reflexivity.
  - vm_compute. reflexivity.
Defined.
(** ** The consumer *)

(** The floats of the examples are the floats Python computes: [0.1] is
    [1 / 10], [0.3] is [300 / 1000], and [0.1 + 0.2] is not [0.3]. *)
Example float_literals :
  truediv 1 10 = Ok tenth /\
  div1000 300 = Ok three_tenths /\
  float_add (S754_zero false) three_tenths = three_tenths /\
  float_lt three_tenths (float_add tenth (S754_finite false 7205759403792794 (-55))) = true.
Proof. repeat split; vm_compute; reflexivity. Qed.

(** What the loop of [__next__] did when it came to an end: idle turns,
    each begun before the deadline, and then a last turn. *)
Lemma next_loop_run (respond : consumer_oracle) fuel self deadline h r h' :
  next_loop respond fuel self deadline h = Some (r, h') ->
  exists ts evs,
    h' = h ++ concat (idle_turn self <$> ts) ++ evs /\
    Forall (fun t => float_lt t deadline = true) ts /\
    (length ts < fuel)%nat /\
    match r with
    | Ok None =>
        exists t, evs = [CEv (library time_monotonic) (Ok t)] /\ float_lt t deadline = false
    | Ok (Some m) =>
        exists t,
          evs = [CEv (library time_monotonic) (Ok t);
                 CEv (channel_build_inbound_messages (consumer_channel self) false true)
                   (Ok (Some m))] /\
          float_lt t deadline = true
    | Raise e =>
        last evs ≫= consumer_raised_of = Some e /\
        omap delivery_of evs = [] /\
        (length evs <= 3)%nat
    end.
Proof.
  revert h. induction fuel as [|fuel IH]; intros h H; [done|].
  cbn [next_loop] in H. unfold ask in H.
  destruct (respond float h (library time_monotonic)) as [now|e] eqn:Hnow.
  2:{ injection H as <- <-. exists [], [CEv (library time_monotonic) (Raise e)].
      cbn. split; [done|]. split; [done|]. split; [cbn [length]; lia|].
      repeat split; try done; cbn [length]; lia. }
  destruct (float_lt now deadline) eqn:Hlt.
  2:{ injection H as <- <-. exists [], [CEv (library time_monotonic) (Ok now)].
      cbn. split; [done|]. split; [done|]. split; [cbn [length]; lia|]. by exists now. }
  destruct (respond _ _ (channel_build_inbound_messages _ _ _)) as [[m|]|e] eqn:Hpoll.
  - injection H as <- <-. eexists [], _. cbn. rewrite <-app_assoc. cbn.
    split; [done|]. split; [done|]. split; [cbn [length]; lia|]. by exists now.
  - destruct (respond unit _ (library (time_sleep _))) as [[]|e] eqn:Hsleep.
    + apply IH in H as (ts & evs & -> & Hts & Hlen & Hr).
      exists (now :: ts), evs. cbn [fmap list_fmap concat idle_turn length].
      split; [by rewrite <-!app_assoc|]. split; [by constructor|].
      split; [cbn [length]; lia|done].
    + injection H as <- <-. eexists [], _. cbn. rewrite <-!app_assoc. cbn.
      split; [done|]. split; [done|]. split; [cbn [length]; lia|].
      repeat split; try done; cbn [length]; lia.
  - injection H as <- <-. eexists [], _. cbn. rewrite <-!app_assoc. cbn.
    split; [done|]. split; [done|]. split; [cbn [length]; lia|].
    repeat split; try done; cbn [length]; lia.
Qed.

(** X10.  [__next__], when it returns, has read the clock once to set its
    deadline, the float that the reading plus [timeout / 1000] is, both
    the quotient and the sum rounded as floats are, and then gone through
    a number of idle turns, in each of which the clock read below the
    deadline, the channel had no message and the thread slept [0.1]
    seconds.  It returns [None] when the clock, read at the head of a
    turn, does not read below the deadline; it returns a message as soon
    as the channel delivers one, without another look at the clock: the
    proxy of that very delivery, around its decoded body.  The channel is
    always asked with [auto_decode=False] and [break_on_empty=True]. *)
Theorem next_delivers_or_times_out (respond : consumer_oracle) (fuel : nat)
    (self : _RabbitmqConsumer) (h : list consumer_event)
    (res : option _RabbitmqMessage) (h' : list consumer_event) :
  __next__ respond fuel self h = Some (Ok res, h') ->
  exists t0 seconds ts t tail,
    let deadline := float_add t0 seconds in
    div1000 (consumer_timeout self) = Ok seconds /\
    h' = h ++ [CEv (library time_monotonic) (Ok t0)] ++ concat (idle_turn self <$> ts)
           ++ [CEv (library time_monotonic) (Ok t)] ++ tail /\
    (length ts < fuel)%nat /\
    Forall (fun t => float_lt t deadline = true) ts /\
    match res with
    | None => tail = [] /\ float_lt t deadline = false
    | Some proxy =>
        float_lt t deadline = true /\
        tail = [CEv (channel_build_inbound_messages (consumer_channel self) false true)
                  (Ok (Some (_rabbitmq_message proxy)))] /\
        Message.decode (body (_rabbitmq_message proxy)) = Some (_message proxy)
    end.
Proof.
  unfold __next__, ask. intros H.
  destruct (respond float h (library time_monotonic)) as [t0|e]; [|done].
  destruct (div1000 (consumer_timeout self)) as [seconds|e] eqn:Hdiv; [|done].
  cbn zeta in H.
  destruct (next_loop _ _ _ _ _) as [[[[m|]|e] h1]|] eqn:Hloop; try done.
  - unfold _RabbitmqMessage__init__ in H.
    destruct (Message.decode (body m)) as [d|] eqn:Hd; [|done]. injection H as <- <-.
    apply next_loop_run in Hloop as (ts & evs & -> & Hts & Hlen & t & -> & Ht).
    exists t0, seconds, ts, t,
      [CEv (channel_build_inbound_messages (consumer_channel self) false true)
         (Ok (Some m))].
    cbn zeta. split; [done|]. split; [by rewrite <-!app_assoc|]. by repeat split.
  - injection H as <- <-.
    apply next_loop_run in Hloop as (ts & evs & -> & Hts & Hlen & t & -> & Ht).
    exists t0, seconds, ts, t, []. cbn zeta.
    split; [done|]. split; [by rewrite <-!app_assoc|]. by repeat split.
Qed.

(** On a channel that delivers the example message at the second look,
    [__next__] returns its proxy after one idle turn.  And with a timeout
    of 300 milliseconds, on a clock that reads [0.0] and then [0.3],
    [__next__] returns [None] without asking the channel, where a message
    is waiting: the float [0.0 + 300 / 1000] is the float [0.3]. *)
Lemma next_delivers_or_times_out_witness :
  (exists proxy h',
     __next__ (second_look example_delivery) 5 example_consumer []
     = Some (Ok (Some proxy), h') /\
     _rabbitmq_message proxy = example_delivery /\
     Message.decode (Message.encode example_message) = Some (_message proxy) /\
     length h' = 6%nat) /\
  __next__ (waiting_three_tenths_later example_delivery) 5
    {| consumer_channel := 0%nat; consumer_timeout := 300 |} []
  = Some (Ok None, [CEv (library time_monotonic) (Ok (S754_zero false));
                    CEv (library time_monotonic) (Ok three_tenths)]).
Proof.
  split; [|vm_compute; reflexivity].
  assert (Hrun : exists proxy h',
            __next__ (second_look example_delivery) 5 example_consumer []
            = Some (Ok (Some proxy), h') /\
            _rabbitmq_message proxy = example_delivery /\ length h' = 6%nat).
  { eexists _, _. split; [vm_compute; reflexivity|]. split; reflexivity. }
  destruct Hrun as (proxy & h' & Hrun & Hm & Hlen).
  exists proxy, h'. split; [exact Hrun|]. split; [exact Hm|]. split; [|exact Hlen].
  destruct (next_delivers_or_times_out _ _ _ _ _ _ Hrun)
    as (t0 & seconds & ts & t & tail & _ & _ & _ & _ & _ & _ & Hd).
  rewrite Hm in Hd. exact Hd.
Defined.

(** Adding the float [0.0] to a deadline changes nothing about what is
    below it. *)
Lemma float_lt_add_zero (t x : float) :
  float_lt t (float_add x (S754_zero false)) = float_lt t x.
Proof.
  unfold float_lt, float_add, SFltb.
  by destruct x as [[]| | |].
Qed.

Lemma div1000_zero : div1000 0 = Ok (S754_zero false).
Proof. reflexivity. Qed.

(** Integer division raises nothing but [OverflowError], the divisor
    not being zero. *)
Lemma div1000_raises (n : Z) (e : exn) :
  div1000 n = Raise e -> e = OtherException "OverflowError".
Proof.
  unfold div1000, truediv. cbn [Z.eqb].
  destruct (SFdiv 53 1024 (unrounded n) (unrounded 1000)); congruence.
Qed.

Lemma next_loop_terminates (respond : consumer_oracle) (self : _RabbitmqConsumer)
    (deadline : float) (N : nat) :
  (forall h, (N <= length h)%nat ->
     exists now, respond float h (library time_monotonic) = Ok now /\
                 float_lt now deadline = false) ->
  forall fuel h,
    (N <= length h + fuel)%nat ->
    is_Some (next_loop respond (S fuel) self deadline h).
Proof.
  intros Hclock fuel. induction fuel as [|fuel IH]; intros h Hlen.
  - destruct (Hclock h) as (now & Hnow & Hle); [lia|].
    cbn [next_loop]. unfold ask. rewrite Hnow, Hle. by eexists.
  - cbn [next_loop]. unfold ask.
    destruct (respond float h (library time_monotonic)) as [now|e]; [|by eexists].
    destruct (float_lt now deadline); [|by eexists].
    destruct (respond _ _ (channel_build_inbound_messages _ _ _)) as [[m|]|e];
      [by eexists| |by eexists].
    destruct (respond unit _ (library (time_sleep _))) as [[]|e]; [|by eexists].
    apply IH. rewrite !length_app. cbn [length]. lia.
Qed.

(** X11.  With a timeout of 0 and a clock whose second reading is not
    below the first, [__next__] returns [None] after two readings of the
    clock and never asks the channel, whether or not a message is waiting:
    the deadline is the first reading.  And [__next__] comes to an end
    whenever the clock, from some point on, does not read below the
    deadline, the float that the first reading plus [timeout / 1000]
    is. *)
Theorem next_gives_up (respond : consumer_oracle) (self : _RabbitmqConsumer)
    (h : list consumer_event) :
  (forall fuel t0 t1,
     consumer_timeout self = 0 ->
     respond float h (library time_monotonic) = Ok t0 ->
     respond float (h ++ [CEv (library time_monotonic) (Ok t0)]) (library time_monotonic)
     = Ok t1 ->
     float_lt t1 t0 = false ->
     __next__ respond (S fuel) self h
     = Some (Ok None, h ++ [CEv (library time_monotonic) (Ok t0);
                            CEv (library time_monotonic) (Ok t1)])) /\
  (forall (N fuel : nat) t0 seconds,
     respond float h (library time_monotonic) = Ok t0 ->
     div1000 (consumer_timeout self) = Ok seconds ->
     (forall h1, (N <= length h1)%nat ->
        exists now, respond float h1 (library time_monotonic) = Ok now /\
                    float_lt now (float_add t0 seconds) = false) ->
     (N <= length h + 1 + fuel)%nat ->
     is_Some (__next__ respond (S fuel) self h)).
Proof.
  split.
  - intros fuel t0 t1 Htimeout Ht0 Ht1 Hle. unfold __next__, ask.
    rewrite Ht0, Htimeout, div1000_zero. cbn zeta.
    cbn [next_loop]. unfold ask. rewrite Ht1, float_lt_add_zero, Hle.
    by rewrite <-app_assoc.
  - intros N fuel t0 seconds Ht0 Hdiv Hclock Hlen. unfold __next__, ask.
    rewrite Ht0, Hdiv. cbn zeta.
    destruct (next_loop_terminates respond self _ N Hclock fuel
                (h ++ [CEv (library time_monotonic) (Ok t0)])) as [[r h1] ->].
    { rewrite length_app. cbn [length]. lia. }
    destruct r as [[m|]|e]; try by eexists.
    destruct (_RabbitmqMessage__init__ m); by eexists.
Qed.

(** A consumer with a timeout of 0 returns [None] at once, though the
    channel would deliver at the second look. *)
Lemma next_gives_up_witness :
  exists h',
    __next__ (second_look example_delivery) 7
      {| consumer_channel := 0%nat; consumer_timeout := 0 |} []
    = Some (Ok None, h') /\
    existsb polls h' = false.
Proof.
  destruct (next_gives_up (second_look example_delivery)
              {| consumer_channel := 0%nat; consumer_timeout := 0 |} []) as [Hquick _].
  eexists. split.
  - apply (Hquick 6%nat (S754_zero false) (S754_finite false 5764607523034235 (-59)));
      [done|reflexivity|vm_compute; reflexivity|reflexivity].
  - reflexivity.
Defined.

(** X12.  What the consumer raises.  Setting it up, waiting for a message
    and closing it raise nothing of their own: what they raise is what the
    last call they made raised, turned into [ConnectionClosed] if it is a
    connection-level or channel-level error and left as it is otherwise;
    and [__next__] raises the decoding error of a delivery whose body does
    not decode, the delivery being its last event, and the
    [OverflowError] of a timeout whose thousandth is too large for a
    float, right after its first reading of the clock.  So no
    connection-level or channel-level error ever leaves the consumer as
    such. *)
Theorem consumer_wraps_transport_errors (respond : oracle) (answer : consumer_oracle)
    (c : conn) (queue_name : string) (prefetch timeout : Z) (b : RabbitmqBroker)
    (fuel : nat) (self : _RabbitmqConsumer) (h : list consumer_event) :
  let made := _RabbitmqConsumer__init__ respond c queue_name prefetch timeout b in
  (forall e,
     made.1 = Raise e ->
     exists cause evs,
       e = closed_or_raised cause /\
       trace made.2 = trace b ++ evs /\ last_raised evs = Some cause) /\
  (forall e h',
     __next__ answer fuel self h = Some (Raise e, h') ->
     exists cause,
       e = closed_or_raised cause /\
       (last h' ≫= consumer_raised_of = Some cause \/
        (cause = DecodeError /\
         exists m, last h' ≫= delivery_of = Some m /\ Message.decode (body m) = None) \/
        (cause = OtherException "OverflowError" /\
         div1000 (consumer_timeout self) = Raise cause /\
         exists t0, h' = h ++ [CEv (library time_monotonic) (Ok t0)]))) /\
  (forall e,
     (consumer_close answer self h).1 = Raise e ->
     exists cause,
       e = closed_or_raised cause /\
       (consumer_close answer self h).2
       = h ++ [CEv (library (channel_close (consumer_channel self))) (Raise cause)]) /\
  (forall cause,
     transport_error (closed_or_raised cause) = false /\
     closed_or_raised cause
     = match cause with
       | AMQPConnectionError | AMQPChannelError => ConnectionClosed cause
       | _ => cause
       end).
Proof.
  intros made. subst made. split; [|split; [|split]].
  - unfold _RabbitmqConsumer__init__, try_except, bind, perform, ret, raise. cbn.
    destruct (respond chan (trace b) (connection_channel c)) as [ch|e1] eqn:H1; cbn.
    2:{ intros e He. exists e1, [Ev (connection_channel c) (Raise e1)].
        unfold closed_or_raised. destruct (transport_error e1); cbn in *; by injection He as <-. }
    destruct (respond unit _ (channel_basic_qos ch prefetch)) as [[]|e2] eqn:H2; cbn.
    2:{ intros e He. exists e2. eexists [_; _]. rewrite <-app_assoc.
        unfold closed_or_raised. destruct (transport_error e2); cbn in *; by injection He as <-. }
    destruct (respond unit _ (channel_basic_consume ch queue_name false)) as [[]|e3] eqn:H3;
      cbn; [done|].
    intros e He. exists e3. eexists [_; _; _]. rewrite <-!app_assoc.
    unfold closed_or_raised. destruct (transport_error e3); cbn in *; by injection He as <-.
  - intros e h'. unfold __next__, ask.
    destruct (answer float h (library time_monotonic)) as [t0|e0].
    2:{ intros [= <- <-]. exists e0. split; [done|]. left. by rewrite last_snoc. }
    destruct (div1000 (consumer_timeout self)) as [seconds|e0] eqn:Hdiv.
    2:{ intros [= <- <-]. exists e0. split; [done|]. right. right.
        split; [by eapply div1000_raises|]. split; [done|]. by exists t0. }
    cbn zeta.
    destruct (next_loop _ _ _ _ _) as [[[[m|]|e1] h1]|] eqn:Hloop; try done.
    + unfold _RabbitmqMessage__init__.
      destruct (Message.decode (body m)) as [d|] eqn:Hd; [done|]. intros [= <- <-].
      apply next_loop_run in Hloop as (ts & evs & -> & _ & _ & t & -> & _).
      exists DecodeError. split; [done|]. right. left. split; [done|]. exists m.
      split; [|done]. by rewrite !app_assoc, last_app.
    + intros [= <- <-].
      apply next_loop_run in Hloop as (ts & evs & -> & _ & _ & Hlast & _).
      exists e1. split; [done|]. left.
      destruct (last evs) as [ev|] eqn:Hev; [|done].
      by rewrite !app_assoc, last_app, Hev.
  - unfold consumer_close, ask.
    destruct (answer unit h _) as [[]|e0]; [done|]. intros e [= <-]. by exists e0.
  - intros cause. split; [apply closed_or_raised_not_transport|]. by destruct cause.
Qed.

(** ** More of [enqueue] *)

#[local] Instance silent_preorder : PreOrder silent.
Proof.
  split; [by intros b|].
  intros b1 b2 b3 [E1 P1] [E2 P2]. split; congruence.
Qed.

Section Hooks.

Variable respond : oracle.
Variable dq_name : string -> string.
Variable xq_name : string -> string.

Lemma silent_perform {T : Type} (c : call T) :
  (forall r, publication_of (Ev c r) = None) -> respects silent (perform respond c).
Proof.
  intros Hc b. split; [done|]. unfold perform, publications. cbn [snd trace set_trace].
  rewrite omap_app. cbn -[publication_of]. by rewrite Hc, app_nil_r.
Qed.

Lemma silent_logger r : respects silent (logger r).
Proof. by intros b. Qed.

Ltac silent_step :=
  first
    [ apply silent_logger
    | apply silent_perform; intros; reflexivity
    | apply respects_modify; intros; split; reflexivity
    | respects_step ].

Lemma silent_connection : respects silent (connection respond).
Proof. unfold connection, open_connection. repeat silent_step. Qed.

Lemma silent_channel : respects silent (channel respond).
Proof.
  unfold channel, open_channel.
  repeat first [apply silent_connection | silent_step].
Qed.

Lemma silent_enqueue_discard e : respects silent (enqueue_discard respond e).
Proof. unfold enqueue_discard, del_connection, del_channel. repeat silent_step. Qed.

Lemma silent__declare_rabbitmq_queues :
  respects silent (_declare_rabbitmq_queues respond dq_name xq_name).
Proof.
  unfold _declare_rabbitmq_queues, _declare_queue, _declare_dq_queue,
    _declare_xq_queue, _build_queue_arguments.
  repeat first [apply silent_channel | silent_step].
Qed.

Lemma publish_step_attempted message queue_name properties delay b :
  let run := publish_step respond message queue_name properties delay b in
  attempted message delay 1 run.1 b run.2.
Proof.
  unfold publish_step, bind, logger, emit, modify, attempted.
  cbn [fst snd].
  set (b0 := set_emitted _ _).
  assert (E0 : emitted b0 = emitted b ++ [before_enqueue message delay]) by done.
  assert (P0 : publications (trace b0) = publications (trace b)) by done.
  destruct (silent_channel b0) as [E P]. rewrite E0 in E. rewrite P0 in P.
  clearbody b0.
  destruct (channel respond b0) as [[ch|e] b1]; cbn [fst snd] in *.
  - unfold perform, ret.
    destruct (respond unit (trace b1) _) as [[]|e] eqn:Hpub;
      cbn [fst snd emitted trace set_emitted set_trace replicate].
    + split; [by rewrite E, <-app_assoc|]. split; [|by intros m [= <-]].
      eexists [_]. split; [|done]. unfold publications in *.
      rewrite omap_app, P. reflexivity.
    + split; [by rewrite E, app_nil_r|]. split; [|done].
      eexists [_]. split; [|done]. unfold publications in *.
      rewrite omap_app, P. reflexivity.
  - cbn [replicate]. split; [by rewrite E, app_nil_r|]. split; [|done].
    exists []. split; [by rewrite P, app_nil_r|]. cbn [length]. lia.
Qed.

Lemma enqueue_attempt_attempted message queue_name properties delay b :
  let run := enqueue_attempt respond dq_name xq_name message queue_name properties delay b in
  exists j, (j <= 1)%nat /\ attempted message delay j run.1 b run.2.
Proof.
  cbn zeta. rewrite enqueue_attempt_eq.
  destruct (queues_declared b); [exists 1%nat; split; [done|apply publish_step_attempted]|].
  unfold bind, modify.
  destruct (silent__declare_rabbitmq_queues b) as [E P].
  destruct (_declare_rabbitmq_queues respond dq_name xq_name b) as [[[]|e] b1];
    cbn [fst snd] in *.
  - pose proof (publish_step_attempted message queue_name properties delay
                  (set_queues_declared true b1)) as (He & Hp & Hok).
    exists 1%nat. split; [done|]. cbn [emitted trace set_queues_declared] in *.
    unfold attempted. by rewrite <-E, <-P.
  - exists 0%nat. split; [lia|]. unfold attempted. cbn [replicate app].
    split; [by rewrite E, app_nil_r|].
    split; [|done]. exists []. split; [by rewrite P, app_nil_r|]. cbn [length]. lia.
Qed.

Lemma enqueue_loop_attempted fuel attempts message queue_name properties delay b r b' :
  enqueue_loop respond dq_name xq_name fuel attempts message queue_name properties delay b
  = Some (r, b') ->
  exists k, (k <= fuel)%nat /\ attempted message delay k r b b'.
Proof.
  revert attempts b. induction fuel as [|fuel IH]; intros attempts b H; [done|].
  cbn [enqueue_loop] in H.
  destruct (enqueue_attempt_attempted message queue_name properties delay b)
    as (j & Hj & He & (ps & Hp & Hps) & Hok).
  destruct (enqueue_attempt _ _ _ _ _ _ _ b) as [[m|e] b1]; cbn [fst snd] in *.
  { injection H as <- <-. exists j. split; [lia|]. split; [done|]. split; [by exists ps|done]. }
  destruct (transport_error e).
  2:{ injection H as <- <-. exists j. split; [lia|]. split; [done|].
      split; [by exists ps|done]. }
  destruct (silent_enqueue_discard e b1) as [E2 P2].
  destruct (enqueue_discard respond e b1) as [[[]|e'] b2]; cbn [fst snd] in *.
  2:{ injection H as <- <-. exists j. split; [lia|]. split; [by rewrite E2|].
      split; [|done]. exists ps. by rewrite P2. }
  destruct (attempts + 1 >? MAX_ENQUEUE_ATTEMPTS).
  { injection H as <- <-. exists j. split; [lia|]. split; [by rewrite E2|].
    split; [|done]. exists ps. by rewrite P2. }
  cbn in H. apply IH in H as (k & Hk & He3 & (ps3 & Hp3 & Hps3) & Hok3).
  cbn [emitted trace set_logged] in *.
  exists (j + k)%nat. split; [lia|]. split; [|split].
  - rewrite He3, E2, He, app_nil_r, replicate_add. by rewrite <-!app_assoc.
  - exists (ps ++ ps3). rewrite Hp3, P2, Hp, length_app, <-app_assoc. split; [done|lia].
  - intros m Hm. destruct (Hok3 m Hm). split; [done|lia].
Qed.

End Hooks.

Section Cached.

Variable respond : oracle.
Variable dq_name : string -> string.
Variable xq_name : string -> string.

Lemma open_channel_ok b ch b' :
  open_channel respond b = (Ok ch, b') -> state_channel b' = Some ch.
Proof.
  unfold open_channel. intros H.
  apply bind_inv in H as [(c & b1 & _ & H)|(e & _ & [=])].
  apply bind_inv in H as [(ch1 & b2 & _ & H)|(e & _ & [=])].
  apply bind_inv in H as [(cf & b3 & _ & H)|(e & _ & [=])].
  apply bind_inv in H as [([] & b4 & _ & H)|(e & _ & [=])].
  apply bind_inv in H as [([] & b5 & H5 & H)|(e & _ & [=])].
  injection H as <- <-. by injection H5 as <-.
Qed.

Lemma channel_ok b ch b' :
  channel respond b = (Ok ch, b') -> state_channel b' = Some ch.
Proof.
  unfold channel. intros H.
  apply bind_inv in H as [(current & b1 & H1 & H)|(e & _ & [=])].
  injection H1 as <- <-.
  destruct (state_channel b) as [ch0|] eqn:Hch; [|by apply open_channel_ok in H].
  apply bind_inv in H as [([] & b2 & H2 & H)|(e & _ & [=])].
  - by apply open_channel_ok in H.
  - injection H as <- <-. by injection H2 as _ <-.
Qed.

Lemma publish_step_cached message queue_name properties delay b m b' :
  publish_step respond message queue_name properties delay b = (Ok m, b') ->
  last (trace b') ≫= publishing_channel_of = state_channel b'.
Proof.
  unfold publish_step. intros H.
  apply bind_inv in H as [([] & b1 & H1 & H)|(e & _ & [=])]. injection H1 as <-.
  apply bind_inv in H as [([] & b2 & H2 & H)|(e & _ & [=])]. injection H2 as <-.
  apply bind_inv in H as [(ch & b3 & H3 & H)|(e & _ & [=])].
  apply bind_inv in H as [([] & b4 & H4 & H)|(e & _ & [=])].
  injection H as <- <-. apply channel_ok in H3.
  injection H4 as Hr <-. cbn [trace state_channel set_emitted set_trace].
  by rewrite last_snoc.
Qed.

Lemma enqueue_attempt_cached message queue_name properties delay b m b' :
  enqueue_attempt respond dq_name xq_name message queue_name properties delay b = (Ok m, b') ->
  last (trace b') ≫= publishing_channel_of = state_channel b'.
Proof.
  rewrite enqueue_attempt_eq. destruct (queues_declared b).
  - apply publish_step_cached.
  - intros H. apply bind_inv in H as [([] & b1 & _ & H)|(e & _ & [=])].
    by apply publish_step_cached in H.
Qed.

Lemma enqueue_loop_cached fuel attempts message queue_name properties delay b m b' :
  enqueue_loop respond dq_name xq_name fuel attempts message queue_name properties delay b
  = Some (Ok m, b') ->
  last (trace b') ≫= publishing_channel_of = state_channel b'.
Proof.
  revert attempts b. induction fuel as [|fuel IH]; intros attempts b H; [done|].
  cbn [enqueue_loop] in H.
  destruct (enqueue_attempt _ _ _ _ _ _ _ b) as [[m0|e] b1] eqn:H1.
  { injection H as <- <-. by eapply enqueue_attempt_cached. }
  destruct (transport_error e); [|done].
  destruct (enqueue_discard respond e b1) as [[[]|e'] b2]; [|done].
  destruct (attempts + 1 >? MAX_ENQUEUE_ATTEMPTS); [done|].
  cbn in H. by apply IH in H.
Qed.

Lemma enqueue_event_reads_millis mp qs p ev :
  enqueue_event dq_name xq_name mp qs p ev -> reads_millis ev = false.
Proof.
  intros [[H|(q & d & _ & _ & H)]|H]; by destruct ev as [T [] r].
Qed.

Lemma declare_queue_max_priority queue_name b :
  max_priority (declare_queue dq_name queue_name b).2 = max_priority b.
Proof.
  destruct (decide (queue_name ∈ queues b)) as [Hin|Hnew].
  - by rewrite declare_queue_known.
  - by rewrite declare_queue_new.
Qed.

Lemma close_quiet b :
  queues_declared (close respond b).2 = queues_declared b /\
  max_priority (close respond b).2 = max_priority b /\
  queues (close respond b).2 = queues b /\
  declarations (trace (close respond b).2) = declarations (trace b).
Proof.
  unfold close, del_connection, logger, bind, try_except, gets, modify, perform.
  destruct b as [u cd mp [c|] qs sc qd acts dqs tr em lg]; cbn -[declarations];
    [destruct (respond unit tr (connection_close c)) as [[]|e]; cbn -[declarations];
     [|destruct (isinstance_AMQPError e); cbn -[declarations]]|];
    repeat split; unfold declarations; rewrite ?omap_app; cbn; by rewrite ?app_nil_r.
Qed.

End Cached.

(** X13.  [before_enqueue] is emitted once for every attempt that gets as far
    as the publish, so up to six times for one call of [enqueue], always
    with the message that is published; [after_enqueue] is emitted once, as
    the last hook, exactly when [enqueue] returns, with the message it
    returns.  There are no more publishes than [before_enqueue] hooks, and
    nothing else is emitted. *)
Theorem enqueue_hooks_per_attempt (respond : oracle) (dq_name xq_name : string -> string)
    (message : Message.t) (delay : option Z) (b : RabbitmqBroker)
    (r : result Message.t) (b' : RabbitmqBroker) :
  enqueue respond dq_name xq_name message delay b = Some (r, b') ->
  exists (k : nat) (sent : Message.t),
    emitted b' = emitted b ++ replicate k (before_enqueue sent delay)
                 ++ match r with Ok m => [after_enqueue m delay] | Raise _ => [] end /\
    (k <= 6)%nat /\
    (forall m, r = Ok m -> sent = m /\ (1 <= k)%nat) /\
    (delay = None -> sent = message) /\
    exists ps,
      publications (trace b') = publications (trace b) ++ ps /\ (length ps <= k)%nat.
Proof.
  unfold enqueue. rewrite enqueue_prepare_run. intros H.
  assert (Hnone : forall e b0,
            emitted b0 = emitted b -> publications (trace b0) = publications (trace b) ->
            exists (k : nat) (sent : Message.t),
              emitted b0 = emitted b ++ replicate k (before_enqueue sent delay)
                           ++ match @Raise Message.t e with
                              | Ok m => [after_enqueue m delay]
                              | Raise _ => []
                              end /\
              (k <= 6)%nat /\
              (forall m, @Raise Message.t e = Ok m -> sent = m /\ (1 <= k)%nat) /\
              (delay = None -> sent = message) /\
              exists ps,
                publications (trace b0) = publications (trace b) ++ ps /\
                (length ps <= k)%nat).
  { intros e b0 He Hp. exists 0%nat, message. cbn [replicate app].
    split; [by rewrite He, app_nil_r|]. split; [lia|]. split; [done|]. split; [done|].
    exists []. split; [by rewrite Hp, app_nil_r|]. cbn [length]. lia. }
  destruct (actors b !! Message.actor_name message) as [actor|].
  2:{ injection H as <- <-. by apply Hnone. }
  assert (Hloop : forall sent q b0,
            emitted b0 = emitted b -> publications (trace b0) = publications (trace b) ->
            (delay = None -> sent = message) ->
            enqueue_loop respond dq_name xq_name (Z.to_nat MAX_ENQUEUE_ATTEMPTS) 1 sent q
              (publish_properties message actor) delay b0 = Some (r, b') ->
            exists (k : nat) (sent : Message.t),
              emitted b' = emitted b ++ replicate k (before_enqueue sent delay)
                           ++ match r with
                              | Ok m => [after_enqueue m delay]
                              | Raise _ => []
                              end /\
              (k <= 6)%nat /\
              (forall m, r = Ok m -> sent = m /\ (1 <= k)%nat) /\
              (delay = None -> sent = message) /\
              exists ps,
                publications (trace b') = publications (trace b) ++ ps /\
                (length ps <= k)%nat).
  { intros sent q b0 He Hp Hsent Hrun.
    apply enqueue_loop_attempted in Hrun as (k & Hk & He' & Hp' & Hok).
    exists k, sent. rewrite <-He, <-Hp. split; [done|].
    split; [exact Hk|]. split; [|done].
    intros m Hm. destruct (Hok m Hm) as [-> ?]. by split. }
  destruct delay as [d|].
  - cbn zeta in H. destruct (respond Z (trace b) current_millis) as [now|e].
    + eapply Hloop; [..|exact H]; try done.
      cbn [trace set_trace]. unfold publications. rewrite omap_app. cbn.
      by rewrite app_nil_r.
    + injection H as <- <-. apply Hnone; [done|].
      cbn [trace set_trace]. unfold publications. rewrite omap_app. cbn.
      by rewrite app_nil_r.
  - by eapply Hloop; [..|exact H].
Qed.

(** On a library that refuses every publish, the one call of [enqueue]
    emits [before_enqueue] six times and [after_enqueue] not at all. *)
Lemma enqueue_hooks_per_attempt_witness :
  exists b',
    enqueue publish_refused spec_dq_name spec_xq_name example_message None example_broker
    = Some (Raise (ConnectionClosed AMQPConnectionError), b') /\
    emitted b' = emitted example_broker ++ replicate 6 (before_enqueue example_message None).
Proof.
  assert (Hrun : exists b',
            enqueue publish_refused spec_dq_name spec_xq_name example_message None
              example_broker
            = Some (Raise (ConnectionClosed AMQPConnectionError), b') /\
            length (emitted b') = 9%nat)
    by (eexists; split; vm_compute; reflexivity).
  destruct Hrun as (b' & Hrun & Hlen). exists b'. split; [exact Hrun|].
  destruct (enqueue_hooks_per_attempt _ _ _ _ _ _ _ _ Hrun)
    as (k & sent & He & Hk & _ & Hsent & _).
  rewrite (Hsent eq_refl) in He. rewrite He in Hlen |- *.
  rewrite !length_app, length_replicate in Hlen.
  change (length (emitted example_broker)) with 3%nat in Hlen. cbn [length] in Hlen.
  replace k with 6%nat by lia. by rewrite app_nil_r.
Defined.

(** X14.  [enqueue] without a delay returns the message it was given, having
    published its encoding through the default exchange to the message's
    own queue; it never asks for the time; every publish it attempted was
    that same publication; and the channel it leaves cached for the thread
    is the channel of the accepted publish. *)
Theorem enqueue_immediate (respond : oracle) (dq_name xq_name : string -> string)
    (message : Message.t) (actor : Actor) (b : RabbitmqBroker)
    (r : result Message.t) (b' : RabbitmqBroker) :
  valid_max_priority (max_priority b) ->
  actors b !! Message.actor_name message = Some actor ->
  enqueue respond dq_name xq_name message None b = Some (r, b') ->
  exists evs,
    trace b' = trace b ++ evs /\
    existsb reads_millis evs = false /\
    Forall (eq (enqueue_publication message (Message.queue_name message)
                  (publish_properties message actor)))
      (publications evs) /\
    (forall m,
       r = Ok m ->
       m = message /\
       exists pre ch,
         evs = pre ++
           [Ev (channel_basic_publish ch "" (Message.queue_name message)
                  (Message.encode message) (publish_properties message actor)) (Ok tt)] /\
         state_channel b' = Some ch).
Proof.
  intros Hv Hactor H. unfold enqueue in H. rewrite enqueue_prepare_run, Hactor in H.
  pose proof H as Hrun.
  apply enqueue_loop_run in H as (F & _ & O); [|done].
  destruct F as [_ _ _ _ _ _ _ (evs & Htr & Hall)].
  exists evs. split; [done|]. split.
  { clear -Hall. induction Hall as [|ev evs Hev _ IH]; [done|]. cbn.
    by rewrite (enqueue_event_reads_millis dq_name xq_name _ _ _ _ Hev). }
  split; [by eapply enqueue_event_publications|].
  intros m ->. destruct (O _ eq_refl) as (Hm & _ & (pre & ch & Htr') & _).
  split; [exact Hm|]. exists pre, ch.
  rewrite Htr in Htr'. apply app_inv_head in Htr'. split; [done|].
  apply enqueue_loop_cached in Hrun. rewrite Htr, Htr' in Hrun.
  by rewrite !app_assoc, last_snoc in Hrun.
Qed.

Lemma enqueue_immediate_witness :
  valid_max_priority (max_priority example_broker) /\
  exists b' ch,
    enqueue calm spec_dq_name spec_xq_name example_message None example_broker
    = Some (Ok example_message, b') /\
    state_channel b' = Some ch /\
    pub_routing_key <$> publications (trace b') = ["default"].
Proof.
  split; [exact example_broker_valid|].
  assert (Hrun : exists b',
            enqueue calm spec_dq_name spec_xq_name example_message None example_broker
            = Some (Ok example_message, b') /\
            pub_routing_key <$> publications (trace b') = ["default"])
    by (eexists; split; vm_compute; reflexivity).
  destruct Hrun as (b' & Hrun & Hkey).
  destruct (enqueue_immediate calm spec_dq_name spec_xq_name example_message example_actor
              example_broker (Ok example_message) b' example_broker_valid)
    as (evs & Htr & _ & _ & Hok); [vm_compute; reflexivity|exact Hrun|].
  destruct (Hok _ eq_refl) as (_ & pre & ch & Hevs & Hch).
  exists b', ch. split; [exact Hrun|]. split; [exact Hch|exact Hkey].
Defined.

(** X15.  Once [queues_declared] is set nothing unsets it: neither
    [declare_queue] nor [close] does.  A queue recorded after the first
    [enqueue] is therefore never declared by [enqueue], nor is anything
    declared again after [close]; [consume] does declare it. *)
Theorem late_queue_is_not_declared (respond : oracle) (dq_name xq_name : string -> string)
    (queue_name : string) (b : RabbitmqBroker) :
  valid_max_priority (max_priority b) ->
  queues_declared b = true ->
  let late := (declare_queue dq_name queue_name b).2 in
  queue_name ∈ queues late /\
  queues_declared late = true /\
  queues_declared (close respond late).2 = true /\
  (forall message delay r b',
     enqueue respond dq_name xq_name message delay late = Some (r, b') ->
     declarations (trace b') = declarations (trace b)) /\
  (forall message delay r b',
     enqueue respond dq_name xq_name message delay (close respond late).2 = Some (r, b') ->
     declarations (trace b') = declarations (trace b)) /\
  (forall consumed prefetch timeout c b',
     consume respond dq_name xq_name consumed prefetch timeout late = (Ok c, b') ->
     declarations (trace b')
     = declarations (trace b)
       ++ concat (topology dq_name xq_name (max_priority b) <$> elements (queues late))).
Proof.
  intros Hv Hflag late. subst late.
  destruct (declare_queue_quiet dq_name queue_name b) as (Htr & _ & _ & Hfl & Hin).
  pose proof (declare_queue_max_priority dq_name queue_name b) as Hmp.
  destruct (close_quiet respond (declare_queue dq_name queue_name b).2)
    as (Hcfl & Hcmp & _ & Hcd).
  repeat match goal with |- _ /\ _ => split end.
  - exact Hin.
  - congruence.
  - congruence.
  - intros message delay r b' H.
    apply enqueue_declares in H as [H _]; [|by rewrite Hmp].
    rewrite H by congruence. by rewrite Htr.
  - intros message delay r b' H.
    apply enqueue_declares in H as [H _]; [|by rewrite Hcmp, Hmp].
    rewrite H by congruence. by rewrite Hcd, Htr.
  - intros consumed prefetch timeout c b' H.
    apply consume_run in H; [|by rewrite Hmp]. by rewrite H, Htr, Hmp.
Qed.

(** After a first message went out, a queue is recorded and a message
    sent to it: the second [enqueue] returns without having declared
    anything. *)
Lemma late_queue_is_not_declared_witness :
  valid_max_priority (max_priority example_sent) /\
  queues_declared example_sent = true /\
  fst <$> enqueue calm spec_dq_name spec_xq_name example_message None
            (declare_queue spec_dq_name "late" example_sent).2
  = Some (Ok example_message) /\
  forall r b',
    enqueue calm spec_dq_name spec_xq_name example_message None
      (declare_queue spec_dq_name "late" example_sent).2 = Some (r, b') ->
    declarations (trace b') = declarations (trace example_sent).
Proof.
  assert (Hmp : max_priority example_sent = Some 10) by (vm_compute; reflexivity).
  assert (Hv : valid_max_priority (max_priority example_sent)) by (rewrite Hmp; cbn; lia).
  assert (Hflag : queues_declared example_sent = true) by (vm_compute; reflexivity).
  split; [exact Hv|]. split; [exact Hflag|]. split; [vm_compute; reflexivity|].
  destruct (late_queue_is_not_declared calm spec_dq_name spec_xq_name "late" example_sent
              Hv Hflag) as (_ & _ & _ & Hsame & _).
  intros r b'. apply Hsame.
Defined.

Section Leaks.

Variable respond : oracle.
Variable dq_name : string -> string.
Variable xq_name : string -> string.

Lemma enqueue_discard_raises e b e' b' :
  enqueue_discard respond e b = (Raise e', b') -> transport_error e' = false.
Proof.
  unfold enqueue_discard, del_connection, del_channel, bind, try_except, gets, modify,
    perform, raise, ret.
  destruct (isinstance_AMQPConnectionError e).
  - destruct (_connection b) as [c|]; cbn; [|done].
    destruct (respond unit (trace b) (connection_close c)) as [[]|e0]; cbn; [done|].
    destruct e0; cbn; by intros [= <- <-].
  - destruct (state_channel b) as [ch|]; cbn; [|done].
    destruct (respond unit (trace b) (channel_close ch)) as [[]|e0]; cbn; [done|].
    destruct e0; cbn; by intros [= <- <-].
Qed.

Lemma enqueue_loop_raises fuel attempts message queue_name properties delay b e b' :
  enqueue_loop respond dq_name xq_name fuel attempts message queue_name properties delay b
  = Some (Raise e, b') ->
  transport_error e = false.
Proof.
  revert attempts b. induction fuel as [|fuel IH]; intros attempts b H; [done|].
  cbn [enqueue_loop] in H.
  destruct (enqueue_attempt _ _ _ _ _ _ _ b) as [[m0|e0] b1]; [done|].
  destruct (transport_error e0) eqn:Ht; [|by injection H as <- <-].
  destruct (enqueue_discard respond e0 b1) as [[[]|e'] b2] eqn:Hd.
  2:{ injection H as <- <-. by eapply enqueue_discard_raises. }
  destruct (attempts + 1 >? MAX_ENQUEUE_ATTEMPTS); [by injection H as <- <-|].
  cbn in H. by apply IH in H.
Qed.

End Leaks.

(** X18.  No connection-level or channel-level error leaves [enqueue] as
    such: such an error of an attempt is retried or, after the sixth, turned
    into [ConnectionClosed], and closing a connection or a channel on the
    way lets none through.  What [enqueue] raises is [ConnectionClosed],
    the error of a missing actor, or an error of another kind, raised as it
    came; only the clock, read for a delay, could have its own error
    passed on. *)
Theorem enqueue_raises_no_transport_error (respond : oracle)
    (dq_name xq_name : string -> string) (message : Message.t) (delay : option Z)
    (b : RabbitmqBroker) (e : exn) (b' : RabbitmqBroker) :
  enqueue respond dq_name xq_name message delay b = Some (Raise e, b') ->
  transport_error e = false \/
  (exists d, delay = Some d /\ respond Z (trace b) current_millis = Raise e /\
             b' = set_trace (trace b ++ [Ev current_millis (Raise e)]) b).
Proof.
  unfold enqueue. rewrite enqueue_prepare_run.
  destruct (actors b !! Message.actor_name message) as [actor|];
    [|intros [= <- <-]; by left].
  destruct delay as [d|]; [|intros H; left; by eapply enqueue_loop_raises].
  cbn zeta. destruct (respond Z (trace b) current_millis) as [now|e0] eqn:Hnow.
  - intros H. left. by eapply enqueue_loop_raises.
  - intros [= <- <-]. right. by exists d.
Qed.

(** On a library that refuses every publish, what [enqueue] raises in the
    end is [ConnectionClosed], not the error of the library. *)
Lemma enqueue_raises_no_transport_error_witness :
  exists b',
    enqueue publish_refused spec_dq_name spec_xq_name example_message None example_broker
    = Some (Raise (ConnectionClosed AMQPConnectionError), b') /\
    transport_error (ConnectionClosed AMQPConnectionError) = false.
Proof.
  assert (Hrun : exists b',
            enqueue publish_refused spec_dq_name spec_xq_name example_message None
              example_broker
            = Some (Raise (ConnectionClosed AMQPConnectionError), b'))
    by (eexists; vm_compute; reflexivity).
  destruct Hrun as (b' & Hrun). exists b'. split; [exact Hrun|].
  destruct (enqueue_raises_no_transport_error _ _ _ _ _ _ _ _ Hrun)
    as [Hnone|(d & Hdelay & _)]; [exact Hnone|discriminate Hdelay].
Defined.
(** ** The queues a broker records *)

Lemma elem_of_first_declared (known : gset string) (qs : list string) (q : string) :
  q ∈ first_declared known qs <-> q ∈ qs /\ q ∉ known.
Proof.
  revert known. induction qs as [|q0 qs IH]; intros known; cbn [first_declared].
  { split; [by intros ?%elem_of_nil|by intros [?%elem_of_nil _]]. }
  case_decide as Hq0.
  - rewrite IH, elem_of_cons. split; [by intros [? ?]; split; [right|]|].
    intros [[->|?] ?]; [done|by split].
  - rewrite !elem_of_cons, IH. split.
    + intros [->|[? ?]]; [by split; [left|]|]. split; [by right|set_solver].
    + intros [[->|?] ?]; [by left|].
      destruct (decide (q = q0)) as [->|?]; [by left|]. right. split; [done|set_solver].
Qed.

Lemma NoDup_first_declared (known : gset string) (qs : list string) :
  NoDup (first_declared known qs).
Proof.
  revert known. induction qs as [|q0 qs IH]; intros known; cbn [first_declared].
  { constructor. }
  case_decide; [apply IH|]. constructor; [|apply IH].
  rewrite elem_of_first_declared. set_solver.
Qed.

(** X16.  [declare_queue] on a list of names, in order, leaves the broker
    recording exactly the names it recorded before and the names of the
    list, which is what [get_declared_queues] then returns, without
    changing the broker; a delay queue is recorded for every name that was
    new.  The hooks emitted are, for every name of the list that was not
    recorded, once, in the order in which these names first occur, and
    however often a name occurs: [before_declare_queue] and
    [after_declare_queue] with the name, then [after_declare_delay_queue]
    with the name of its delay queue; nothing else is emitted. *)
Theorem declared_queues_accumulate (dq_name : string -> string) (qs : list string)
    (b : RabbitmqBroker) :
  let b' := foldl (fun b q => (declare_queue dq_name q b).2) b qs in
  get_declared_queues b' = (Ok (queues b ∪ list_to_set qs), b') /\
  delay_queues b' = delay_queues b ∪ set_map dq_name (list_to_set qs ∖ queues b : gset string) /\
  length (emitted b')
  = (length (emitted b) + 3 * size (list_to_set qs ∖ queues b : gset string))%nat /\
  emitted b'
  = emitted b ++
    concat (declare_hooks dq_name <$> first_declared (queues b) qs) /\
  NoDup (first_declared (queues b) qs) /\
  (forall q, q ∈ first_declared (queues b) qs <-> q ∈ qs /\ q ∉ queues b).
Proof.
  intros b'. subst b'. unfold get_declared_queues, gets.
  split; [|split; [|split; [|split; [|split]]]];
    [..|apply NoDup_first_declared|intros q; apply elem_of_first_declared].
  all: revert b; induction qs as [|q qs IH]; intros b; cbn [foldl list_to_set first_declared].
  - f_equal; f_equal; set_solver.
  - specialize (IH (declare_queue dq_name q b).2).
    destruct (decide (q ∈ queues b)) as [Hin|Hnew].
    + rewrite (declare_queue_known dq_name q b Hin) in *. cbn [snd] in *.
      rewrite IH. f_equal. f_equal. set_solver.
    + rewrite (declare_queue_new dq_name q b Hnew) in *.
      cbn [snd queues set_emitted set_delay_queues set_queues] in *.
      rewrite IH. f_equal. f_equal. set_solver.
  - set_solver.
  - specialize (IH (declare_queue dq_name q b).2).
    destruct (decide (q ∈ queues b)) as [Hin|Hnew].
    + rewrite (declare_queue_known dq_name q b Hin) in *. cbn [snd] in *.
      rewrite IH. set_solver.
    + rewrite (declare_queue_new dq_name q b Hnew) in *.
      cbn [snd queues delay_queues set_emitted set_delay_queues set_queues] in *.
      rewrite IH. apply set_eq. intros x. destruct (decide (x = dq_name q)); set_solver.
  - replace (∅ ∖ queues b) with (∅ : gset string) by set_solver.
    rewrite size_empty. lia.
  - specialize (IH (declare_queue dq_name q b).2).
    destruct (decide (q ∈ queues b)) as [Hin|Hnew].
    + rewrite (declare_queue_known dq_name q b Hin) in *. cbn [snd] in *.
      replace (({[q]} ∪ list_to_set qs) ∖ queues b)
        with (list_to_set qs ∖ queues b : gset string) by set_solver.
      done.
    + rewrite (declare_queue_new dq_name q b Hnew) in *.
      cbn [snd queues delay_queues emitted set_emitted set_delay_queues set_queues] in *.
      assert (Hsplit : (({[q]} ∪ list_to_set qs) ∖ queues b : gset string)
                       = {[q]} ∪ (list_to_set qs ∖ ({[q]} ∪ queues b))).
      { apply set_eq. intros x. destruct (decide (x = q)); set_solver. }
      rewrite IH, Hsplit, length_app.
      pose proof (size_union (C:=gset string) {[q]} (list_to_set qs ∖ ({[q]} ∪ queues b)))
        as Hsize.
      rewrite Hsize, size_singleton by set_solver. cbn [length]. lia.
  - by rewrite app_nil_r.
  - specialize (IH (declare_queue dq_name q b).2).
    destruct (decide (q ∈ queues b)) as [Hin|Hnew].
    + rewrite (declare_queue_known dq_name q b Hin) in *. cbn [snd] in *.
      exact IH.
    + rewrite (declare_queue_new dq_name q b Hnew) in *.
      cbn [snd queues delay_queues emitted set_emitted set_delay_queues set_queues] in *.
      rewrite IH. cbn [fmap list_fmap concat declare_hooks].
      by rewrite <-!app_assoc.
Qed.
(** ** More of [join] *)

(** X17.  With [min_successes] at zero or below there is nothing to wait
    for: [join] returns at once, without sampling the queues or sleeping.
    Without a timeout, or with a timeout of 0, it makes no call at all;
    with any other timeout it reads the clock once, for the deadline, and
    returns even if that deadline has passed already.  The one exception
    is a timeout whose thousandth is too large for a float: the division
    then raises [OverflowError], after the clock was read. *)
Theorem join_returns_at_once (respond : oracle) (dq_name xq_name : string -> string)
    (fuel : nat) (queue_name : string) (min_successes idle_time : Z) (b : RabbitmqBroker) :
  min_successes <= 0 ->
  join respond dq_name xq_name fuel queue_name min_successes idle_time None b
  = Some (Ok tt, b) /\
  join respond dq_name xq_name fuel queue_name min_successes idle_time (Some 0) b
  = Some (Ok tt, b) /\
  (forall t now,
     t <> 0 ->
     respond float (trace b) time_monotonic = Ok now ->
     join respond dq_name xq_name fuel queue_name min_successes idle_time (Some t) b
     = Some (match div1000 t with
             | Ok _ => Ok tt
             | Raise _ => Raise (OtherException "OverflowError")
             end,
             set_trace (trace b ++ [Ev time_monotonic (Ok now)]) b)).
Proof.
  intros Hmin.
  assert (Hloop : forall deadline b0,
            join_loop respond dq_name xq_name fuel queue_name min_successes idle_time
              deadline 0 b0 = Some (Ok tt, b0)).
  { intros deadline b0. destruct fuel; cbn [join_loop];
      by destruct (Z.ltb_spec 0 min_successes); [lia|]. }
  rewrite !join_enters. cbn [Z.eqb]. split; [apply Hloop|]. split; [apply Hloop|].
  intros t now Ht Hnow. rewrite join_enters, Hnow.
  destruct (Z.eqb_spec t 0); [done|]. cbn zeta.
  destruct (div1000 t) as [seconds|e] eqn:Hdiv; [apply Hloop|].
  by rewrite (div1000_raises _ _ Hdiv).
Qed.

(** On queues that never empty, a [join] that asks for no empty sample
    returns at once, though its deadline lies a second in the past. *)
Lemma join_returns_at_once_witness :
  0 <= 0 /\
  fst <$> join busy spec_dq_name spec_xq_name 0 "default" 0 100 (Some (-1000)) example_broker
  = Some (Ok tt) /\
  counts (trace (default example_broker
                   (snd <$> join busy spec_dq_name spec_xq_name 0 "default" 0 100
                              (Some (-1000)) example_broker))) = [].
Proof.
  split; [lia|].
  destruct (join_returns_at_once busy spec_dq_name spec_xq_name 0 "default" 0 100
              example_broker) as (_ & _ & Hsome); [lia|].
  rewrite (Hsome (-1000) (ticking (trace example_broker))); [|lia|reflexivity].
  split; [reflexivity|]. vm_compute. reflexivity.
Defined.
(** * The dead-letter queue *)

(** C7.  [_declare_xq_queue] declares the dead-letter queue of a queue
    name durable, with the one argument [x-message-ttl] equal to
    604,800,000 milliseconds, seven days: the constant [DEAD_MESSAGE_TTL],
    whatever the broker, the queue name and the answers of the library.
    The declaration is the one call it makes once it has the channel, and
    what that call answers is what it returns; it fails only when the
    channel cannot be had or the declaration is refused.  With a library
    that answers every call it returns, having declared that queue and no
    other; and the topology declared for the recorded queues holds, for
    every recorded queue, its dead-letter queue with that same argument. *)
Theorem dead_letter_ttl (respond : oracle) (dq_name xq_name : string -> string)
    (queue_name : string) (b : RabbitmqBroker) :
  let arguments : gmap string value := {["x-message-ttl" := VInt 604800000]} in
  let d := {| decl_queue := xq_name queue_name; decl_durable := true;
              decl_arguments := arguments |} in
  let run := _declare_xq_queue respond xq_name queue_name b in
  DEAD_MESSAGE_TTL = 604800000 /\
  DEAD_MESSAGE_TTL = 7 * 24 * 60 * 60 * 1000 /\
  (forall ch b1,
     channel respond b = (Ok ch, b1) ->
     let c := channel_queue_declare ch (xq_name queue_name) true arguments in
     run = (respond Z (trace b1) c, set_trace (trace b1 ++ [Ev c (respond Z (trace b1) c)]) b1)) /\
  (forall e b1, channel respond b = (Raise e, b1) -> run = (Raise e, b1)) /\
  (exists evs,
     trace run.2 = trace b ++ evs /\
     Forall (eq d) (declarations evs) /\
     (forall n, run.1 = Ok n -> declarations evs = [d]) /\
     (cooperative respond -> exists n, run.1 = Ok n)) /\
  (valid_max_priority (max_priority b) ->
   cooperative respond ->
   forall q,
     q ∈ queues b ->
     {| decl_queue := xq_name q; decl_durable := true; decl_arguments := arguments |}
     ∈ declarations (trace (_declare_rabbitmq_queues respond dq_name xq_name b).2)).
Proof.
  intros arguments d run. split; [done|]. split; [done|].
  split; [|split; [|split]].
  - intros ch b1 Hch c. subst run c. unfold _declare_xq_queue, bind. by rewrite Hch.
  - intros e b1 Hch. subst run. unfold _declare_xq_queue, bind. by rewrite Hch.
  - subst run. rewrite (_declare_xq_queue_eq respond xq_name queue_name b). fold arguments d.
    destruct (declare_as respond d b) as [r b'] eqn:H.
    pose proof H as Hrun. apply declare_as_run in H as [F O].
    destruct F as [_ _ _ _ _ _ _ (evs & Htr & Hall)]. exists evs. cbn [fst snd].
    split; [done|]. split; [by apply declare_event_declarations|]. split.
    + intros n ->. destruct (O n eq_refl) as [D _]. rewrite Htr in D.
      unfold declarations in *. rewrite omap_app in D. by apply app_inv_head in D.
    + intros Hcoop. unfold declare_as in Hrun.
      assert (Hnever : never_raises
                (ch <- channel respond;;
                 perform respond (channel_queue_declare ch (decl_queue d) (decl_durable d)
                                    (decl_arguments d)))).
      { apply never_raises_bind; [by apply never_raises_channel|].
        intros ch. by apply never_raises_perform. }
      destruct (Hnever b) as [n Hn]. rewrite Hrun in Hn. by exists n.
  - intros Hv Hcoop q Hq.
    destruct (_declare_rabbitmq_queues respond dq_name xq_name b) as [r b'] eqn:H.
    pose proof (never_raises__declare_rabbitmq_queues respond dq_name xq_name Hcoop b)
      as [[] Hr].
    rewrite H in Hr. cbn [fst snd] in *. subst r.
    apply _declare_rabbitmq_queues_run in H as [_ O]; [|done].
    rewrite (O eq_refl). apply elem_of_app. right.
    apply list_elem_of_In, in_concat.
    exists (topology dq_name xq_name (max_priority b) q). split.
    + apply list_elem_of_In, list_elem_of_fmap_2. by apply elem_of_elements.
    + apply list_elem_of_In. unfold topology. set_solver.
Qed.

(** The dead-letter queue of the example broker, as a library that
    answers every call is asked to declare it. *)
Lemma dead_letter_ttl_witness :
  declarations (trace (_declare_xq_queue calm spec_xq_name "default" example_broker).2)
  = [{| decl_queue := "default.XQ"; decl_durable := true;
        decl_arguments := {["x-message-ttl" := VInt 604800000]} |}] /\
  {| decl_queue := "default.XQ"; decl_durable := true;
     decl_arguments := {["x-message-ttl" := VInt 604800000]} |}
  ∈ declarations (trace (_declare_rabbitmq_queues calm spec_dq_name spec_xq_name
                           example_broker).2).
Proof.
  destruct (dead_letter_ttl calm spec_dq_name spec_xq_name "default" example_broker)
    as (_ & _ & _ & _ & (evs & Htr & _ & Hok & Hcoop) & Hall).
  split.
  - destruct (Hcoop calm_cooperative) as [n Hn]. rewrite Htr.
    change (trace example_broker) with (@nil event). cbn [app].
    exact (Hok n Hn).
  - apply (Hall example_broker_valid calm_cooperative "default").
    vm_compute. reflexivity.
Defined.

(** * The priority of a publication *)

(** C10.  The properties [enqueue] builds for its publishes hold, under
    [priority], the message's own [priority] option if it has one,
    otherwise the actor's, otherwise [None]; so when both declare one, the
    message's wins.  [enqueue] always returns or raises; every
    [basic.publish] it makes carries that priority, and when it returns
    its last call is the accepted publish of the message it returns, with
    that priority.  With a library that answers every call it does
    return, having published exactly once. *)
Theorem published_priority_precedence (respond : oracle) (dq_name xq_name : string -> string)
    (message : Message.t) (delay : option Z) (b : RabbitmqBroker) (actor : Actor) :
  actors b !! Message.actor_name message = Some actor ->
  valid_max_priority (max_priority b) ->
  let priority :=
    match Message.options message !! "priority" with
    | Some v => v
    | None =>
        match actor_options actor !! "priority" with
        | Some v => v
        | None => VNone
        end
    end in
  (forall m q p b0,
     enqueue_prepare respond dq_name message delay b = (Ok (m, q, p), b0) ->
     p !! "priority" = Some priority) /\
  (forall v w,
     Message.options message !! "priority" = Some v ->
     actor_options actor !! "priority" = Some w ->
     priority = v) /\
  is_Some (enqueue respond dq_name xq_name message delay b) /\
  (forall r b',
     enqueue respond dq_name xq_name message delay b = Some (r, b') ->
     exists evs,
       trace b' = trace b ++ evs /\
       Forall (fun p => pub_properties p !! "priority" = Some priority) (publications evs) /\
       (forall m, r = Ok m ->
          exists pre ch q p,
            evs = pre ++ [Ev (channel_basic_publish ch "" q (Message.encode m) p) (Ok tt)] /\
            p !! "priority" = Some priority)) /\
  (cooperative respond ->
   exists m b' evs p,
     enqueue respond dq_name xq_name message delay b = Some (Ok m, b') /\
     trace b' = trace b ++ evs /\
     publications evs = [p] /\
     pub_body p = Message.encode m /\
     pub_properties p !! "priority" = Some priority).
Proof.
  intros Hactor Hv priority.
  assert (Hprio : publish_properties message actor !! "priority" = Some priority).
  { unfold publish_properties. by rewrite lookup_insert_eq. }
  assert (Hsome : is_Some (enqueue respond dq_name xq_name message delay b)).
  { unfold enqueue.
    destruct (enqueue_prepare _ _ _ _ b) as [[[[m q] p]|e] b0]; [|by eexists].
    change (Z.to_nat MAX_ENQUEUE_ATTEMPTS) with 6%nat.
    apply enqueue_loop_terminates; unfold MAX_ENQUEUE_ATTEMPTS; lia. }
  assert (Hrun : forall r b',
            enqueue respond dq_name xq_name message delay b = Some (r, b') ->
            exists evs,
              trace b' = trace b ++ evs /\
              Forall (fun p => pub_properties p !! "priority" = Some priority)
                (publications evs) /\
              (forall m, r = Ok m ->
                 exists pre ch q p,
                   evs = pre ++ [Ev (channel_basic_publish ch "" q (Message.encode m) p)
                                   (Ok tt)] /\
                   p !! "priority" = Some priority)).
  { intros r b' H. apply enqueue_run in H; [|done]. rewrite Hactor in H.
    destruct H as (evs & Htr & Hall & O). exists evs. split; [done|]. split.
    - eapply Forall_impl; [exact Hall|]. by intros p (_ & _ & ->).
    - intros m ->. destruct (O _ eq_refl) as (_ & _ & _ & pre & ch & ->).
      by eexists pre, ch, _, _. }
  split; [|split; [|split; [done|split; [done|]]]].
  - intros m q p b0 H. rewrite enqueue_prepare_run, Hactor in H.
    destruct delay as [d|]; [|by injection H as <- <- <- <-].
    cbn zeta in H. destruct (respond Z (trace b) current_millis); [|done].
    by injection H as <- <- <- <-.
  - intros v w Hm _. subst priority. by rewrite Hm.
  - intros Hcoop. destruct Hsome as [[r b'] Hsome].
    assert (Hok : exists m, r = Ok m /\
              exists j, (j <= 1)%nat /\
                exists b0, publications (trace b0) = publications (trace b) /\
                           attempted m delay j (Ok m) b0 b').
    { unfold enqueue in Hsome. rewrite enqueue_prepare_run, Hactor in Hsome.
      destruct delay as [d|].
      - cbn zeta in Hsome. destruct (Hcoop Z (trace b) current_millis) as [now Hnow].
        rewrite Hnow in Hsome.
        destruct (enqueue_loop_first respond dq_name xq_name Hcoop 5 1
                    (Message.copy message (Some (dq_name (Message.queue_name message)))
                       {["eta" := VInt (now + d)]})
                    (dq_name (Message.queue_name message)) (publish_properties message actor)
                    (Some d) (set_trace (trace b ++ [Ev current_millis (Ok now)]) b))
          as (b1 & Hattempt & Hloop).
        change (Z.to_nat MAX_ENQUEUE_ATTEMPTS) with 6%nat in Hsome.
        rewrite Hloop in Hsome. injection Hsome as <- <-. eexists. split; [done|].
        pose proof (enqueue_attempt_attempted respond dq_name xq_name
                      (Message.copy message (Some (dq_name (Message.queue_name message)))
                         {["eta" := VInt (now + d)]})
                      (dq_name (Message.queue_name message))
                      (publish_properties message actor) (Some d)
                      (set_trace (trace b ++ [Ev current_millis (Ok now)]) b)) as Hj.
        cbn zeta in Hj. rewrite Hattempt in Hj. destruct Hj as (j & Hj & Hatt).
        exists j. split; [done|]. eexists. split; [|exact Hatt].
        cbn [trace set_trace]. unfold publications. rewrite omap_app. cbn.
        by rewrite app_nil_r.
      - destruct (enqueue_loop_first respond dq_name xq_name Hcoop 5 1 message
                    (Message.queue_name message) (publish_properties message actor)
                    None b) as (b1 & Hattempt & Hloop).
        change (Z.to_nat MAX_ENQUEUE_ATTEMPTS) with 6%nat in Hsome.
        rewrite Hloop in Hsome. injection Hsome as <- <-. eexists. split; [done|].
        pose proof (enqueue_attempt_attempted respond dq_name xq_name message
                      (Message.queue_name message)
                      (publish_properties message actor) None b) as Hj.
        cbn zeta in Hj. rewrite Hattempt in Hj. destruct Hj as (j & Hj & Hatt).
        exists j. split; [done|]. by exists b. }
    destruct Hok as (m & -> & j & Hj & b0 & Hb0 & _ & (ps & Hps & Hlen) & _).
    pose proof Hsome as H. apply enqueue_run in H; [|done]. rewrite Hactor in H.
    destruct H as (evs & Htr & Hall & O).
    destruct (O _ eq_refl) as (_ & _ & _ & pre & ch & ->).
    rewrite Hb0, Htr in Hps. unfold publications in Hps, Hlen.
    rewrite !omap_app in Hps. apply app_inv_head in Hps. cbn in Hps.
    assert (Hpre : omap publication_of pre = []).
    { destruct (omap publication_of pre) as [|p0 l]; [done|].
      rewrite <-Hps in Hlen. cbn in Hlen. rewrite length_app in Hlen. cbn in Hlen. lia. }
    eexists m, b', _, _. split; [exact Hsome|]. split; [exact Htr|].
    unfold publications. rewrite omap_app, Hpre. cbn. split; [done|]. by split.
Qed.

(** The urgent message asks for priority 9 and the example actor
    declares 5: on a library that answers every call, [enqueue] publishes
    once, with priority 9. *)
Lemma published_priority_precedence_witness :
  actors example_broker !! Message.actor_name urgent_message = Some example_actor /\
  valid_max_priority (max_priority example_broker) /\
  actor_options example_actor !! "priority" = Some (VInt 5) /\
  exists m b' p,
    enqueue calm spec_dq_name spec_xq_name urgent_message None example_broker
    = Some (Ok m, b') /\
    publications (trace b') = [p] /\
    pub_properties p !! "priority" = Some (VInt 9).
Proof.
  assert (H1 : actors example_broker !! Message.actor_name urgent_message
               = Some example_actor) by (vm_compute; reflexivity).
  split; [exact H1|]. split; [exact example_broker_valid|].
  split; [vm_compute; reflexivity|].
  destruct (published_priority_precedence calm spec_dq_name spec_xq_name
              urgent_message None example_broker example_actor H1 example_broker_valid)
    as (_ & _ & _ & _ & Hcoop).
  destruct (Hcoop calm_cooperative) as (m & b' & evs & p & Hrun & Htr & Hpubs & _ & Hp).
  exists m, b', p. split; [exact Hrun|]. split.
  - rewrite Htr. exact Hpubs.
  - rewrite Hp. vm_compute. reflexivity.
Defined.

(** * Retrying an enqueue *)


(** What [del self.channel] leaves of the channel when it returns. *)
Lemma del_channel_ok (respond : oracle) (b b' : RabbitmqBroker) :
  del_channel respond b = (Ok tt, b') ->
  state_channel b' = None \/
  exists ch,
    state_channel b = Some ch /\
    respond unit (trace b) (channel_close ch) = Raise AttributeError /\
    state_channel b' = Some ch.
Proof.
  unfold del_channel, bind, try_except, gets, modify, perform.
  destruct (state_channel b) as [ch|] eqn:Hch; cbn.
  - destruct (respond unit (trace b) (channel_close ch)) as [[]|e] eqn:He; cbn.
    + intros [= <-]. by left.
    + destruct e; cbn; intros [= <-]; cbn; try (by left). right. by exists ch.
  - intros [= <-]. by left.
Qed.

(** X20.  When an attempt of [enqueue] (the lazy declaration of the
    topology, the fetching of the channel or the publish) raises a
    connection-level or channel-level error, the broker closes and drops
    the shared connection if the error is connection-level, and closes and
    drops the channel of the thread, keeping the connection, if it is
    channel-level (the channel stays cached in one case only: when closing
    it raised [AttributeError]); then it makes the whole attempt again.
    After six attempts that failed this way [enqueue] raises
    [ConnectionClosed] with the last error; it always returns or raises.
    A cached channel is used again for as long as it does not report
    closed, and replaced by a new one as soon as it does. *)
Theorem enqueue_retries (respond : oracle) (dq_name xq_name : string -> string) :
  (* what is thrown away *)
  (forall e b b',
     transport_error e = true ->
     enqueue_discard respond e b = (Ok tt, b') ->
     if isinstance_AMQPConnectionError e
     then _connection b' = None
     else _connection b' = _connection b /\
          (state_channel b' = None \/
           exists ch,
             state_channel b = Some ch /\
             respond unit (trace b) (channel_close ch) = Raise AttributeError /\
             state_channel b' = Some ch)) /\
  (* a cached channel *)
  (forall b ch closed,
     state_channel b = Some ch ->
     respond bool (trace b) (channel_is_closed ch) = Ok closed ->
     let b1 := set_trace (trace b ++ [Ev (channel_is_closed ch) (Ok closed)]) b in
     channel respond b = if closed then open_channel respond b1 else (Ok ch, b1)) /\
  (* the whole attempt is made again *)
  (forall m q p delay n b e b1,
     failures respond dq_name xq_name m q p delay n b = Some (e, b1) ->
     (n < 6)%nat ->
     enqueue_loop respond dq_name xq_name 6 1 m q p delay b
     = enqueue_loop respond dq_name xq_name (6 - n) (1 + Z.of_nat n) m q p delay
         (retry_logged b1)) /\
  (* six failures in all *)
  (forall m q p delay b e b',
     failures respond dq_name xq_name m q p delay 6 b = Some (e, b') ->
     enqueue_loop respond dq_name xq_name 6 1 m q p delay b
     = Some (Raise (ConnectionClosed e), b')) /\
  (forall message delay b m q p b0 e b',
     enqueue_prepare respond dq_name message delay b = (Ok (m, q, p), b0) ->
     failures respond dq_name xq_name m q p delay 6 b0 = Some (e, b') ->
     enqueue respond dq_name xq_name message delay b
     = Some (Raise (ConnectionClosed e), b')) /\
  (forall message delay b, is_Some (enqueue respond dq_name xq_name message delay b)).
Proof.
  repeat match goal with |- _ /\ _ => split end.
  - intros e b b' He H. unfold enqueue_discard in H.
    destruct (isinstance_AMQPConnectionError e).
    + apply del_connection_run in H as (_ & _ & Hc). by apply Hc.
    + split; [by apply del_channel_run in H as (? & _)|]. by apply del_channel_ok.
  - intros b ch closed Hch Hclosed. unfold channel, bind, gets, perform.
    rewrite Hch, Hclosed. by destruct closed.
  - intros m q p delay n b e b1 Hfails Hn.
    destruct (enqueue_loop_failures respond dq_name xq_name m q p delay n b e b1 6%nat 1
                Hfails) as [Hretry _]; [lia|].
    apply Hretry. unfold MAX_ENQUEUE_ATTEMPTS. lia.
  - intros m q p delay b e b' Hfails.
    destruct (enqueue_loop_failures respond dq_name xq_name m q p delay 6 b e b' 6%nat 1
                Hfails) as [_ Hlast]; [lia|].
    by apply Hlast.
  - intros message delay b m q p b0 e b' Hprepare Hfails. unfold enqueue.
    rewrite Hprepare. change (Z.to_nat MAX_ENQUEUE_ATTEMPTS) with 6%nat.
    destruct (enqueue_loop_failures respond dq_name xq_name m q p delay 6 b0 e b' 6%nat 1
                Hfails) as [_ Hlast]; [lia|].
    by apply Hlast.
  - intros message delay b. unfold enqueue.
    destruct (enqueue_prepare _ _ _ _ b) as [[[[m q] p]|e] b0]; [|by eexists].
    change (Z.to_nat MAX_ENQUEUE_ATTEMPTS) with 6%nat.
    apply enqueue_loop_terminates; unfold MAX_ENQUEUE_ATTEMPTS; lia.
Qed.

(** On a library whose every publish fails with a channel-level error,
    six attempts in a row fail, and [enqueue] raises [ConnectionClosed]. *)
Lemma enqueue_retries_witness :
  fst <$> enqueue publish_rejected spec_dq_name spec_xq_name example_message None
            example_broker
  = Some (Raise (ConnectionClosed AMQPChannelError)).
Proof.
  destruct (enqueue_retries publish_rejected spec_dq_name spec_xq_name)
    as (_ & _ & _ & _ & Hsix & _).
  assert (Hprepare :
            enqueue_prepare publish_rejected spec_dq_name example_message None example_broker
            = (Ok (example_message, "default",
                   publish_properties example_message example_actor), example_broker)).
  { rewrite enqueue_prepare_run.
    replace (actors example_broker !! Message.actor_name example_message)
      with (Some example_actor) by (vm_compute; reflexivity).
    reflexivity. }
  assert (Hfailures :
            fst <$> failures publish_rejected spec_dq_name spec_xq_name example_message
                      "default" (publish_properties example_message example_actor) None 6
                      example_broker
            = Some AMQPChannelError) by (vm_compute; reflexivity).
  destruct (failures publish_rejected spec_dq_name spec_xq_name example_message "default"
              (publish_properties example_message example_actor) None 6 example_broker)
    as [[e b']|] eqn:Hsome; [|discriminate Hfailures].
  injection Hfailures as ->.
  rewrite (Hsix _ _ _ _ _ _ _ _ _ Hprepare Hsome). reflexivity.
Defined.

(** * Joining a queue *)

(** C5.  A [timeout] of 0 is no timeout: [deadline = timeout and ...]
    leaves the deadline at 0, which [if deadline and ...] takes for no
    deadline, so [join] with a timeout of 0 does, on every broker and with
    every library, exactly what it does without a timeout.  On queues that
    drain after the first sample it returns after two samples, the first
    of which was not zero, without ever reading the clock; on queues that
    never empty it is still running after fifty turns, and has not raised
    [QueueJoinTimeout].  The same happens when the deadline comes out as
    the float [0.0]: with a timeout of -1000 on a clock that stands at one
    second, [join] is still running after fifty turns. *)
Theorem join_timeout_zero_never_expires :
  (forall (respond : oracle) (dq_name xq_name : string -> string) (fuel : nat)
          (queue_name : string) (min_successes idle_time : Z) (b : RabbitmqBroker),
     join respond dq_name xq_name fuel queue_name min_successes idle_time (Some 0) b
     = join respond dq_name xq_name fuel queue_name min_successes idle_time None b) /\
  (exists b',
     join draining spec_dq_name spec_xq_name 5 "default" 1 100 (Some 0) example_broker
     = Some (Ok tt, b') /\
     samples (counts (trace b')) = [2; 0] /\
     readings (trace b') = [] /\
     length (sleeps (trace b')) = 2%nat) /\
  join busy spec_dq_name spec_xq_name 50 "default" 1 100 (Some 0) example_broker = None /\
  (join_deadline busy_at_one (Some (-1000)) example_broker).1
  = Ok (Some (Float (S754_zero false))) /\
  join busy_at_one spec_dq_name spec_xq_name 50 "default" 1 100 (Some (-1000)) example_broker
  = None.
Proof.
  split; [|split; [|split; [|split]]].
  - intros respond dq_name xq_name fuel queue_name min_successes idle_time b.
    rewrite !join_enters. cbn [Z.eqb]. by apply join_loop_falsy.
  - eexists. split; [vm_compute; reflexivity|]. by vm_compute.
  - vm_compute. reflexivity.
  - vm_compute. reflexivity.
  - vm_compute. reflexivity.
Qed.

(** X19.  [join] enters its loop with a deadline only when [timeout] is
    set and not zero: it reads the clock, and the deadline is the float
    that the reading plus [timeout / 1000] is.  From any count of
    successes, the loop returns only once the samples have settled: a
    sample is the sum of the message counts of the main and of the delay
    queue, the dead-letter queue left out; the count goes up by one on a
    zero sample and back to zero on any other; the loop ends as soon as it
    reaches [min_successes]; after every sample the thread has slept the
    float that [idle_time / 1000] is; under a deadline that is true
    (neither [None] nor a zero) the clock was read at the head of every
    turn and never had reached the deadline, and under any other the
    clock was not read.  At the head of a turn, under a deadline that is
    true, a count not yet reached and a clock that has reached the
    deadline end the call with [QueueJoinTimeout]; and if the clock has
    reached it for good from some point on, the loop ends. *)
Theorem join_waits_or_times_out (respond : oracle) (dq_name xq_name : string -> string)
    (queue_name : string) (min_successes idle_time : Z) (b : RabbitmqBroker) :
  valid_max_priority (max_priority b) ->
  (* the deadline *)
  (forall fuel timeout,
     join respond dq_name xq_name fuel queue_name min_successes idle_time timeout b
     = match timeout with
       | None =>
           join_loop respond dq_name xq_name fuel queue_name min_successes idle_time None 0 b
       | Some t =>
           if t =? 0
           then join_loop respond dq_name xq_name fuel queue_name min_successes idle_time
                  (Some (Int 0)) 0 b
           else
             match respond float (trace b) time_monotonic with
             | Ok now =>
                 let b1 := set_trace (trace b ++ [Ev time_monotonic (Ok now)]) b in
                 match div1000 t with
                 | Ok seconds =>
                     join_loop respond dq_name xq_name fuel queue_name min_successes
                       idle_time (Some (Float (float_add now seconds))) 0 b1
                 | Raise e => Some (Raise e, b1)
                 end
             | Raise e =>
                 Some (Raise e, set_trace (trace b ++ [Ev time_monotonic (Raise e)]) b)
             end
       end) /\
  (* a normal return of the loop *)
  (forall fuel deadline successes b',
     0 <= successes ->
     join_loop respond dq_name xq_name fuel queue_name min_successes idle_time deadline
       successes b = Some (Ok tt, b') ->
     exists cs ts ss,
       counts (trace b') = counts (trace b) ++ cs /\
       settled successes min_successes (samples cs) /\
       sleeps (trace b') = sleeps (trace b) ++ ss /\
       length ss = length (samples cs) /\
       Forall (fun seconds => div1000 idle_time = Ok seconds) ss /\
       readings (trace b') = readings (trace b) ++ ts /\
       (if truthy_num deadline
        then length ts = length (samples cs) /\
             forall d, deadline = Some d -> Forall (fun t => float_ge_number t d = false) ts
        else ts = [])) /\
  (* a normal return of the call *)
  (forall fuel timeout b',
     join respond dq_name xq_name fuel queue_name min_successes idle_time timeout b
     = Some (Ok tt, b') ->
     exists cs ss,
       counts (trace b') = counts (trace b) ++ cs /\
       settled 0 min_successes (samples cs) /\
       sleeps (trace b') = sleeps (trace b) ++ ss /\
       length ss = length (samples cs) /\
       Forall (fun seconds => div1000 idle_time = Ok seconds) ss) /\
  (* the deadline has passed *)
  (forall fuel d successes now,
     successes < min_successes ->
     truthy_num (Some d) = true ->
     respond float (trace b) time_monotonic = Ok now ->
     float_ge_number now d = true ->
     join_loop respond dq_name xq_name (S fuel) queue_name min_successes idle_time
       (Some d) successes b
     = Some (Raise (QueueJoinTimeout queue_name),
             set_trace (trace b ++ [Ev time_monotonic (Ok now)]) b)) /\
  (* the loop ends *)
  (forall (N : nat) d,
     truthy_num (Some d) = true ->
     (forall h, (N <= length h)%nat ->
        exists now, respond float h time_monotonic = Ok now /\
                    float_ge_number now d = true) ->
     forall fuel successes,
       (N <= length (trace b) + fuel)%nat ->
       is_Some (join_loop respond dq_name xq_name (S fuel) queue_name min_successes
                  idle_time (Some d) successes b)).
Proof.
  intros Hv.
  split; [intros; apply join_enters|].
  split; [intros; by eapply join_loop_ok|]. split; [|split].
  - intros fuel timeout b' H. rewrite join_enters in H.
    assert (Hdone : forall b0 deadline,
              valid_max_priority (max_priority b0) ->
              counts (trace b0) = counts (trace b) -> sleeps (trace b0) = sleeps (trace b) ->
              join_loop respond dq_name xq_name fuel queue_name min_successes idle_time
                deadline 0 b0 = Some (Ok tt, b') ->
              exists cs ss,
                counts (trace b') = counts (trace b) ++ cs /\
                settled 0 min_successes (samples cs) /\
                sleeps (trace b') = sleeps (trace b) ++ ss /\
                length ss = length (samples cs) /\
                Forall (fun seconds => div1000 idle_time = Ok seconds) ss).
    { intros b0 deadline Hv0 C0 S0 H0.
      apply join_loop_ok in H0 as (cs & ts & ss & C & Hset & S & Hlen & Hss & _); [|done..].
      exists cs, ss. by rewrite <-C0, <-S0. }
    destruct timeout as [t|]; [|by eapply Hdone].
    destruct (t =? 0); [by eapply Hdone|].
    destruct (respond float (trace b) time_monotonic) as [now|e]; [|done].
    cbn zeta in H. destruct (div1000 t) as [seconds|e]; [|done].
    eapply Hdone; [..|exact H]; try done;
      cbn [trace set_trace]; unfold counts, sleeps; rewrite omap_app; cbn;
      by rewrite app_nil_r.
  - intros fuel d successes now Hlt Htruthy Hnow Hle. by apply join_loop_timeout.
  - intros N d Htruthy Hclock fuel successes Hlen. by eapply join_loop_terminates.
Qed.

(** On a library whose queues drain after the first sample, a [join] with
    a timeout of a minute returns after two samples.  And on queues that
    never empty, with a timeout of 300 milliseconds and a clock that reads
    [0.0] and then [0.3], [join] raises [QueueJoinTimeout] at the head of
    its first turn: the float [0.0 + 300 / 1000] is the float [0.3]. *)
Lemma join_waits_or_times_out_witness :
  valid_max_priority (max_priority example_broker) /\
  (exists b' cs,
     join draining spec_dq_name spec_xq_name 5 "default" 1 100 (Some 60000) example_broker
     = Some (Ok tt, b') /\
     counts (trace b') = counts (trace example_broker) ++ cs /\
     samples cs = [2; 0] /\
     settled 0 1 (samples cs)) /\
  exists b',
    join busy_three_tenths_later spec_dq_name spec_xq_name 5 "default" 1 100 (Some 300)
      example_broker
    = Some (Raise (QueueJoinTimeout "default"), b') /\
    readings (trace b') = [S754_zero false; three_tenths] /\
    counts (trace b') = [].
Proof.
  split; [exact example_broker_valid|].
  destruct (join_waits_or_times_out draining spec_dq_name spec_xq_name "default" 1 100
              example_broker example_broker_valid) as (_ & _ & Hjoin & _).
  split.
  - assert (Hrun : exists b',
              join draining spec_dq_name spec_xq_name 5 "default" 1 100 (Some 60000)
                example_broker = Some (Ok tt, b') /\
              counts (trace b') = [1; 1; 1; 0; 0; 0])
      by (eexists; split; vm_compute; reflexivity).
    destruct Hrun as (b' & Hrun & Hcounts).
    destruct (Hjoin 5%nat (Some 60000) b' Hrun) as (cs & ss & Hcs & Hset & _).
    exists b', cs. split; [exact Hrun|]. split; [exact Hcs|].
    rewrite Hcounts in Hcs. change (counts (trace example_broker)) with (@nil Z) in Hcs.
    cbn [app] in Hcs. subst cs. split; [reflexivity|exact Hset].
  - eexists. split; [vm_compute; reflexivity|]. split; vm_compute; reflexivity.
Defined.
